(** * cosmo-x: rate-limit-aware call wrapper, scheduler client, metrics

    A shallow embedding of the TypeScript sources

      - [src/rate-limiter.ts]   ([RateLimiter], [is429], [extractResetSeconds])
      - [src/client.ts]         ([envFromProcess])
      - [src/scheduler.ts]      ([Scheduler.request], [Scheduler.health], routes)
      - [src/operations/measure.ts] ([measureArticle], [measureArticles],
                                     [pulseCheck])
      - [src/operations/post.ts]    ([createPost], [reply], [deletePost],
                                     [postThread])
      - [src/operations/search.ts]  ([searchRecent])
      - [src/operations/lookup.ts]  ([getTweet], [getMe], [getUserTimeline])

    and the properties the specification states about them.

    Conventions of the embedding.

    - A JavaScript [number] is an IEEE 754 binary64 value.  It is modelled by
      [spec_float] with precision 53 and maximal exponent 1024, whose
      operations are the executable IEEE specification of the Standard
      Library: rounding, infinities, signed zeros and NaN are all present.
    - Loop counters and retry budgets ([attempt], [maxRetries]) hold integers
      and are counted in [Z]; they enter number arithmetic through
      [Math_pow2].
    - A JavaScript string is modelled by [string], holding its UTF-8
      encoding.  The needles and separators of the sources are ASCII, for
      which a byte-wise search agrees with a search over UTF-16 code units;
      where the sources count code units or classify characters
      ([substring], the white space of [parseInt]), the model reads the bytes
      as characters.
    - Asynchronous code is modelled sequentially: one logical call runs from
      start to end, its awaits being steps of a state monad over the
      limiter object and the outside world.  The world is abstract: reading
      the clock, sleeping and running the thunk are its only operations, and
      nothing is assumed about them.  A thunk acts on the world only: the
      map of the limiter is private to it, and calls that interleave at an
      await are outside the model.
    - Every call carries the trace of what it did (invocations of the
      thunk, sleeps, log lines), so that "invoked n times" and "nothing
      happened after" are statements about a list. *)

From Stdlib Require Import ZArith Lia String Ascii List Bool.
From Stdlib Require Import Floats.SpecFloat.
From stdpp Require Import gmap strings.

Local Open Scope Z_scope.

(* ===================================================================== *)
(** * JavaScript numbers *)
(* ===================================================================== *)

Module Num.

Definition number : Type := spec_float.

Definition prec : Z := 53.
Definition emax : Z := 1024.

(** The number denoted by an integer literal or an integer result:
    the integer rounded to the nearest binary64 value. *)
Definition of_Z (z : Z) : number := binary_normalize prec emax z 0 false.

Definition NaN : number := S754_nan.
Definition zero : number := S754_zero false.

Definition add : number -> number -> number := SFadd prec emax.
Definition sub : number -> number -> number := SFsub prec emax.
Definition mul : number -> number -> number := SFmul prec emax.
Definition div : number -> number -> number := SFdiv prec emax.

(** [a < b], [a <= b], [a === b] on numbers; [a > b] is [ltb b a] and
    [a >= b] is [leb b a].  Every comparison with NaN is false. *)
Definition ltb : number -> number -> bool := SFltb.
Definition leb : number -> number -> bool := SFleb.
Definition eqb : number -> number -> bool := SFeqb.
Definition gtb (a b : number) : bool := ltb b a.
Definition geb (a b : number) : bool := leb b a.

Definition is_nan (x : number) : bool :=
  match x with S754_nan => true | _ => false end.

Definition is_zero (x : number) : bool :=
  match x with S754_zero _ => true | _ => false end.

Definition is_finite (x : number) : bool :=
  match x with
  | S754_zero _ | S754_finite _ _ _ => true
  | S754_infinity _ | S754_nan => false
  end.

(** ToBoolean on a number: [0], [-0] and [NaN] are falsy. *)
Definition truthy (x : number) : bool := negb (is_zero x || is_nan x).

(** [Math.max(a, b)]: NaN if either argument is NaN; [+0] is larger
    than [-0]. *)
Definition Math_max (a b : number) : number :=
  if is_nan a || is_nan b then NaN
  else if ltb a b then b
  else if ltb b a then a
  else match a, b with
       | S754_zero true, S754_zero false => b
       | _, _ => a
       end.

(** [Math.pow(2, n)] for an integer [n]: the power of two itself, rounded
    (to infinity from [n = 1024] on). *)
Definition Math_pow2 (n : Z) : number := binary_normalize prec emax 1 n false.

End Num.

Import Num.

(* ===================================================================== *)
(** * JavaScript strings *)
(* ===================================================================== *)

Module Str.

(** [s.includes(needle)]. *)
Fixpoint includes (needle s : string) : bool :=
  if String.prefix needle s then true
  else match s with
       | EmptyString => false
       | String _ s' => includes needle s'
       end.

(** ToBoolean on a string: only the empty string is falsy. *)
Definition truthy (s : string) : bool :=
  match s with EmptyString => false | String _ _ => true end.

(** A [string] holds the UTF-8 encoding of the JavaScript string: one byte
    for a character below U+0080, two below U+0800, three below U+10000
    (one UTF-16 code unit each) and four from U+10000 on (two code units,
    a surrogate pair).  A surrogate that stands alone is written in the
    same three-byte form. *)
Definition byte_value (c : ascii) : Z := Z.of_nat (nat_of_ascii c).

(** White space skipped by [parseInt] ([WhiteSpace] and [LineTerminator]
    of the language).  Below U+0080: TAB, LF, VT, FF, CR and the space. *)
Definition is_white_space (c : ascii) : bool :=
  let n := byte_value c in
  (n =? 9) || (n =? 10) || (n =? 11) || (n =? 12) || (n =? 13) || (n =? 32).

(** In two bytes: U+00A0, the no-break space. *)
Definition is_white_space2 (c1 c2 : ascii) : bool :=
  (byte_value c1 =? 194) && (byte_value c2 =? 160).

(** In three bytes: U+1680, U+2000 to U+200A, the separators U+2028 and
    U+2029, U+202F, U+205F, U+3000 and the byte order mark U+FEFF. *)
Definition is_white_space3 (c1 c2 c3 : ascii) : bool :=
  let b1 := byte_value c1 in
  let b2 := byte_value c2 in
  let b3 := byte_value c3 in
  ((b1 =? 225) && (b2 =? 154) && (b3 =? 128))
  || ((b1 =? 226) && (b2 =? 128)
      && (((128 <=? b3) && (b3 <=? 138))
          || (b3 =? 168) || (b3 =? 169) || (b3 =? 175)))
  || ((b1 =? 226) && (b2 =? 129) && (b3 =? 159))
  || ((b1 =? 227) && (b2 =? 128) && (b3 =? 128))
  || ((b1 =? 239) && (b2 =? 187) && (b3 =? 191)).

Fixpoint trim_start (s : string) : string :=
  match s with
  | String c1 s1 =>
      if is_white_space c1 then trim_start s1
      else
        match s1 with
        | String c2 s2 =>
            if is_white_space2 c1 c2 then trim_start s2
            else
              match s2 with
              | String c3 s3 =>
                  if is_white_space3 c1 c2 c3 then trim_start s3 else s
              | EmptyString => s
              end
        | EmptyString => s
        end
  | EmptyString => EmptyString
  end.

(** A byte that continues a character, and one that starts a character
    of four bytes. *)
Definition is_continuation (c : ascii) : bool :=
  (128 <=? byte_value c) && (byte_value c <? 192).

Definition starts_pair (c : ascii) : bool := 240 <=? byte_value c.

(** The high surrogate of the character of four bytes that starts with
    [c0 c1 c2], in its three bytes. *)
Definition high_surrogate (c0 c1 c2 : ascii) : string :=
  let top := Z.lor (Z.shiftl (Z.land (byte_value c0) 7) 8)
               (Z.lor (Z.shiftl (Z.land (byte_value c1) 63) 2)
                      (Z.shiftr (Z.land (byte_value c2) 63) 4)) in
  (* [top] is the code point shifted right by 10, and the surrogate is
     0xD800 + ((code point - 0x10000) >> 10), that is 0xD7C0 + top *)
  let hi := 55232 + top in
  let byte n := ascii_of_nat (Z.to_nat n) in
  String (byte 237)
    (String (byte (128 + Z.land (Z.shiftr hi 6) 63))
       (String (byte (128 + Z.land hi 63)) EmptyString)).

(** [s.substring(0, n)]: the first [n] UTF-16 code units of [s].  A
    character of four bytes counts for two; when only one unit is left
    for it, its high surrogate is what is kept. *)
Fixpoint substring0 (n : nat) (s : string) : string :=
  match s with
  | EmptyString => EmptyString
  | String c s' =>
      if is_continuation c then String c (substring0 n s')
      else
        match n with
        | O => EmptyString
        | S n' =>
            if starts_pair c then
              match n' with
              | O => match s' with
                     | String c1 (String c2 _) => high_surrogate c c1 c2
                     | _ => EmptyString
                     end
              | S n'' => String c (substring0 n'' s')
              end
            else String c (substring0 n' s')
        end
  end.

Definition digit_value (c : ascii) : option Z :=
  let n := byte_value c in
  if (48 <=? n) && (n <=? 57) then Some (n - 48) else None.

(** The decimal digits a string starts with. *)
Fixpoint leading_digits (s : string) : list Z :=
  match s with
  | String c s' =>
      match digit_value c with
      | Some d => d :: leading_digits s'
      | None => []
      end
  | EmptyString => []
  end.

Definition decimal_value (ds : list Z) : Z :=
  fold_left (fun acc d => 10 * acc + d) ds 0.

(** [parseInt(s, 10)]: skip white space, read an optional sign, read the
    longest run of decimal digits and ignore what follows; NaN when there
    is no digit. *)
Definition parseInt10 (s : string) : number :=
  let S := trim_start s in
  let '(negative, body) :=
    match S with
    | String "-"%char r => (true, r)
    | String "+"%char r => (false, r)
    | _ => (false, S)
    end in
  match leading_digits body with
  | [] => NaN
  | ds => let n := of_Z (decimal_value ds) in
          if negative then SFopp n else n
  end.

(** Decimal rendering of a non-negative integer, as a template literal
    prints an HTTP status. *)
Definition digit_char (d : nat) : ascii := ascii_of_nat (48 + d).

Fixpoint decimal_digits (fuel n : nat) (acc : string) : string :=
  match fuel with
  | O => acc
  | S fuel' =>
      let acc' := String (digit_char (n mod 10)) acc in
      match (n / 10)%nat with
      | O => acc'
      | q => decimal_digits fuel' q acc'
      end
  end.

Definition of_nat (n : nat) : string := decimal_digits (S n) n EmptyString.

(** [parts.join(sep)]. *)
Fixpoint join (sep : string) (parts : list string) : string :=
  match parts with
  | [] => EmptyString
  | [p] => p
  | p :: rest => p ++ sep ++ join sep rest
  end.

End Str.

(* ===================================================================== *)
(** * Thrown values *)
(* ===================================================================== *)

(** What a thunk can throw is [unknown] to the limiter.  The model keeps what
    [is429] and [extractResetSeconds] look at: whether the value is a
    primitive or an object, whether the object is an [Error] (and its
    message), and the object's [headers] property. *)

Inductive Primitive : Type :=
  | PUndefined
  | PNull
  | PBoolean (b : bool)
  | PNumber (n : number)
  | PString (s : string).

(** The value of a [headers] property: a primitive, or an object read as a
    [Record<string, string>]. *)
Inductive HeadersValue : Type :=
  | HPrimitive (p : Primitive)
  | HRecord (fields : gmap string string).

Inductive ObjectKind : Type :=
  | ErrorInstance (message : string)   (* [err instanceof Error] *)
  | PlainObject.

Inductive JsValue : Type :=
  | JPrimitive (p : Primitive)
  | JObject (kind : ObjectKind) (headers : option HeadersValue).

Definition undefined : JsValue := JPrimitive PUndefined.

(** [new Error(message)]. *)
Definition new_Error (message : string) : JsValue :=
  JObject (ErrorInstance message) None.

(** An awaited promise either resolves with a value or rejects with a thrown
    value. *)
Inductive Completion (A : Type) : Type :=
  | Resolved (a : A)
  | Rejected (e : JsValue).
Arguments Resolved {A} a.
Arguments Rejected {A} e.

(* ===================================================================== *)
(** * src/rate-limiter.ts *)
(* ===================================================================== *)

(** [interface RateLimitState]. *)
Record RateLimitState : Type := mkRateLimitState {
  endpoint : string;
  remaining : number;
  resetAt : number;   (* unix ms *)
  lastHit : number;   (* unix ms *)
}.

(** [interface RateLimiterOpts]; an absent field is [None].  The [log]
    callback is not a field of the model: what the limiter logs is recorded
    in the event trace of the call. *)
Record RateLimiterOpts : Type := mkRateLimiterOpts {
  opt_maxRetries : option Z;
  opt_baseDelay : option number;
}.

(** The fields of a [RateLimiter] object. *)
Record RateLimiter : Type := mkRateLimiter {
  limits : gmap string RateLimitState;
  maxRetries : Z;
  baseDelay : number;
}.

(** [constructor(opts = {})]. *)
Definition new_RateLimiter (opts : RateLimiterOpts) : RateLimiter :=
  {| limits := ∅;
     maxRetries := default 3 (opt_maxRetries opts);
     baseDelay := default (of_Z 15000) (opt_baseDelay opts) |}.

Definition set_limits (this : RateLimiter) (m : gmap string RateLimitState)
  : RateLimiter :=
  {| limits := m; maxRetries := maxRetries this; baseDelay := baseDelay this |}.

(** The two lines the limiter logs, with the values their text is built
    from ([waitMs] is printed as [Math.ceil(waitMs / 1000)] seconds). *)
Inductive LogLine : Type :=
  | LogPreWait (endpoint : string) (waitMs : number)
  | LogRetry (endpoint : string) (retry : Z) (maxRetries : Z) (waitMs : number).

(** What one call does that the outside can observe, in order. *)
Inductive Event (T : Type) : Type :=
  | EvInvoke (c : Completion T)   (* one invocation of the thunk, and how it ended *)
  | EvSleep (ms : number)
  | EvLog (l : LogLine).
Arguments EvInvoke {T} c.
Arguments EvSleep {T} ms.
Arguments EvLog {T} l.

(** [function is429(err: unknown): boolean]. *)
Definition is429 (err : JsValue) : bool :=
  match err with
  | JObject (ErrorInstance message) _ =>
      Str.includes "429" message || Str.includes "Too Many Requests" message
  | _ => false
  end.

Section RateLimiter.

(** The outside world: the system clock, timers, and whatever the thunk
    talks to.  [Date_now] may change the world (time passes between two
    readings); a thunk is a step of the world that resolves or rejects. *)
Context {W T : Type}.
Variable Date_now : W -> number * W.
Variable sleep : number -> W -> W.

Definition Thunk : Type := W -> Completion T * W.

(** ** The monad of an async method: state, rejection, trace *)

Definition M (A : Type) : Type :=
  RateLimiter * W -> Completion A * (RateLimiter * W) * list (Event T).

Definition ret {A} (a : A) : M A := fun σ => (Resolved a, σ, []).

Definition throw {A} (e : JsValue) : M A := fun σ => (Rejected e, σ, []).

Definition bind {A B} (m : M A) (k : A -> M B) : M B :=
  fun σ =>
    match m σ with
    | (Resolved a, σ1, evs1) =>
        let '(c, σ2, evs2) := k a σ1 in (c, σ2, evs1 ++ evs2)
    | (Rejected e, σ1, evs1) => (Rejected e, σ1, evs1)
    end.

Notation "'let*' x ':=' m 'in' k" := (bind m (fun x => k))
  (at level 10, x pattern, m at level 100, k at level 200).
Notation "m1 ';;' m2" := (bind m1 (fun _ => m2))
  (at level 100, m2 at level 200, right associativity).

Definition this_ : M RateLimiter := fun σ => (Resolved (fst σ), σ, []).

Definition now_ : M number :=
  fun '(this, w) => let '(t, w') := Date_now w in (Resolved t, (this, w'), []).

Definition sleep_ (ms : number) : M unit :=
  fun '(this, w) => (Resolved tt, (this, sleep ms w), [EvSleep ms]).

Definition log_ (l : LogLine) : M unit :=
  fun σ => (Resolved tt, σ, [EvLog l]).

(** [this.limits.get(k)] and [this.limits.set(k, v)]. *)
Definition limits_get (k : string) : M (option RateLimitState) :=
  fun σ => (Resolved (limits (fst σ) !! k), σ, []).

Definition limits_set (k : string) (v : RateLimitState) : M unit :=
  fun '(this, w) =>
    (Resolved tt, (set_limits this (<[k := v]> (limits this)), w), []).

(** [try { await fn() } catch (err) { .. }]: the completion of the thunk
    is handed to the caller instead of being propagated. *)
Definition try_await (fn : Thunk) : M (Completion T) :=
  fun '(this, w) =>
    let '(c, w') := fn w in (Resolved c, (this, w'), [EvInvoke c]).

(** ** Helpers *)

(** [function extractResetSeconds(err: unknown): number | null]. *)
Definition extractResetSeconds (err : JsValue) : M (option number) :=
  match err with
  | JObject _ (Some (HRecord headers)) =>
      match headers !! "x-rate-limit-reset"%string with
      | Some reset =>
          if Str.truthy reset then
            let resetTime := mul (Str.parseInt10 reset) (of_Z 1000) in
            let* now := now_ in
            ret (Some (Math_max (of_Z 0) (div (sub resetTime now) (of_Z 1000))))
          else ret None
      | None => ret None
      end
  | _ => ret None
  end.

(** [private getWaitMs(err: unknown, attempt: number): number]. *)
Definition getWaitMs (err : JsValue) (attempt : Z) : M number :=
  let* resetAfter := extractResetSeconds err in
  let* this := this_ in
  match resetAfter with
  | Some r =>
      if truthy r && gtb r (of_Z 0) then
        ret (add (mul r (of_Z 1000)) (of_Z 1000))   (* +1s buffer *)
      else ret (mul (baseDelay this) (Math_pow2 attempt))
  | None => ret (mul (baseDelay this) (Math_pow2 attempt))
  end.

(** ** [async call<T>(endpoint, fn)] *)

(** The pre-check of [call]: wait first when the endpoint is known to be
    exhausted.  [&&] evaluates left to right and stops at the first falsy
    operand, so the clock is read only for an exhausted entry. *)
Definition precheck (endpoint : string) : M unit :=
  let* state := limits_get endpoint in
  match state with
  | Some state =>
      if eqb (remaining state) (of_Z 0) then
        let* now := now_ in
        if gtb (resetAt state) now then
          let* now' := now_ in
          let waitMs := add (sub (resetAt state) now') (of_Z 500) in
          log_ (LogPreWait endpoint waitMs) ;;
          sleep_ waitMs
        else ret tt
      else ret tt
  | None => ret tt
  end.

(** The [for (let attempt = 0; attempt <= this.maxRetries; attempt++)]
    loop followed by [throw lastError].  [iterations] is the number of
    iterations the loop still has to run, that is
    [maxRetries + 1 - attempt] when that is positive and [0] otherwise;
    at [0] the loop condition is false and control reaches the [throw]
    after the loop. *)
Fixpoint attempts (endpoint : string) (fn : Thunk) (iterations : nat)
    (attempt : Z) (lastError : JsValue) : M T :=
  match iterations with
  | O => throw lastError
  | S iterations' =>
      let* outcome := try_await fn in
      match outcome with
      | Resolved result =>
          (* Success: clear any exhausted state *)
          let* now := now_ in
          limits_set endpoint
            {| endpoint := endpoint; remaining := of_Z 1;
               resetAt := of_Z 0; lastHit := now |} ;;
          ret result
      | Rejected err =>
          if negb (is429 err) then throw err
          else
            let* waitMs := getWaitMs err attempt in
            let* now1 := now_ in
            let* now2 := now_ in
            limits_set endpoint
              {| endpoint := endpoint; remaining := of_Z 0;
                 resetAt := add now1 waitMs; lastHit := now2 |} ;;
            let* this := this_ in
            (if attempt <? maxRetries this then
               log_ (LogRetry endpoint (attempt + 1) (maxRetries this) waitMs) ;;
               sleep_ waitMs
             else ret tt) ;;
            attempts endpoint fn iterations' (attempt + 1) err
      end
  end.

Definition call (endpoint : string) (fn : Thunk) : M T :=
  precheck endpoint ;;
  let* this := this_ in
  attempts endpoint fn (Z.to_nat (maxRetries this + 1)) 0 undefined.

(** [getState(endpoint)] and [isLimited(endpoint)]. *)
Definition getState (endpoint : string) : M (option RateLimitState) :=
  limits_get endpoint.

Definition isLimited (endpoint : string) : M bool :=
  let* state := limits_get endpoint in
  match state with
  | Some state =>
      if eqb (remaining state) (of_Z 0) then
        let* now := now_ in ret (gtb (resetAt state) now)
      else ret false
  | None => ret false
  end.

(** ** Observations on a finished call *)

Definition completion_of {A} (r : Completion A * (RateLimiter * W) * list (Event T))
  : Completion A := fst (fst r).
Definition limiter_of {A} (r : Completion A * (RateLimiter * W) * list (Event T))
  : RateLimiter := fst (snd (fst r)).
Definition world_of {A} (r : Completion A * (RateLimiter * W) * list (Event T))
  : W := snd (snd (fst r)).
Definition events_of {A} (r : Completion A * (RateLimiter * W) * list (Event T))
  : list (Event T) := snd r.

End RateLimiter.

(** The completions of the thunk's invocations in a trace, in order. *)
Definition invocations {T} (evs : list (Event T)) : list (Completion T) :=
  omap (fun ev => match ev with EvInvoke c => Some c | _ => None end) evs.

(* ===================================================================== *)
(** * src/client.ts: credentials from the environment *)
(* ===================================================================== *)

(** [interface CosmoEnv]. *)
Record CosmoEnv : Type := mkCosmoEnv {
  consumerKey : string;
  consumerSecret : string;
  accessToken : string;
  accessTokenSecret : string;
  bearerToken : string;
  schedulerUrl : option string;
  schedulerKey : option string;
}.

(** ToBoolean on a [string | undefined]. *)
Definition truthy_env (v : option string) : bool :=
  match v with Some s => Str.truthy s | None => false end.

(** The object literal [required] of [envFromProcess], as its entries in
    insertion order ([Object.entries]). [process.env] maps a variable's
    name to its value when the variable is set. *)
Definition required_entries (process_env : gmap string string)
  : list (string * option string) :=
  [ ("consumerKey", process_env !! "X_CONSUMER_KEY");
    ("consumerSecret", process_env !! "X_CONSUMER_SECRET");
    ("accessToken", process_env !! "X_ACCESS_TOKEN");
    ("accessTokenSecret", process_env !! "X_ACCESS_TOKEN_SECRET");
    ("bearerToken", process_env !! "X_BEARER_TOKEN") ]%string.

(** The value a property of [required] has once it is read as a string
    (the [as Record<string, string>] cast of the source). *)
Definition required_prop (required : list (string * option string))
    (key : string) : string :=
  match List.find (fun kv => String.eqb (fst kv) key) required with
  | Some (_, Some v) => v
  | _ => EmptyString
  end.

(** [export function envFromProcess(): CosmoEnv]; a thrown error is a
    rejected completion. *)
Definition envFromProcess (process_env : gmap string string)
  : Completion CosmoEnv :=
  let required := required_entries process_env in
  let missing :=
    List.map fst (List.filter (fun kv => negb (truthy_env (snd kv))) required) in
  if (0 <? length missing)%nat then
    Rejected (new_Error ("Missing env vars: " ++ Str.join ", " missing))
  else
    Resolved
      {| consumerKey := required_prop required "consumerKey";
         consumerSecret := required_prop required "consumerSecret";
         accessToken := required_prop required "accessToken";
         accessTokenSecret := required_prop required "accessTokenSecret";
         bearerToken := required_prop required "bearerToken";
         schedulerUrl :=
           match process_env !! "SCHEDULER_URL"%string with
           | Some v => Some v
           | None => process_env !! "SCHEDULER_API_URL"%string
           end;
         schedulerKey := process_env !! "SCHEDULER_API_KEY"%string |}.

(* ===================================================================== *)
(** * src/scheduler.ts: the scheduling service client *)
(* ===================================================================== *)

(** The [Response] of [fetch], as far as the client reads it: the status
    and what [res.text()] resolves to (or rejects with). *)
Record Response : Type := mkResponse {
  status : nat;
  text : Completion string;
}.

(** [res.ok]: the status is in the range 200-299. *)
Definition ok (res : Response) : bool :=
  (200 <=? status res)%nat && (status res <=? 299)%nat.

(** The arguments of one [fetch]. *)
Record Request : Type := mkRequest {
  url : string;
  method : string;
  headers : list (string * string);
  body : option string;
}.

Inductive PostStatus : Type := Pending | Posted | StatusFailed | Cancelled.

Definition PostStatus_to_string (s : PostStatus) : string :=
  match s with
  | Pending => "pending"
  | Posted => "posted"
  | StatusFailed => "failed"
  | Cancelled => "cancelled"
  end.

(** The fields of a [Scheduler] object. *)
Record Scheduler : Type := mkScheduler {
  baseUrl : string;
  apiKey : string;
}.

(** [s.replace(/\/$/, "")]: drop one trailing slash. *)
Fixpoint strip_trailing_slash (s : string) : string :=
  match s with
  | EmptyString => EmptyString
  | String c EmptyString => if Ascii.eqb c "/" then EmptyString else s
  | String c s' => String c (strip_trailing_slash s')
  end.

(** [constructor(config: SchedulerConfig)]. *)
Definition new_Scheduler (config_baseUrl config_apiKey : string) : Scheduler :=
  {| baseUrl := strip_trailing_slash config_baseUrl; apiKey := config_apiKey |}.

Section Scheduler.

(** The network, JSON values and their two conversions are outside the
    repository. *)
Context {W Json : Type}.
Variable fetch : Request -> W -> Completion Response * W.
Variable JSON_stringify : Json -> string.
Variable JSON_parse : string -> Completion Json.

(** An async method of the client: a step of the world that resolves or
    rejects, with the requests it sent. *)
Definition Net (A : Type) : Type := W -> Completion A * W * list Request.

(** [res.json()]. *)
Definition json (res : Response) : Completion Json :=
  match text res with
  | Resolved t => JSON_parse t
  | Rejected e => Rejected e
  end.

(** [private async request<T>(method, path, body?)]. *)
Definition request (this : Scheduler) (method path : string)
    (body : option Json) : Net Json :=
  fun w =>
    let url := (baseUrl this ++ path)%string in
    let req :=
      {| url := url; method := method;
         headers := [ ("Content-Type", "application/json");
                      ("Authorization", "Bearer " ++ apiKey this) ]%string;
         body := option_map JSON_stringify body |} in
    match fetch req w with
    | (Resolved res, w') =>
        if negb (ok res) then
          let text := match text res with
                      | Resolved t => t
                      | Rejected _ => EmptyString   (* [.catch(() => "")] *)
                      end in
          (Rejected (new_Error ("Scheduler " ++ method ++ " " ++ path ++ ": "
                                  ++ Str.of_nat (status res) ++ " " ++ text)),
           w', [req])
        else (json res, w', [req])
    | (Rejected e, w') => (Rejected e, w', [req])
    end.

(** [async health()]: a bare [fetch(url)], that is a GET without headers
    or body. *)
Definition health (this : Scheduler) : Net Json :=
  fun w =>
    let req := {| url := (baseUrl this ++ "/health")%string; method := "GET";
                  headers := []; body := None |} in
    match fetch req w with
    | (Resolved res, w') => (json res, w', [req])
    | (Rejected e, w') => (Rejected e, w', [req])
    end.

Definition schedule (this : Scheduler) (opts : Json) : Net Json :=
  request this "POST" "/schedule" (Some opts).

Definition scheduleBatch (this : Scheduler) (opts : Json) : Net Json :=
  request this "POST" "/schedule-batch" (Some opts).

Definition scheduleThread (this : Scheduler) (opts : Json) : Net Json :=
  request this "POST" "/schedule-thread" (Some opts).

Definition listPosts (this : Scheduler) (status : option PostStatus) : Net Json :=
  let path := match status with
              | Some s => ("/posts?status=" ++ PostStatus_to_string s)%string
              | None => "/posts"%string
              end in
  request this "GET" path None.

Definition cancel (this : Scheduler) (opts : Json) : Net Json :=
  request this "POST" "/cancel" (Some opts).

End Scheduler.

(** The completion of a finished method of the client. *)
Definition completion_of_net {W A} (r : Completion A * W * list Request)
  : Completion A := fst (fst r).

(* ===================================================================== *)
(** * src/operations/measure.ts: bookmark rate and rating *)
(* ===================================================================== *)

(** [TweetData["metrics"]] and the part of [TweetData] that
    [measureArticle] reads. *)
Record Metrics : Type := mkMetrics {
  likes : number;
  retweets : number;
  replies : number;
  quotes : number;
  bookmarks : number;
  impressions : number;
}.

Record TweetData : Type := mkTweetData {
  tweet_id : string;
  tweet_text : string;
  metrics : option Metrics;
}.

Inductive Rating : Type := Exceptional | Good | Okay | Failed.

(** The text of a rating, as the source spells it. *)
Definition Rating_to_string (r : Rating) : string :=
  match r with
  | Exceptional => "exceptional"
  | Good => "good"
  | Okay => "ok"
  | Failed => "failed"
  end.

(** [interface ArticleMetrics]. *)
Record ArticleMetrics : Type := mkArticleMetrics {
  am_id : string;
  am_text : string;
  am_impressions : number;
  am_bookmarks : number;
  am_likes : number;
  am_retweets : number;
  am_replies : number;
  am_quotes : number;
  bookmarkRate : number;
  rating : Rating;
}.

(** [Math.round(x)]: the integer nearest to [x], a tie going up; the sign
    of a zero result is the sign of [x]. *)
Definition Math_round (x : number) : number :=
  match x with
  | S754_finite s m e =>
      if 0 <=? e then x
      else
        let twice := if s then - (2 * Z.pos m) else 2 * Z.pos m in
        let n := (twice + 2 ^ (- e)) / 2 ^ (1 - e) in
        if n =? 0 then S754_zero s else of_Z n
  | _ => x
  end.

(** [const bookmarkRate = m.impressions > 0 ? (m.bookmarks / m.impressions) * 100 : 0]. *)
Definition rawBookmarkRate (m : Metrics) : number :=
  if gtb (impressions m) (of_Z 0)
  then mul (div (bookmarks m) (impressions m)) (of_Z 100)
  else of_Z 0.

(** The [if]/[else if] chain of [measureArticle]. *)
Definition rate_rating (bookmarkRate : number) : Rating :=
  if geb bookmarkRate (of_Z 8) then Exceptional
  else if geb bookmarkRate (of_Z 5) then Good
  else if geb bookmarkRate (of_Z 2) then Okay
  else Failed.

(** [measureArticle] after [await getTweet(client, rl, tweetId)]: [tweet]
    is what the lookup resolved to ([None] for [null]). *)
Definition measureArticle (tweet : option TweetData) : option ArticleMetrics :=
  match tweet with
  | Some tweet =>
      match metrics tweet with
      | Some m =>
          let bookmarkRate := rawBookmarkRate m in
          let rating := rate_rating bookmarkRate in
          Some {| am_id := tweet_id tweet;
                  am_text := Str.substring0 120 (tweet_text tweet);
                  am_impressions := impressions m;
                  am_bookmarks := bookmarks m;
                  am_likes := likes m;
                  am_retweets := retweets m;
                  am_replies := replies m;
                  am_quotes := quotes m;
                  bookmarkRate :=
                    div (Math_round (mul bookmarkRate (of_Z 100))) (of_Z 100);
                  rating := rating |}
      | None => None
      end
  | None => None
  end.

(* ===================================================================== *)
(** * The SDK client, as the operations use it *)
(* ===================================================================== *)

(** [Math.min(a, b)]: NaN if either argument is NaN; [-0] is smaller than
    [+0]. *)
Definition Math_min (a b : number) : number :=
  if is_nan a || is_nan b then NaN
  else if ltb a b then a
  else if ltb b a then b
  else match a, b with
       | S754_zero false, S754_zero true => b
       | _, _ => a
       end.

(** [public_metrics] of a post, every count optional. *)
Record PublicMetrics : Type := mkPublicMetrics {
  likeCount : option number;
  retweetCount : option number;
  replyCount : option number;
  quoteCount : option number;
  bookmarkCount : option number;
  impressionCount : option number;
}.

(** A post in a response of the SDK. *)
Record SdkPost : Type := mkSdkPost {
  post_id : option string;
  post_text : option string;
  post_authorId : option string;
  post_createdAt : option string;
  post_publicMetrics : option PublicMetrics;
}.

(** A user among the [includes] of a response. *)
Record SdkUser : Type := mkSdkUser {
  user_id : string;
  user_username : option string;
}.

(** The field selections passed along with a lookup. *)
Record FieldSelection : Type := mkFieldSelection {
  tweetFields : list string;
  expansions : list string;
  userFields : list string;
}.

(** The response to a lookup of one post: [res.data] and
    [res.includes?.users]. *)
Record PostResponse : Type := mkPostResponse {
  post_data : option SdkPost;
  post_users : option (list SdkUser);
}.

(** The response to a request for several posts: [res.data],
    [res.includes?.users] and [res.meta?.nextToken]. *)
Record PostsResponse : Type := mkPostsResponse {
  posts_data : option (list SdkPost);
  posts_users : option (list SdkUser);
  posts_nextToken : option string;
}.

Inductive SortOrder : Type := Recency | Relevancy.

(** The options object [searchRecent] passes to the SDK. *)
Record SearchParams : Type := mkSearchParams {
  sp_maxResults : number;
  sp_fields : FieldSelection;
  sp_paginationToken : option string;
  sp_startTime : option string;
  sp_endTime : option string;
  sp_sortOrder : option SortOrder;
}.

(** The body [createPost] passes to [client.posts.create]: [reply] holds
    [reply.inReplyToTweetId] and [media] holds [media.mediaIds]. *)
Record CreateBody : Type := mkCreateBody {
  cb_text : string;
  cb_reply : option string;
  cb_quoteTweetId : option string;
  cb_media : option (list string);
}.

(** [res.data] of a created post, and the response. *)
Record CreatedPost : Type := mkCreatedPost {
  created_id : option string;
  created_text : option string;
}.

Record CreateResponse : Type := mkCreateResponse {
  create_data : option CreatedPost;
}.

(** The response to a deletion: [res.data?.deleted]. *)
Record DeleteResponse : Type := mkDeleteResponse {
  delete_deleted : option bool;
}.

(** [public_metrics] of a user, and a user in a response. *)
Record UserPublicMetrics : Type := mkUserPublicMetrics {
  followersCount : option number;
  followingCount : option number;
  tweetCount : option number;
  listedCount : option number;
  userLikeCount : option number;
}.

Record SdkProfile : Type := mkSdkProfile {
  profile_id : string;
  profile_name : option string;
  profile_username : option string;
  profile_description : option string;
  profile_createdAt : option string;
  profile_imageUrl : option string;
  profile_publicMetrics : option UserPublicMetrics;
}.

Record UserResponse : Type := mkUserResponse {
  user_data : option SdkProfile;
}.

(** The requests of the SDK the operations below send, and the responses
    they get. *)
Inductive SdkRequest : Type :=
  | PostsCreate (body : CreateBody)
  | PostsDelete (tweetId : string)
  | PostsGetById (tweetId : string) (opts : FieldSelection)
  | PostsSearchRecent (query : string) (opts : SearchParams)
  | UsersGetMe (opts : FieldSelection)
  | UsersGetPosts (userId : string) (maxResults : number)
      (opts : FieldSelection).

Inductive SdkResponse : Type :=
  | Created (res : CreateResponse)
  | Deleted (res : DeleteResponse)
  | OnePost (res : PostResponse)
  | SomePosts (res : PostsResponse)
  | OneUser (res : UserResponse).

(** The methods of the SDK's [Client] the operations call; each is a step
    of the world that resolves with a response or rejects. *)
Record Client (W : Type) : Type := mkClient {
  posts_create : CreateBody -> W -> Completion CreateResponse * W;
  posts_delete : string -> W -> Completion DeleteResponse * W;
  posts_getById : string -> FieldSelection -> W -> Completion PostResponse * W;
  posts_searchRecent : string -> SearchParams -> W -> Completion PostsResponse * W;
  users_getMe : FieldSelection -> W -> Completion UserResponse * W;
  users_getPosts :
    string -> number -> FieldSelection -> W -> Completion PostsResponse * W;
}.
Arguments posts_create {W} c.
Arguments posts_delete {W} c.
Arguments posts_getById {W} c.
Arguments posts_searchRecent {W} c.
Arguments users_getMe {W} c.
Arguments users_getPosts {W} c.

(** What an operation does that the outside can observe: the requests it
    had the limiter send, with their outcome, the sleeps and log lines of the
    limiter, and the delays of the operation itself. *)
Inductive ApiEvent : Type :=
  | ApiInvoke (endpoint : string) (request : SdkRequest)
      (c : Completion SdkResponse)
  | ApiSleep (ms : number)
  | ApiLog (l : LogLine)
  | ApiDelay (ms : number).

Definition Completion_map {A B} (f : A -> B) (c : Completion A) : Completion B :=
  match c with
  | Resolved a => Resolved (f a)
  | Rejected e => Rejected e
  end.

(** An event of the limiter, seen from the operation that called it for
    [request] on the label [endpoint]. *)
Definition api_event {T} (endpoint : string) (request : SdkRequest)
    (inj : T -> SdkResponse) (ev : Event T) : ApiEvent :=
  match ev with
  | EvInvoke c => ApiInvoke endpoint request (Completion_map inj c)
  | EvSleep ms => ApiSleep ms
  | EvLog l => ApiLog l
  end.

(** The default [...]-spread field lists of [search.ts]. *)
Definition TWEET_FIELDS : list string :=
  ["created_at"; "public_metrics"; "author_id"]%string.
Definition USER_FIELDS : list string := ["username"; "public_metrics"]%string.

(** [metrics: d.publicMetrics ? { likes: d.publicMetrics.likeCount ?? 0, ... }
    : undefined]. *)
Definition to_metrics (pm : PublicMetrics) : Metrics :=
  {| likes := default (of_Z 0) (likeCount pm);
     retweets := default (of_Z 0) (retweetCount pm);
     replies := default (of_Z 0) (replyCount pm);
     quotes := default (of_Z 0) (quoteCount pm);
     bookmarks := default (of_Z 0) (bookmarkCount pm);
     impressions := default (of_Z 0) (impressionCount pm) |}.

(** [users.find((u) => u.id === authorId)]: the first user with that id;
    no user equals an absent id. *)
Definition find_author (users : list SdkUser) (authorId : option string)
  : option SdkUser :=
  match authorId with
  | Some a => List.find (fun u => String.eqb (user_id u) a) users
  | None => None
  end.

(** The fields of [TweetData] and of [SearchResult] that the record
    [TweetData] above leaves out. *)
Record TweetOrigin : Type := mkTweetOrigin {
  authorId : option string;
  authorUsername : option string;
  createdAt : option string;
}.

(** The object the lookups and the search build from a post ([str(d.id)],
    [d.text ?? ""], ...), as a [TweetData] with the remaining fields. *)
Definition to_tweet (users : list SdkUser) (d : SdkPost)
  : TweetData * TweetOrigin :=
  ({| tweet_id := default EmptyString (post_id d);
      tweet_text := default EmptyString (post_text d);
      metrics := option_map to_metrics (post_publicMetrics d) |},
   {| authorId := post_authorId d;
      authorUsername :=
        match find_author users (post_authorId d) with
        | Some author => user_username author
        | None => None
        end;
      createdAt := post_createdAt d |}).

(** The same without the author, as [getUserTimeline] builds it. *)
Definition to_own_tweet (d : SdkPost) : TweetData * TweetOrigin :=
  ({| tweet_id := default EmptyString (post_id d);
      tweet_text := default EmptyString (post_text d);
      metrics := option_map to_metrics (post_publicMetrics d) |},
   {| authorId := None; authorUsername := None;
      createdAt := post_createdAt d |}).

(** [ToIntegerOrInfinity(x)]: NaN and the zeros give 0, a finite number
    is truncated towards zero. *)
Inductive IntegerOrInfinity : Type :=
  | Integer (z : Z)
  | PlusInfinity
  | MinusInfinity.

Definition ToIntegerOrInfinity (x : number) : IntegerOrInfinity :=
  match x with
  | S754_nan => Integer 0
  | S754_zero _ => Integer 0
  | S754_infinity false => PlusInfinity
  | S754_infinity true => MinusInfinity
  | S754_finite s m e =>
      let v := if 0 <=? e then Z.pos m * 2 ^ e else Z.pos m / 2 ^ (- e) in
      Integer (if s then - v else v)
  end.

(** [array.slice(0, end)]: the elements before the index [end], counted
    from the end of the array when [end] is negative. *)
Definition slice0 {A} (end_ : number) (l : list A) : list A :=
  let len := Z.of_nat (length l) in
  let final :=
    match ToIntegerOrInfinity end_ with
    | MinusInfinity => 0
    | Integer relativeEnd =>
        if relativeEnd <? 0 then Z.max (len + relativeEnd) 0
        else Z.min relativeEnd len
    | PlusInfinity => len
    end in
  firstn (Z.to_nat (Z.max final 0)) l.

(** [array.indexOf(x)] on strings: the first index, or -1. *)
Fixpoint indexOf (x : string) (l : list string) : Z :=
  match l with
  | [] => -1
  | y :: l' =>
      if String.eqb y x then 0
      else let i := indexOf x l' in if i <? 0 then -1 else i + 1
  end.

(* ===================================================================== *)
(** * src/operations: post.ts, search.ts, lookup.ts, measure.ts *)
(* ===================================================================== *)

(** [interface PostOpts] and [interface PostResult]. *)
Record PostOpts : Type := mkPostOpts {
  po_text : string;
  po_replyTo : option string;
  po_quoteTweetId : option string;
  po_mediaIds : option (list string);
}.

Record PostResult : Type := mkPostResult {
  pr_id : string;
  pr_text : option string;
}.

(** [interface SearchOpts] and [interface SearchResponse]; [maxPages] is
    an integer. *)
Record SearchOpts : Type := mkSearchOpts {
  so_query : string;
  so_maxResults : option number;
  so_maxPages : option Z;
  so_startTime : option string;
  so_endTime : option string;
  so_sortOrder : option SortOrder;
}.

Record SearchResponse : Type := mkSearchResponse {
  search_results : list (TweetData * TweetOrigin);
  search_nextToken : option string;
  search_totalPages : Z;
}.

(** [interface UserData]. *)
Record UserMetrics : Type := mkUserMetrics {
  um_followers : number;
  um_following : number;
  um_tweets : number;
  um_listed : number;
  um_likes : number;
}.

Record UserData : Type := mkUserData {
  ud_id : string;
  ud_name : string;
  ud_username : string;
  ud_description : option string;
  ud_createdAt : option string;
  ud_profileImageUrl : option string;
  ud_metrics : option UserMetrics;
}.

(** [interface PulseCheckResult]. *)
Record PulseCheckResult : Type := mkPulseCheckResult {
  pulse_user : UserData;
  pulse_recentPosts : list (TweetData * TweetOrigin);
  pulse_totalImpressions : number;
  pulse_totalBookmarks : number;
  pulse_totalLikes : number;
  pulse_avgBookmarkRate : number;
}.

(** The body [createPost] builds from its options: a reply, a quote and
    media are set only for a truthy option (a non-empty string, a
    non-empty array). *)
Definition createPost_body (opts : PostOpts) : CreateBody :=
  {| cb_text := po_text opts;
     cb_reply := if truthy_env (po_replyTo opts) then po_replyTo opts else None;
     cb_quoteTweetId :=
       if truthy_env (po_quoteTweetId opts) then po_quoteTweetId opts else None;
     cb_media :=
       match po_mediaIds opts with
       | Some ids => if (0 <? length ids)%nat then Some ids else None
       | None => None
       end |}.

(** [{ id: res.data?.id ?? "", text: res.data?.text }]. *)
Definition createPost_result (res : CreateResponse) : PostResult :=
  {| pr_id := match create_data res with
              | Some d => default EmptyString (created_id d)
              | None => EmptyString
              end;
     pr_text := match create_data res with
                | Some d => created_text d
                | None => None
                end |}.

(** The options object of one page of [searchRecent]. *)
Definition search_params (opts : SearchOpts) (perPage : number)
    (nextToken : option string) : SearchParams :=
  {| sp_maxResults := perPage;
     sp_fields := {| tweetFields := TWEET_FIELDS;
                     expansions := ["author_id"%string];
                     userFields := USER_FIELDS |};
     sp_paginationToken := if truthy_env nextToken then nextToken else None;
     sp_startTime :=
       if truthy_env (so_startTime opts) then so_startTime opts else None;
     sp_endTime := if truthy_env (so_endTime opts) then so_endTime opts else None;
     sp_sortOrder := so_sortOrder opts |}.

(** The user object [getMe] builds from a profile. *)
Definition to_user (d : SdkProfile) : UserData :=
  {| ud_id := profile_id d;
     ud_name := default EmptyString (profile_name d);
     ud_username := default EmptyString (profile_username d);
     ud_description := profile_description d;
     ud_createdAt := profile_createdAt d;
     ud_profileImageUrl := profile_imageUrl d;
     ud_metrics :=
       option_map
         (fun pm => {| um_followers := default (of_Z 0) (followersCount pm);
                       um_following := default (of_Z 0) (followingCount pm);
                       um_tweets := default (of_Z 0) (tweetCount pm);
                       um_listed := default (of_Z 0) (listedCount pm);
                       um_likes := default (of_Z 0) (userLikeCount pm) |})
         (profile_publicMetrics d) |}.

(** The three totals of [pulseCheck]: posts without metrics add nothing. *)
Definition pulse_totals (recentPosts : list (TweetData * TweetOrigin))
  : number * number * number :=
  fold_left
    (fun '(totalImpressions, totalBookmarks, totalLikes) post =>
       match metrics (fst post) with
       | Some m => (add totalImpressions (impressions m),
                    add totalBookmarks (bookmarks m),
                    add totalLikes (likes m))
       | None => (totalImpressions, totalBookmarks, totalLikes)
       end)
    recentPosts (of_Z 0, of_Z 0, of_Z 0).

Section Operations.

Context {W : Type}.
Variable Date_now : W -> number * W.
Variable sleep : number -> W -> W.
Variable client : Client W.

(** ** The monad of an operation *)

Definition Op (A : Type) : Type :=
  RateLimiter * W -> Completion A * (RateLimiter * W) * list ApiEvent.

Definition op_ret {A} (a : A) : Op A := fun σ => (Resolved a, σ, []).

Definition op_bind {A B} (m : Op A) (k : A -> Op B) : Op B :=
  fun σ =>
    match m σ with
    | (Resolved a, σ1, evs1) =>
        let '(c, σ2, evs2) := k a σ1 in (c, σ2, evs1 ++ evs2)
    | (Rejected e, σ1, evs1) => (Rejected e, σ1, evs1)
    end.

Notation "'let*' x ':=' m 'in' k" := (op_bind m (fun x => k))
  (at level 10, x pattern, m at level 100, k at level 200).
Notation "m1 ';;' m2" := (op_bind m1 (fun _ => m2))
  (at level 100, m2 at level 200, right associativity).

(** [await new Promise((r) => setTimeout(r, ms))]. *)
Definition op_delay (ms : number) : Op unit :=
  fun '(rl, w) => (Resolved tt, (rl, sleep ms w), [ApiDelay ms]).

(** [await rl.call(endpoint, () => client.method(request))]: the thunk
    sends the same request at every attempt. *)
Definition rl_call {T} (endpoint : string) (request : SdkRequest)
    (inj : T -> SdkResponse) (send : W -> Completion T * W) : Op T :=
  fun σ =>
    let '(c, σ', evs) := call Date_now sleep endpoint send σ in
    (c, σ', List.map (api_event endpoint request inj) evs).

(** ** post.ts *)

(** [export async function createPost(client, rl, opts)]. *)
Definition createPost (opts : PostOpts) : Op PostResult :=
  let body := createPost_body opts in
  let* res := rl_call "post.create" (PostsCreate body) Created
                (posts_create client body) in
  op_ret (createPost_result res).

(** [export async function reply(client, rl, tweetId, text)]. *)
Definition reply (tweetId text : string) : Op PostResult :=
  createPost {| po_text := text; po_replyTo := Some tweetId;
                po_quoteTweetId := None; po_mediaIds := None |}.

(** [export async function deletePost(client, rl, tweetId)]. *)
Definition deletePost (tweetId : string) : Op bool :=
  let* res := rl_call "post.delete" (PostsDelete tweetId) Deleted
                (posts_delete client tweetId) in
  op_ret (default false (delete_deleted res)).

(** The [for (const text of texts)] loop of [postThread]: [rest] are the
    texts still to post. *)
Fixpoint postThread_loop (texts : list string) (delayMs : number)
    (rest : list string) (previousId : option string)
    (results : list PostResult) : Op (list PostResult) :=
  match rest with
  | [] => op_ret results
  | text :: rest' =>
      let* result := createPost {| po_text := text; po_replyTo := previousId;
                                   po_quoteTweetId := None;
                                   po_mediaIds := None |} in
      let results := results ++ [result] in
      let previousId := Some (pr_id result) in
      (* Delay between thread posts *)
      (if gtb delayMs (of_Z 0)
          && (indexOf text texts <? Z.of_nat (length texts) - 1)
       then op_delay delayMs else op_ret tt) ;;
      postThread_loop texts delayMs rest' previousId results
  end.

(** [export async function postThread(client, rl, texts, delayMs = 1000)]. *)
Definition postThread (texts : list string) (delayMs : option number)
  : Op (list PostResult) :=
  postThread_loop texts (default (of_Z 1000) delayMs) texts None [].

(** ** search.ts *)

(** The [for (let page = 0; page < maxPages; page++)] loop of
    [searchRecent], with [pages] iterations left. *)
Fixpoint searchRecent_loop (opts : SearchOpts) (perPage : number)
    (pages : nat) (nextToken : option string)
    (results : list (TweetData * TweetOrigin)) (pageCount : Z)
  : Op SearchResponse :=
  match pages with
  | O => op_ret {| search_results := results; search_nextToken := nextToken;
                   search_totalPages := pageCount |}
  | S pages' =>
      let searchOpts := search_params opts perPage nextToken in
      let* res := rl_call "search" (PostsSearchRecent (so_query opts) searchOpts)
                    SomePosts
                    (posts_searchRecent client (so_query opts) searchOpts) in
      let pageCount := pageCount + 1 in
      let users := default [] (posts_users res) in
      let results :=
        results ++ List.map (to_tweet users) (default [] (posts_data res)) in
      let nextToken := posts_nextToken res in
      if negb (truthy_env nextToken) then
        op_ret {| search_results := results; search_nextToken := nextToken;
                  search_totalPages := pageCount |}
      else searchRecent_loop opts perPage pages' nextToken results pageCount
  end.

(** [export async function searchRecent(client, rl, opts)]. *)
Definition searchRecent (opts : SearchOpts) : Op SearchResponse :=
  let maxPages := default 1 (so_maxPages opts) in
  let perPage := Math_min (default (of_Z 10) (so_maxResults opts)) (of_Z 100) in
  searchRecent_loop opts perPage (Z.to_nat maxPages) None [] 0.

(** ** lookup.ts *)

(** [export async function getTweet(client, rl, tweetId)]. *)
Definition getTweet (tweetId : string) : Op (option (TweetData * TweetOrigin)) :=
  let opts := {| tweetFields := ["created_at"; "public_metrics"; "author_id";
                                 "note_tweet"]%string;
                 expansions := ["author_id"%string];
                 userFields := ["username"; "public_metrics"]%string |} in
  let* res := rl_call "tweet.get" (PostsGetById tweetId opts) OnePost
                (posts_getById client tweetId opts) in
  match post_data res with
  | None => op_ret None
  | Some d => op_ret (Some (to_tweet (default [] (post_users res)) d))
  end.

(** [export async function getMe(client, rl)]. *)
Definition getMe : Op (option UserData) :=
  let opts := {| tweetFields := []; expansions := [];
                 userFields := ["public_metrics"; "description"; "created_at";
                                "profile_image_url"]%string |} in
  let* res := rl_call "user.me" (UsersGetMe opts) OneUser
                (users_getMe client opts) in
  match user_data res with
  | None => op_ret None
  | Some d => op_ret (Some (to_user d))
  end.

(** [export async function getUserTimeline(client, rl, userId,
    maxResults = 10)]. *)
Definition getUserTimeline (userId : string) (maxResults : option number)
  : Op (list (TweetData * TweetOrigin)) :=
  let maxResults := default (of_Z 10) maxResults in
  let opts := {| tweetFields := ["created_at"; "public_metrics"]%string;
                 expansions := []; userFields := [] |} in
  let requested := Math_max (of_Z 5) (Math_min maxResults (of_Z 100)) in
  let* res := rl_call "user.timeline" (UsersGetPosts userId requested opts)
                SomePosts (users_getPosts client userId requested opts) in
  (* Trim to requested count (API minimum is 5) *)
  let data := slice0 maxResults (default [] (posts_data res)) in
  op_ret (List.map to_own_tweet data).

(** ** measure.ts *)

(** [export async function measureArticle(client, rl, tweetId)]: the
    lookup, then the computation [measureArticle] above. *)
Definition measureArticle_of (tweetId : string) : Op (option ArticleMetrics) :=
  let* tweet := getTweet tweetId in
  op_ret (measureArticle (option_map fst tweet)).

(** The [for (const id of tweetIds)] loop of [measureArticles]. *)
Fixpoint measureArticles_loop (tweetIds : list string)
    (results : list ArticleMetrics) : Op (list ArticleMetrics) :=
  match tweetIds with
  | [] => op_ret results
  | id :: tweetIds' =>
      let* m := measureArticle_of id in
      measureArticles_loop tweetIds'
        match m with
        | Some m => results ++ [m]
        | None => results
        end
  end.

(** [export async function measureArticles(client, rl, tweetIds)]. *)
Definition measureArticles (tweetIds : list string) : Op (list ArticleMetrics) :=
  measureArticles_loop tweetIds [].

(** [export async function pulseCheck(client, rl, postCount = 10)]. *)
Definition pulseCheck (postCount : option number)
  : Op (option PulseCheckResult) :=
  let* user := getMe in
  match user with
  | None => op_ret None
  | Some user =>
      let* recentPosts := getUserTimeline (ud_id user)
                            (Some (default (of_Z 10) postCount)) in
      let '(totalImpressions, totalBookmarks, totalLikes) :=
        pulse_totals recentPosts in
      let avgBookmarkRate :=
        if gtb totalImpressions (of_Z 0)
        then mul (div totalBookmarks totalImpressions) (of_Z 100)
        else of_Z 0 in
      op_ret (Some {| pulse_user := user;
                      pulse_recentPosts := recentPosts;
                      pulse_totalImpressions := totalImpressions;
                      pulse_totalBookmarks := totalBookmarks;
                      pulse_totalLikes := totalLikes;
                      pulse_avgBookmarkRate :=
                        div (Math_round (mul avgBookmarkRate (of_Z 100)))
                            (of_Z 100) |})
  end.

(** ** Observations on a finished operation *)

Definition op_completion {A}
    (r : Completion A * (RateLimiter * W) * list ApiEvent) : Completion A :=
  fst (fst r).
Definition op_limiter {A}
    (r : Completion A * (RateLimiter * W) * list ApiEvent) : RateLimiter :=
  fst (snd (fst r)).
Definition op_world {A}
    (r : Completion A * (RateLimiter * W) * list ApiEvent) : W :=
  snd (snd (fst r)).
Definition op_events {A}
    (r : Completion A * (RateLimiter * W) * list ApiEvent) : list ApiEvent :=
  snd r.

End Operations.

(* ===================================================================== *)
(** * src/scheduler.ts: [Scheduler.fromEnv] *)
(* ===================================================================== *)

(** [static fromEnv(): Scheduler]; [??] falls through for an unset
    variable only. *)
Definition Scheduler_fromEnv (process_env : gmap string string)
  : Completion Scheduler :=
  let baseUrl :=
    match process_env !! "SCHEDULER_URL"%string with
    | Some v => v
    | None =>
        match process_env !! "SCHEDULER_API_URL"%string with
        | Some v => v
        | None => "https://api-production-bb3f.up.railway.app"%string
        end
    end in
  let apiKey := process_env !! "SCHEDULER_API_KEY"%string in
  match apiKey with
  | Some key =>
      if negb (Str.truthy key) then
        Rejected (new_Error "SCHEDULER_API_KEY not set")
      else Resolved (new_Scheduler baseUrl key)
  | None => Rejected (new_Error "SCHEDULER_API_KEY not set")
  end.

(* ===================================================================== *)
(** * Vocabulary of the properties *)
(* ===================================================================== *)

(** [needle] occurs in [s]: some text, the needle, some text. *)
Definition contains (needle s : string) : Prop :=
  exists pre post : string, s = (pre ++ needle ++ post)%string.

(** The [x-rate-limit-reset] entry of the headers an error carries. *)
Definition reset_header (err : JsValue) : option string :=
  match err with
  | JObject _ (Some (HRecord fields)) => fields !! "x-rate-limit-reset"%string
  | _ => None
  end.

(** The entry a success writes at time [now], and the entry a rate-limit
    failure writes. *)
Definition healthy_state (endpoint : string) (now : number) : RateLimitState :=
  {| endpoint := endpoint; remaining := of_Z 1; resetAt := of_Z 0;
     lastHit := now |}.

Definition exhausted_state (endpoint : string) (now1 waitMs now2 : number)
  : RateLimitState :=
  {| endpoint := endpoint; remaining := of_Z 0; resetAt := add now1 waitMs;
     lastHit := now2 |}.

(** The number of lines a call logged. *)
Definition logged {T} (evs : list (Event T)) : nat :=
  length (List.filter (fun ev => match ev with EvLog _ => true | _ => false end) evs).

(** A thunk that fails with a rate-limit error whenever it is invoked. *)
Definition always_rate_limited {W T} (fn : W -> Completion T * W) : Prop :=
  forall w, exists e w', fn w = (Rejected e, w') /\ is429 e = true.

Section StoreVocabulary.

Context {W : Type}.
Variable Date_now : W -> number * W.
Variable sleep : number -> W -> W.

(** [s] is an entry written at a rate-limit failure: its [resetAt] is the
    clock read at the failure plus the wait [getWaitMs] computed for the
    failure's error and attempt index, in a limiter with this retry budget
    and base delay. *)
Definition rate_limit_write (retries : Z) (delay : number)
    (s : RateLimitState) : Prop :=
  exists (T : Type) (err : JsValue) (attempt : Z) (this0 : RateLimiter)
         (w w' : W) (waitMs : number),
    is429 err = true
    /\ 0 <= attempt <= retries
    /\ maxRetries this0 = retries
    /\ baseDelay this0 = delay
    /\ getWaitMs (T:=T) Date_now err attempt (this0, w)
       = (Resolved waitMs, (this0, w'), [])
    /\ resetAt s = add (fst (Date_now w')) waitMs
    /\ lastHit s = fst (Date_now (snd (Date_now w'))).

(** The invariant of one stored entry, and of the store. *)
Definition entry_ok (retries : Z) (delay : number) (k : string)
    (s : RateLimitState) : Prop :=
  endpoint s = k
  /\ (remaining s = of_Z 0 \/ remaining s = of_Z 1)
  /\ (remaining s = of_Z 1 -> resetAt s = of_Z 0)
  /\ (remaining s = of_Z 0 -> rate_limit_write retries delay s).

Definition store_ok (this : RateLimiter) : Prop :=
  forall k s, limits this !! k = Some s ->
              entry_ok (maxRetries this) (baseDelay this) k s.

(** The limiters a program can hold: a new one, and one after a call. *)
Inductive reachable (opts : RateLimiterOpts) : RateLimiter -> Prop :=
  | reachable_new : reachable opts (new_RateLimiter opts)
  | reachable_call (T : Type) (this : RateLimiter) (w : W)
      (endpoint : string) (fn : Thunk (T:=T)) :
      reachable opts this ->
      reachable opts (limiter_of (call Date_now sleep endpoint fn (this, w))).

End StoreVocabulary.

Section SchedulerVocabulary.

Context {Json : Type}.
Variable JSON_stringify : Json -> string.

(** The request [request] sends. *)
Definition request_sent (this : Scheduler) (method path : string)
    (body : option Json) : Request :=
  {| url := (baseUrl this ++ path)%string; method := method;
     headers := [ ("Content-Type", "application/json");
                  ("Authorization", "Bearer " ++ apiKey this) ]%string;
     body := option_map JSON_stringify body |}.

End SchedulerVocabulary.

(** The text of a response body, empty when it cannot be read. *)
Definition body_text (res : Response) : string :=
  match text res with Resolved t => t | Rejected _ => EmptyString end.

(** The five required credentials: the field of [CosmoEnv] and the
    environment variable it is read from. *)
Definition credentials : list (string * string) :=
  [ ("consumerKey", "X_CONSUMER_KEY");
    ("consumerSecret", "X_CONSUMER_SECRET");
    ("accessToken", "X_ACCESS_TOKEN");
    ("accessTokenSecret", "X_ACCESS_TOKEN_SECRET");
    ("bearerToken", "X_BEARER_TOKEN") ]%string.

(** A variable is missing when it is unset or set to the empty string. *)
Definition is_missing (process_env : gmap string string) (var : string) : bool :=
  match process_env !! var with
  | None => true
  | Some v => String.eqb v EmptyString
  end.

(** The fields whose variable is missing, in the order of [credentials]. *)
Definition missing_fields (process_env : gmap string string) : list string :=
  List.map fst (List.filter (fun fv => is_missing process_env (snd fv)) credentials).

(* ===================================================================== *)
(** * Example inputs *)
(* ===================================================================== *)

Module Example.

(** A world for running calls: the clock in milliseconds and the number of
    times the thunk has run.  A reading of the clock takes a millisecond, a
    timer returns after its delay, and a remote call takes three
    milliseconds. *)
Definition World : Type := (Z * nat)%type.

(** The integer part of a delay. *)
Definition whole_ms (ms : number) : Z :=
  match ms with
  | S754_finite s m e =>
      let v := if 0 <=? e then Z.pos m * 2 ^ e else Z.pos m / 2 ^ (- e) in
      if s then - v else v
  | _ => 0
  end.

Definition clock (w : World) : number * World :=
  (of_Z (fst w), (fst w + 1, snd w)).

Definition timer (ms : number) (w : World) : World :=
  (fst w + whole_ms ms, snd w).

Definition epoch : World := (1700000000000, 0%nat).

Definition remote (w : World) : World := (fst w + 3, S (snd w)).

(** The limiter of the unit tests: two retries, a base delay of 100 ms. *)
Definition test_limiter : RateLimiter :=
  new_RateLimiter {| opt_maxRetries := Some 2; opt_baseDelay := Some (of_Z 100) |}.

Definition too_many_requests : JsValue := new_Error "HTTP 429: Too Many Requests".
Definition forbidden : JsValue := new_Error "HTTP 403: Forbidden".

(** A thunk that is rate-limited every time, one that is refused, and one
    that succeeds on its third run. *)
Definition always_429 : World -> Completion string * World :=
  fun w => (Rejected too_many_requests, remote w).

Definition always_403 : World -> Completion string * World :=
  fun w => (Rejected forbidden, remote w).

Definition third_time_lucky : World -> Completion string * World :=
  fun w => if (snd w <? 2)%nat then (Rejected too_many_requests, remote w)
           else (Resolved "finally"%string, remote w).

(** An error that carries a reset header which is no number. *)
Definition error_with_reset (reset : string) : JsValue :=
  JObject (ErrorInstance "HTTP 429: Too Many Requests")
          (Some (HRecord {[ "x-rate-limit-reset"%string := reset ]})).

(** The double quote, for writing JSON text. *)
Definition dq : string := String (ascii_of_nat 34) EmptyString.

(** A network on which the scheduling service is down: every request is
    answered with status 503 and a JSON body.  JSON values are represented
    by their text. *)
Definition down_body : string :=
  ("{" ++ dq ++ "status" ++ dq ++ ":" ++ dq ++ "down" ++ dq ++ "}")%string.

Definition fetch_down (req : Request) (w : unit) : Completion Response * unit :=
  (Resolved {| status := 503; text := Resolved down_body |}, w).

Definition example_scheduler : Scheduler :=
  new_Scheduler "https://example.com/" "test-key".

(** An environment in which only the bearer token is not set. *)
Definition env_without_bearer : gmap string string :=
  <["X_CONSUMER_KEY" := "ck"]>
    (<["X_CONSUMER_SECRET" := "cs"]>
       (<["X_ACCESS_TOKEN" := "at"]>
          (<["X_ACCESS_TOKEN_SECRET" := "ats"]> ∅)))%string.

(** The tweet of the unit tests: 21 bookmarks for 228 impressions. *)
Definition test_metrics : Metrics :=
  {| likes := of_Z 40; retweets := of_Z 3; replies := of_Z 2;
     quotes := of_Z 1; bookmarks := of_Z 21; impressions := of_Z 228 |}.

Definition test_tweet : TweetData :=
  {| tweet_id := "2020621967070503358"; tweet_text := "An article";
     metrics := Some test_metrics |}.

End Example.

Import Example.

(* ===================================================================== *)
(** * Vocabulary of the further properties *)
(* ===================================================================== *)

(** The delays a call slept, in order. *)
Definition sleeps {T} (evs : list (Event T)) : list number :=
  omap (fun ev => match ev with EvSleep ms => Some ms | _ => None end) evs.

(** A completion that is a rejection with a rate-limit error. *)
Definition rate_limit_rejection {T} (c : Completion T) : Prop :=
  exists e, c = Rejected e /\ is429 e = true.

(** A thunk that fails, whenever it is invoked, with a rate-limit error
    that carries no reset header. *)
Definition always_rate_limited_without_hint {W T}
    (fn : W -> Completion T * W) : Prop :=
  forall w, exists e w',
    fn w = (Rejected e, w') /\ is429 e = true /\ reset_header e = None.

(** The exponential schedule: [baseDelay * 2^k] for [k] from 0 to [n - 1]. *)
Definition backoff_schedule (baseDelay : number) (n : nat) : list number :=
  List.map (fun k => mul baseDelay (Math_pow2 (Z.of_nat k))) (seq 0 n).

(** The values the invocations of a call resolved with. *)
Definition resolutions {T} (evs : list (Event T)) : list T :=
  omap (fun ev => match ev with EvInvoke (Resolved v) => Some v | _ => None end)
       evs.

(** The requests an operation sent through the limiter (every attempt
    counts), the requests that were answered, with the response, and the
    delays of the operation itself. *)
Definition sent (evs : list ApiEvent) : list SdkRequest :=
  omap (fun ev => match ev with ApiInvoke _ q _ => Some q | _ => None end) evs.

Definition answered (evs : list ApiEvent) : list (SdkRequest * SdkResponse) :=
  omap (fun ev => match ev with
                  | ApiInvoke _ q (Resolved res) => Some (q, res)
                  | _ => None
                  end) evs.

Definition delays (evs : list ApiEvent) : list number :=
  omap (fun ev => match ev with ApiDelay ms => Some ms | _ => None end) evs.

(** The id [createPost] returns for a response. *)
Definition returned_id (res : CreateResponse) : string :=
  pr_id (createPost_result res).

(** The request that posts [text] in a thread whose previous post came
    back with [previousId]: a reply to it, unless there is none or its id
    is empty. *)
Definition thread_post (text : string) (previousId : option string)
  : SdkRequest :=
  PostsCreate
    {| cb_text := text;
       cb_reply := match previousId with
                   | Some id => if Str.truthy id then Some id else None
                   | None => None
                   end;
       cb_quoteTweetId := None;
       cb_media := None |}.

(** The exchange of a thread: the posts of [texts], in order, each built
    from the response to the one before. *)
Fixpoint thread_exchange (texts : list string) (previousId : option string)
    (responses : list CreateResponse) : list (SdkRequest * SdkResponse) :=
  match texts, responses with
  | text :: texts', res :: responses' =>
      (thread_post text previousId, Created res)
      :: thread_exchange texts' (Some (returned_id res)) responses'
  | _, _ => []
  end.

(** The exchange of a search: the pages, in order, each requested with
    the token of the page before. *)
Fixpoint search_exchange (opts : SearchOpts) (perPage : number)
    (token : option string) (pages : list PostsResponse)
  : list (SdkRequest * SdkResponse) :=
  match pages with
  | [] => []
  | page :: pages' =>
      (PostsSearchRecent (so_query opts) (search_params opts perPage token),
       SomePosts page)
      :: search_exchange opts perPage (posts_nextToken page) pages'
  end.

(** The tweets of one page of a search. *)
Definition page_tweets (page : PostsResponse) : list (TweetData * TweetOrigin) :=
  List.map (to_tweet (default [] (posts_users page)))
           (default [] (posts_data page)).

(** The token of the last page, if any page was fetched. *)
Definition last_token (pages : list PostsResponse) : option string :=
  match last pages with
  | Some page => posts_nextToken page
  | None => None
  end.

(** The lookup [getTweet] sends for an id, and what [measureArticle]
    makes of the response. *)
Definition tweet_lookup (tweetId : string) : SdkRequest :=
  PostsGetById tweetId
    {| tweetFields := ["created_at"; "public_metrics"; "author_id";
                       "note_tweet"]%string;
       expansions := ["author_id"%string];
       userFields := ["username"; "public_metrics"]%string |}.

Definition article_of (res : PostResponse) : option ArticleMetrics :=
  measureArticle
    (option_map (fun d => fst (to_tweet (default [] (post_users res)) d))
                (post_data res)).

(** The requests [getMe] and [getUserTimeline] send: the timeline is asked
    with the size [Math.max(5, Math.min(maxResults, 100))]. *)
Definition profile_request : SdkRequest :=
  UsersGetMe {| tweetFields := []; expansions := [];
                userFields := ["public_metrics"; "description"; "created_at";
                               "profile_image_url"]%string |}.

Definition timeline_size (maxResults : number) : number :=
  Math_max (of_Z 5) (Math_min maxResults (of_Z 100)).

Definition timeline_request (userId : string) (maxResults : number)
  : SdkRequest :=
  UsersGetPosts userId (timeline_size maxResults)
    {| tweetFields := ["created_at"; "public_metrics"]%string;
       expansions := []; userFields := [] |}.

(** The tweets [getUserTimeline] returns for a page. *)
Definition timeline_tweets (maxResults : number) (page : PostsResponse)
  : list (TweetData * TweetOrigin) :=
  List.map to_own_tweet (slice0 maxResults (default [] (posts_data page))).

(** The average bookmark rate [pulseCheck] reports for its totals. *)
Definition pulse_rate (totalImpressions totalBookmarks : number) : number :=
  let avgBookmarkRate :=
    if gtb totalImpressions (of_Z 0)
    then mul (div totalBookmarks totalImpressions) (of_Z 100)
    else of_Z 0 in
  div (Math_round (mul avgBookmarkRate (of_Z 100))) (of_Z 100).

(** A number that is not the negative zero. *)
Definition not_negative_zero (x : number) : Prop := x <> S754_zero true.

(** [s] ends with a slash. *)
Definition ends_with_slash (s : string) : Prop :=
  exists s', s = (s' ++ "/")%string.

(** A string of characters below U+0080 only. *)
Fixpoint all_ascii (s : string) : bool :=
  match s with
  | EmptyString => true
  | String c s' => (Str.byte_value c <? 128) && all_ascii s'
  end.

(* ===================================================================== *)
(** * Example inputs of the operations *)
(* ===================================================================== *)

Module ExampleClient.

(** A post with 21 bookmarks for 228 impressions, and one without
    metrics. *)
Definition measured_post (id : string) : SdkPost :=
  {| post_id := Some id; post_text := Some "An article"%string;
     post_authorId := Some "42"%string; post_createdAt := None;
     post_publicMetrics :=
       Some {| likeCount := Some (of_Z 40); retweetCount := Some (of_Z 3);
               replyCount := Some (of_Z 2); quoteCount := Some (of_Z 1);
               bookmarkCount := Some (of_Z 21);
               impressionCount := Some (of_Z 228) |} |}.

Definition bare_post (id : string) : SdkPost :=
  {| post_id := Some id; post_text := Some "A note"%string;
     post_authorId := None; post_createdAt := None;
     post_publicMetrics := None |}.

Definition me : SdkProfile :=
  {| profile_id := "42"; profile_name := Some "Cosmo"%string;
     profile_username := Some "cosmo"%string; profile_description := None;
     profile_createdAt := None; profile_imageUrl := None;
     profile_publicMetrics := None |}.

(** A service that answers every request: a created post gets the number
    of the request as its id, a search has two pages, a timeline has seven
    posts whatever the size asked for, and the post [404] does not exist. *)
Definition example_client : Client World :=
  {| posts_create := fun body w =>
       (Resolved {| create_data :=
                      Some {| created_id := Some (Str.of_nat (S (snd w)));
                              created_text := Some (cb_text body) |} |},
        remote w);
     posts_delete := fun _ w =>
       (Resolved {| delete_deleted := Some true |}, remote w);
     posts_getById := fun tweetId _ w =>
       (Resolved {| post_data :=
                      if String.eqb tweetId "404" then None
                      else if String.eqb tweetId "7" then Some (bare_post tweetId)
                      else Some (measured_post tweetId);
                    post_users := None |},
        remote w);
     posts_searchRecent := fun _ params w =>
       (Resolved {| posts_data := Some [measured_post "1"; bare_post "2"];
                    posts_users :=
                      Some [ {| user_id := "42";
                                user_username := Some "cosmo"%string |} ];
                    posts_nextToken :=
                      match sp_paginationToken params with
                      | None => Some "page-2"%string
                      | Some _ => None
                      end |},
        remote w);
     users_getMe := fun _ w =>
       (Resolved {| user_data := Some me |}, remote w);
     users_getPosts := fun _ _ _ w =>
       (Resolved {| posts_data :=
                      Some (List.map (fun n => measured_post (Str.of_nat n))
                                     (seq 1 7));
                    posts_users := None; posts_nextToken := None |},
        remote w) |}.

(** The same service, refusing every request after the first one. *)
Definition refusing (fn : World -> Completion CreateResponse * World)
  : World -> Completion CreateResponse * World :=
  fun w => if (0 <? snd w)%nat then (Rejected forbidden, remote w) else fn w.

Definition closing_client : Client World :=
  {| posts_create := fun body => refusing (posts_create example_client body);
     posts_delete := posts_delete example_client;
     posts_getById := fun tweetId opts w =>
       if (0 <? snd w)%nat then (Rejected forbidden, remote w)
       else posts_getById example_client tweetId opts w;
     posts_searchRecent := posts_searchRecent example_client;
     users_getMe := fun _ w =>
       (Resolved {| user_data := None |}, remote w);
     users_getPosts := users_getPosts example_client |}.

(** Characters beyond U+007F, by their bytes: the no-break space U+00A0,
    the ideographic space U+3000, the letter U+00E9 and the face
    U+1F600 with its high surrogate U+D83D. *)
Definition bytes (l : list nat) : string :=
  fold_right (fun n s => String (ascii_of_nat n) s) EmptyString l.

Definition no_break_space : string := bytes [194; 160]%nat.
Definition ideographic_space : string := bytes [227; 128; 128]%nat.
Definition e_acute : string := bytes [195; 169]%nat.
Definition grinning_face : string := bytes [240; 159; 152; 128]%nat.
Definition grinning_face_high : string := bytes [237; 160; 189]%nat.

Fixpoint copies (n : nat) (s : string) : string :=
  match n with
  | O => EmptyString
  | S n' => (s ++ copies n' s)%string
  end.

(** The threads, searches and environments of the examples. *)
Definition example_thread : list string := ["one"; "two"; "three"]%string.

Definition example_search : SearchOpts :=
  {| so_query := "rocq"; so_maxResults := None; so_maxPages := Some 3;
     so_startTime := None; so_endTime := None; so_sortOrder := None |}.

Definition env_with_scheduler : gmap string string :=
  <["SCHEDULER_API_KEY" := "sk"]>
    (<["SCHEDULER_URL" := "https://example.com/"]>
       (<["X_BEARER_TOKEN" := "bt"]> env_without_bearer))%string.

End ExampleClient.

Import ExampleClient.

(* ===================================================================== *)
(** * Properties: strings and the rate-limit classifier *)
(* ===================================================================== *)

Lemma append_nil (s : string) : ("" ++ s)%string = s.
Proof. reflexivity. Qed.

Lemma append_cons (c : ascii) (s t : string) :
  (String c s ++ t)%string = String c (s ++ t)%string.
Proof. reflexivity. Qed.

Lemma prefix_app (needle s : string) :
  String.prefix needle s = true <-> exists post, s = (needle ++ post)%string.
Proof.
  revert s. induction needle as [|c needle IH]; intros s; simpl.
  - split; [intros _; exists s; reflexivity | intros _; destruct s; reflexivity].
  - destruct s as [|d s]; simpl.
    + split; [discriminate | intros [post H]; discriminate].
    + destruct (ascii_dec c d) as [->|Hne].
      * rewrite IH. split; intros [post H]; exists post;
          rewrite append_cons in *; congruence.
      * split; [discriminate |].
        intros [post H]. rewrite append_cons in H. congruence.
Qed.

Lemma includes_unfold (needle s : string) :
  Str.includes needle s =
  String.prefix needle s
  || match s with
     | EmptyString => false
     | String _ s' => Str.includes needle s'
     end.
Proof.
  destruct s; cbn [Str.includes];
    match goal with |- context [String.prefix ?a ?b] =>
      destruct (String.prefix a b) end; reflexivity.
Qed.

Lemma includes_contains (needle s : string) :
  Str.includes needle s = true <-> contains needle s.
Proof.
  induction s as [|c s IH]; rewrite includes_unfold, orb_true_iff, prefix_app.
  - split.
    + intros [[post H]|H]; [|discriminate]. exists ""%string, post. exact H.
    + intros [pre [post H]]. left.
      destruct pre; [|discriminate]. exists post. exact H.
  - rewrite IH. split.
    + intros [[post H]|[pre [post H]]].
      * exists ""%string, post. exact H.
      * exists (String c pre), post. rewrite append_cons. congruence.
    + intros [pre [post H]]. destruct pre as [|d pre].
      * left. exists post. exact H.
      * right. rewrite append_cons in H. injection H as _ H.
        exists pre, post. exact H.
Qed.

(** C6. [is429] answers true exactly for an [Error] whose message contains
    "429" or "Too Many Requests" (case-sensitively), and false for every
    value that is not an [Error]; "HTTP 429: Too Many Requests" is
    classified as rate-limited and "HTTP 403: Forbidden" is not. *)
Theorem is429_classifies :
  (forall err : JsValue,
     is429 err = true <->
     exists message headers,
       err = JObject (ErrorInstance message) headers /\
       (contains "429" message \/ contains "Too Many Requests" message))
  /\ (forall p, is429 (JPrimitive p) = false)
  /\ (forall headers, is429 (JObject PlainObject headers) = false)
  /\ is429 (new_Error "HTTP 429: Too Many Requests") = true
  /\ is429 (new_Error "HTTP 403: Forbidden") = false
  /\ is429 (new_Error "too many requests") = false.
Proof.
  repeat split; try reflexivity.
  - destruct err as [p|[message|] headers]; simpl; try discriminate.
    intros H. exists message, headers. split; [reflexivity|].
    apply orb_true_iff in H as [H|H]; [left|right];
      apply includes_contains; exact H.
  - intros [message [headers [-> H]]]. simpl. apply orb_true_iff.
    destruct H as [H|H]; [left|right]; apply includes_contains; exact H.
Qed.

(* ===================================================================== *)
(** * Properties: numbers *)
(* ===================================================================== *)

Lemma of_Z_0 : of_Z 0 = S754_zero false.
Proof. reflexivity. Qed.

(** A number greater than zero is truthy, so the guard
    [resetAfter && resetAfter > 0] is [resetAfter > 0]. *)
Lemma positive_truthy (r : number) :
  gtb r (of_Z 0) = true -> truthy r = true.
Proof. destruct r as [s|s| |s m e]; try destruct s; vm_compute; congruence. Qed.

Lemma mul_nan_l (x : number) : mul NaN x = NaN.
Proof. reflexivity. Qed.

Lemma sub_nan_l (x : number) : sub NaN x = NaN.
Proof. reflexivity. Qed.

Lemma div_nan_l (x : number) : div NaN x = NaN.
Proof. reflexivity. Qed.

Lemma Math_max_nan_r (x : number) : Math_max x NaN = NaN.
Proof. unfold Math_max. rewrite orb_true_r. reflexivity. Qed.

(* ===================================================================== *)
(** * Properties: the backoff policy and the reset hint *)
(* ===================================================================== *)

Section WaitProperties.

Context {W T : Type}.
Variable Date_now : W -> number * W.

Local Abbreviation extractResetSeconds' := (extractResetSeconds (T:=T) Date_now).
Local Abbreviation getWaitMs' := (getWaitMs (T:=T) Date_now).

(** What [extractResetSeconds] returns, case by case: nothing without a
    non-empty header, and otherwise the seconds left until the parsed
    reset time, read against one reading of the clock. *)
Lemma extractResetSeconds_cases (err : JsValue) (this : RateLimiter) (w : W) :
  extractResetSeconds' err (this, w) =
  match reset_header err with
  | Some reset =>
      if Str.truthy reset then
        let '(now, w') := Date_now w in
        (Resolved
           (Some (Math_max (of_Z 0)
                    (div (sub (mul (Str.parseInt10 reset) (of_Z 1000)) now)
                         (of_Z 1000)))),
         (this, w'), [])
      else (Resolved None, (this, w), [])
  | None => (Resolved None, (this, w), [])
  end.
Proof.
  destruct err as [p|kind [[p|fields]|]]; try reflexivity.
  cbn [reset_header extractResetSeconds].
  destruct (fields !! _) as [reset|]; [|reflexivity].
  destruct (Str.truthy reset); [|reflexivity].
  unfold bind, now_, ret. destruct (Date_now w) as [now w']. reflexivity.
Qed.

Lemma extractResetSeconds_resolves (err : JsValue) (this : RateLimiter) (w : W) :
  exists hint w',
    extractResetSeconds' err (this, w) = (Resolved hint, (this, w'), []).
Proof.
  rewrite extractResetSeconds_cases.
  destruct (reset_header err) as [reset|]; [|eauto].
  destruct (Str.truthy reset); [|eauto].
  destruct (Date_now w) as [now w']. eauto.
Qed.

(** [getWaitMs] after the hint has been extracted: the guard
    [resetAfter && resetAfter > 0] is [resetAfter > 0]. *)
Lemma getWaitMs_cases (err : JsValue) (attempt : Z) (this : RateLimiter) (w : W) :
  exists hint w',
    extractResetSeconds' err (this, w) = (Resolved hint, (this, w'), [])
    /\ getWaitMs' err attempt (this, w)
       = (Resolved
            match hint with
            | Some r =>
                if gtb r (of_Z 0) then add (mul r (of_Z 1000)) (of_Z 1000)
                else mul (baseDelay this) (Math_pow2 attempt)
            | None => mul (baseDelay this) (Math_pow2 attempt)
            end,
          (this, w'), []).
Proof.
  destruct (extractResetSeconds_resolves err this w) as [hint [w' E]].
  exists hint, w'. split; [exact E|].
  unfold getWaitMs, bind. rewrite E. unfold this_. cbn [fst].
  destruct hint as [r|]; [|reflexivity].
  destruct (gtb r (of_Z 0)) eqn:G.
  - rewrite (positive_truthy r G). reflexivity.
  - rewrite andb_false_r. reflexivity.
Qed.

(** C4. [getWaitMs] returns [hintSeconds * 1000 + 1000] when the error
    yields a hint that is greater than zero, and
    [baseDelay * 2^attempt] otherwise (no hint, or a hint that is zero,
    negative or NaN); with [baseDelay = 100] and no hint the waits for
    attempts 0, 1, 2 are 100, 200, 400. *)
Theorem getWaitMs_backoff :
  (forall (err : JsValue) (attempt : Z) (this : RateLimiter) (w : W),
     exists hint w' waitMs,
       extractResetSeconds' err (this, w) = (Resolved hint, (this, w'), [])
       /\ getWaitMs' err attempt (this, w) = (Resolved waitMs, (this, w'), [])
       /\ (forall h, hint = Some h -> gtb h (of_Z 0) = true ->
             waitMs = add (mul h (of_Z 1000)) (of_Z 1000))
       /\ ((forall h, hint = Some h -> gtb h (of_Z 0) = false) ->
             waitMs = mul (baseDelay this) (Math_pow2 attempt)))
  /\ (forall (message : string) (limits : gmap string RateLimitState)
             (retries : Z) (w : W),
        let this := mkRateLimiter limits retries (of_Z 100) in
        let err := new_Error message in
        getWaitMs' err 0 (this, w) = (Resolved (of_Z 100), (this, w), [])
        /\ getWaitMs' err 1 (this, w) = (Resolved (of_Z 200), (this, w), [])
        /\ getWaitMs' err 2 (this, w) = (Resolved (of_Z 400), (this, w), [])).
Proof.
  split.
  - intros err attempt this w.
    destruct (getWaitMs_cases err attempt this w) as [hint [w' [E G]]].
    exists hint, w'. eexists. split; [exact E|]. split; [exact G|]. split.
    + intros h -> Hh. rewrite Hh. reflexivity.
    + intros H. destruct hint as [r|]; [|reflexivity].
      rewrite (H r eq_refl). reflexivity.
  - intros message limits retries w. cbv zeta. repeat split.
Qed.

(** C7 (amended). [extractResetSeconds] returns null exactly when the
    error carries no [x-rate-limit-reset] header or an empty one.  For a
    non-empty header it returns
    [max(0, (parseInt(header) * 1000 - now) / 1000)]; when the header
    does not start with an integer this value is NaN, not null. *)
Theorem extractResetSeconds_hint (err : JsValue) (this : RateLimiter) (w : W) :
  (forall reset,
     reset_header err = Some reset -> reset <> EmptyString ->
     extractResetSeconds' err (this, w) =
     (Resolved
        (Some (Math_max (of_Z 0)
                 (div (sub (mul (Str.parseInt10 reset) (of_Z 1000))
                           (fst (Date_now w)))
                      (of_Z 1000)))),
      (this, snd (Date_now w)), []))
  /\ (forall reset,
        reset_header err = Some reset -> reset <> EmptyString ->
        is_nan (Str.parseInt10 reset) = true ->
        completion_of (extractResetSeconds' err (this, w)) = Resolved (Some NaN))
  /\ (reset_header err = None \/ reset_header err = Some EmptyString ->
      extractResetSeconds' err (this, w) = (Resolved None, (this, w), [])).
Proof.
  rewrite extractResetSeconds_cases. repeat split.
  - intros reset -> Hne. destruct reset; [congruence|]. cbn [Str.truthy].
    destruct (Date_now w); reflexivity.
  - intros reset -> Hne Hnan. destruct reset; [congruence|]. cbn [Str.truthy].
    destruct (Date_now w) as [now w']. unfold completion_of. cbn [fst].
    destruct (Str.parseInt10 _); try discriminate.
    change S754_nan with NaN.
    rewrite mul_nan_l, sub_nan_l, div_nan_l, Math_max_nan_r. reflexivity.
  - intros [-> | ->]; reflexivity.
Qed.

End WaitProperties.

(** C7, as stated, fails: for a header that is no number the result is NaN,
    not null. *)
Lemma extractResetSeconds_unparsable_counterexample :
  reset_header (error_with_reset "soon") = Some "soon"%string
  /\ is_nan (Str.parseInt10 "soon") = true
  /\ completion_of
       (extractResetSeconds (T:=string) clock (error_with_reset "soon")
          (test_limiter, epoch))
     = Resolved (Some NaN)
  /\ ~ (forall (err : JsValue) (reset : string) (this : RateLimiter) (w : World),
          reset_header err = Some reset ->
          is_nan (Str.parseInt10 reset) = true ->
          completion_of (extractResetSeconds (T:=string) clock err (this, w))
          = Resolved None).
Proof.
  split; [reflexivity|]. split; [reflexivity|]. split; [reflexivity|].
  intros H.
  specialize (H (error_with_reset "soon") "soon"%string test_limiter epoch
                eq_refl eq_refl).
  vm_compute in H. discriminate.
Qed.

(** A header that holds a time fifteen seconds after the clock's reading
    gives a hint of fifteen seconds, and a wait of sixteen. *)
Example extractResetSeconds_fifteen_seconds :
  completion_of
    (extractResetSeconds (T:=string) clock (error_with_reset "1700000015")
       (test_limiter, epoch))
  = Resolved (Some (of_Z 15))
  /\ completion_of
       (getWaitMs (T:=string) clock (error_with_reset "1700000015") 0
          (test_limiter, epoch))
     = Resolved (of_Z 16000).
Proof. split; vm_compute; reflexivity. Qed.

(* ===================================================================== *)
(** * Properties: the retry executor *)
(* ===================================================================== *)

Lemma invocations_app {T} (evs1 evs2 : list (Event T)) :
  invocations (evs1 ++ evs2) = invocations evs1 ++ invocations evs2.
Proof. unfold invocations. apply omap_app. Qed.

Lemma invocations_invoke {T} (c : Completion T) (evs : list (Event T)) :
  invocations (EvInvoke c :: evs) = c :: invocations evs.
Proof. reflexivity. Qed.

Ltac observe :=
  unfold completion_of, limiter_of, world_of, events_of in *;
  cbn [fst snd] in *.

Section CallProperties.

Context {W : Type}.
Variable Date_now : W -> number * W.
Variable sleep : number -> W -> W.

Local Abbreviation attempts' := (attempts Date_now sleep).
Local Abbreviation call' := (call Date_now sleep).
Local Abbreviation precheck' := (precheck Date_now sleep).

(** *** The loop counter *)

(** [attempts] is run with [Z.to_nat (maxRetries + 1 - attempt)] iterations
    left: none is left exactly when the loop condition
    [attempt <= maxRetries] is false, and one iteration later the count is
    the one of [attempt + 1]. *)
Lemma loop_condition (retries attempt : Z) :
  (Z.to_nat (retries + 1 - attempt) = 0%nat <-> ~ attempt <= retries)
  /\ (forall n, Z.to_nat (retries + 1 - attempt) = S n ->
                Z.to_nat (retries + 1 - (attempt + 1)) = n).
Proof. split; [|intros n]; lia. Qed.

(** *** One step at a time *)

Lemma getWaitMs_resolves {T} (err : JsValue) (attempt : Z)
    (this : RateLimiter) (w : W) :
  exists waitMs w',
    getWaitMs (T:=T) Date_now err attempt (this, w)
    = (Resolved waitMs, (this, w'), []).
Proof.
  destruct (getWaitMs_cases (T:=T) Date_now err attempt this w)
    as [hint [w' [_ E]]].
  eauto.
Qed.

(** The pre-check neither touches the limiter nor runs the thunk. *)
Lemma precheck_resolves {T} (endpoint : string) (this : RateLimiter) (w : W) :
  exists w' (evs : list (Event T)),
    precheck' endpoint (this, w) = (Resolved tt, (this, w'), evs)
    /\ invocations evs = [].
Proof.
  unfold precheck, bind, limits_get. cbn [fst].
  destruct (limits this !! endpoint) as [state|]; [|unfold ret; eauto].
  destruct (eqb (remaining state) (of_Z 0)); [|unfold ret; eauto].
  unfold now_. destruct (Date_now w) as [now w1].
  destruct (gtb (resetAt state) now); [|unfold ret; eauto].
  destruct (Date_now w1) as [now' w2]. unfold log_, sleep_. cbn.
  eauto.
Qed.

Lemma call_unfold {T} (endpoint : string) (fn : Thunk) (this : RateLimiter)
    (w w0 : W) (evs0 : list (Event T)) :
  precheck' endpoint (this, w) = (Resolved tt, (this, w0), evs0) ->
  call' endpoint fn (this, w) =
  let r := attempts' endpoint fn (Z.to_nat (maxRetries this + 1)) 0 undefined
             (this, w0) in
  (completion_of r, (limiter_of r, world_of r), evs0 ++ events_of r).
Proof.
  intros E. unfold call, bind. rewrite E. unfold this_. cbn [fst app].
  destruct (attempts _ _ _ _ _ _ _ _) as [[c [this' w']] evs]. reflexivity.
Qed.

(** An iteration whose invocation succeeds. *)
Lemma attempts_success {T} (endpoint : string) (fn : Thunk) (n : nat)
    (attempt : Z) (lastError : JsValue) (this : RateLimiter) (w w1 : W) (v : T) :
  fn w = (Resolved v, w1) ->
  attempts' endpoint fn (S n) attempt lastError (this, w) =
  (Resolved v,
   (set_limits this
      (<[endpoint := healthy_state endpoint (fst (Date_now w1))]> (limits this)),
    snd (Date_now w1)),
   [EvInvoke (Resolved v)]).
Proof.
  intros E. cbn [attempts]. unfold bind, try_await. rewrite E.
  unfold now_. destruct (Date_now w1) as [now w2]. reflexivity.
Qed.

(** An iteration whose invocation fails with another error than a
    rate-limit one. *)
Lemma attempts_other_failure {T} (endpoint : string) (fn : Thunk (T:=T))
    (n : nat) (attempt : Z) (lastError : JsValue) (this : RateLimiter)
    (w w1 : W) (e : JsValue) :
  fn w = (Rejected e, w1) -> is429 e = false ->
  attempts' endpoint fn (S n) attempt lastError (this, w) =
  (Rejected e, (this, w1), [EvInvoke (Rejected e)]).
Proof.
  intros E H. cbn [attempts]. unfold bind, try_await. rewrite E, H.
  reflexivity.
Qed.

(** An iteration whose invocation fails with a rate-limit error: the
    entry is written, the limiter waits if the budget allows a retry, and
    the loop goes on with the next attempt. *)
Lemma attempts_rate_limited {T} (endpoint : string) (fn : Thunk (T:=T))
    (n : nat) (attempt : Z) (lastError : JsValue) (this : RateLimiter)
    (w w1 : W) (err : JsValue) :
  fn w = (Rejected err, w1) -> is429 err = true ->
  exists waitMs w2 w3 evs,
    getWaitMs (T:=T) Date_now err attempt (this, w1)
    = (Resolved waitMs, (this, w2), [])
    /\ invocations evs = []
    /\ attempts' endpoint fn (S n) attempt lastError (this, w) =
       let s := exhausted_state endpoint (fst (Date_now w2)) waitMs
                  (fst (Date_now (snd (Date_now w2)))) in
       let r := attempts' endpoint fn n (attempt + 1) err
                  (set_limits this (<[endpoint := s]> (limits this)), w3) in
       (completion_of r, (limiter_of r, world_of r),
        EvInvoke (Rejected err) :: evs ++ events_of r).
Proof.
  intros E H.
  destruct (getWaitMs_resolves (T:=T) err attempt this w1) as [waitMs [w2 G]].
  exists waitMs, w2. cbv zeta.
  cbn [attempts]. unfold bind at 1. unfold try_await. rewrite E, H.
  cbn [negb]. unfold bind at 1. rewrite G.
  unfold bind at 1. unfold now_ at 1. destruct (Date_now w2) as [now1 w3].
  cbn [fst snd].
  unfold bind at 1. unfold now_ at 1. destruct (Date_now w3) as [now2 w4].
  cbn [fst snd].
  unfold bind at 1. unfold limits_set. unfold bind at 1. unfold this_.
  cbn [fst snd maxRetries set_limits].
  destruct (attempt <? maxRetries this).
  - exists (sleep waitMs w4),
      [EvLog (LogRetry endpoint (attempt + 1) (maxRetries this) waitMs);
       EvSleep waitMs].
    split; [reflexivity|]. split; [reflexivity|].
    unfold bind, log_, sleep_.
    destruct (attempts _ _ _ _ _ _ _ _) as [[c [this' w']] evs'].
    reflexivity.
  - exists w4, []. split; [reflexivity|]. split; [reflexivity|].
    unfold bind, ret.
    destruct (attempts _ _ _ _ _ _ _ _) as [[c [this' w']] evs'].
    reflexivity.
Qed.

(** *** Counting invocations *)

Lemma attempts_invocations {T} (endpoint : string) (fn : Thunk (T:=T)) (n : nat) :
  forall attempt lastError this w,
    let r := attempts' endpoint fn n attempt lastError (this, w) in
    (length (invocations (events_of r)) <= n)%nat
    /\ ((0 < n)%nat -> (1 <= length (invocations (events_of r)))%nat).
Proof.
  induction n as [|n IH]; intros attempt lastError this w.
  - cbn. lia.
  - destruct (fn w) as [[v|err] w1] eqn:E.
    + cbv zeta. rewrite (attempts_success _ _ _ _ _ _ _ _ _ E). cbn. lia.
    + destruct (is429 err) eqn:H.
      * destruct (attempts_rate_limited endpoint fn n attempt lastError
                    this w w1 err E H) as [waitMs [w2 [w3 [evs [_ [Hev ->]]]]]].
        cbv zeta. observe.
        rewrite invocations_invoke, invocations_app, Hev. cbn [app].
        match goal with |- context [attempts ?x1 ?x2 ?x3 ?x4 ?x5 ?x6 ?x7 ?x8] =>
          pose proof (IH x6 x7 (fst x8) (snd x8)) as [IH1 _] end.
        observe. cbn [length]. split; lia.
      * cbv zeta. rewrite (attempts_other_failure _ _ _ _ _ _ _ _ _ E H).
        cbn. lia.
Qed.

Lemma attempts_always_rate_limited {T} (endpoint : string) (fn : Thunk (T:=T)) :
  always_rate_limited fn ->
  forall n attempt lastError this w,
    let r := attempts' endpoint fn n attempt lastError (this, w) in
    length (invocations (events_of r)) = n
    /\ exists e,
         completion_of r = Rejected e
         /\ last (Rejected lastError :: invocations (events_of r))
            = Some (Rejected e).
Proof.
  intros Hfn n. induction n as [|n IH]; intros attempt lastError this w.
  - cbn. eauto.
  - destruct (Hfn w) as [err [w1 [E H]]].
    destruct (attempts_rate_limited endpoint fn n attempt lastError
                this w w1 err E H) as [waitMs [w2 [w3 [evs [_ [Hev ->]]]]]].
    cbv zeta. observe.
    rewrite invocations_invoke, invocations_app, Hev. cbn [app].
    match goal with |- context [attempts ?x1 ?x2 ?x3 ?x4 ?x5 ?x6 ?x7 ?x8] =>
      pose proof (IH x6 x7 (fst x8) (snd x8)) as [IH1 [e [IH2 IH3]]] end.
    observe. cbn [length].
    split; [lia|]. exists e. split; [exact IH2|].
    rewrite last_cons_cons. exact IH3.
Qed.

(** C1. With a non-negative [maxRetries], [call] invokes the thunk at
    least once and at most [maxRetries + 1] times.  A thunk that fails
    with a rate-limit error on every invocation is invoked exactly
    [maxRetries + 1] times (3 times for [maxRetries = 2]), and the error
    [call] rejects with is the one thrown by the last invocation. *)
Theorem call_invocation_count {T} (endpoint : string) (fn : Thunk (T:=T))
    (this : RateLimiter) (w : W) :
  0 <= maxRetries this ->
  let r := call' endpoint fn (this, w) in
  let count := length (invocations (events_of r)) in
  (1 <= count <= Z.to_nat (maxRetries this + 1))%nat
  /\ (always_rate_limited fn ->
      count = Z.to_nat (maxRetries this + 1)
      /\ (maxRetries this = 2 -> count = 3%nat)
      /\ exists e, last (invocations (events_of r)) = Some (Rejected e)
                   /\ completion_of r = Rejected e).
Proof.
  intros Hmax.
  destruct (precheck_resolves (T:=T) endpoint this w) as [w0 [evs0 [P Hev0]]].
  cbv zeta. rewrite (call_unfold endpoint fn this w w0 evs0 P). cbv zeta.
  observe. rewrite invocations_app, Hev0. cbn [app].
  set (n := Z.to_nat (maxRetries this + 1)).
  assert (Hn : (0 < n)%nat) by (subst n; lia).
  split.
  - pose proof (attempts_invocations endpoint fn n 0 undefined this w0)
      as [Hle Hge].
    cbv zeta in Hle, Hge. observe. split; [apply Hge; exact Hn | exact Hle].
  - intros Hfn.
    pose proof (attempts_always_rate_limited endpoint fn Hfn n 0 undefined
                  this w0) as [Hlen [e [Hc Hlast]]].
    cbv zeta in Hlen, Hc, Hlast. observe. split; [exact Hlen|]. split.
    + intros H2. rewrite Hlen. subst n. rewrite H2. reflexivity.
    + exists e. split; [|exact Hc].
      match goal with |- last ?l = _ => destruct l as [|c l'] eqn:El end.
      * cbn in Hlen. lia.
      * rewrite last_cons_cons in Hlast. exact Hlast.
Qed.

(** C2. A failure of the thunk that [is429] does not classify as a
    rate-limit error ends the loop at once: [call] rejects with that very
    value, the thunk is not invoked again, and the limiter, hence the
    stored entry of the endpoint (or its absence), is as it was before
    the attempt.  This holds at every attempt of the loop, and for the
    whole call when the first attempt fails so. *)
Theorem other_failure_propagates {T} (endpoint : string) (fn : Thunk (T:=T))
    (this : RateLimiter) (w w1 : W) (e : JsValue) :
  fn w = (Rejected e, w1) ->
  is429 e = false ->
  (forall n attempt lastError,
     attempts' endpoint fn (S n) attempt lastError (this, w)
     = (Rejected e, (this, w1), [EvInvoke (Rejected e)]))
  /\ (forall w0 evs0,
        0 <= maxRetries this ->
        precheck' endpoint (this, w0) = (Resolved tt, (this, w), evs0) ->
        let r := call' endpoint fn (this, w0) in
        r = (Rejected e, (this, w1), evs0 ++ [EvInvoke (Rejected e)])
        /\ invocations (events_of r) = [Rejected e]
        /\ limits (limiter_of r) !! endpoint = limits this !! endpoint).
Proof.
  intros E H. split.
  - intros n attempt lastError. apply attempts_other_failure; assumption.
  - intros w0 evs0 Hmax P.
    destruct (precheck_resolves (T:=T) endpoint this w0)
      as [w0' [evs0' [P' Hev0]]].
    rewrite P in P'. injection P' as <- <-.
    cbv zeta. rewrite (call_unfold endpoint fn this w0 w evs0 P). cbv zeta.
    destruct (Z.to_nat (maxRetries this + 1)) as [|n] eqn:Hn; [lia|].
    rewrite (attempts_other_failure _ _ _ _ _ _ _ _ _ E H). observe.
    split; [reflexivity|]. split; [|reflexivity].
    rewrite invocations_app, Hev0. reflexivity.
Qed.

(** After a loop in which some invocation succeeded, the call resolved
    with that result, nothing happened after the invocation, and the
    entry of the endpoint is a healthy one. *)
Lemma attempts_resolved {T} (endpoint : string) (fn : Thunk (T:=T)) (v : T)
    (n : nat) :
  forall attempt lastError this w,
    let r := attempts' endpoint fn n attempt lastError (this, w) in
    In (Resolved v) (invocations (events_of r)) ->
    completion_of r = Resolved v
    /\ last (events_of r) = Some (EvInvoke (Resolved v))
    /\ exists now,
         limits (limiter_of r) !! endpoint = Some (healthy_state endpoint now).
Proof.
  induction n as [|n IH]; intros attempt lastError this w.
  - cbn. intros [].
  - destruct (fn w) as [[v'|err] w1] eqn:E.
    + cbv zeta. rewrite (attempts_success _ _ _ _ _ _ _ _ _ E). observe.
      rewrite invocations_invoke. intros [[= ->]|[]].
      split; [reflexivity|]. split; [reflexivity|].
      exists (fst (Date_now w1)). cbn [limits set_limits].
      apply lookup_insert_eq.
    + destruct (is429 err) eqn:H.
      * destruct (attempts_rate_limited endpoint fn n attempt lastError
                    this w w1 err E H) as [waitMs [w2 [w3 [evs [_ [Hev ->]]]]]].
        cbv zeta. observe.
        rewrite invocations_invoke, invocations_app, Hev. cbn [app In].
        intros [[=]|Hin].
        match goal with |- context [attempts ?x1 ?x2 ?x3 ?x4 ?x5 ?x6 ?x7 ?x8] =>
          pose proof (IH x6 x7 (fst x8) (snd x8)) as IH' end.
        cbv zeta in IH'. observe.
        destruct (IH' Hin) as [Hc [Hl Hs]].
        split; [exact Hc|]. split; [|exact Hs].
        rewrite app_comm_cons, last_app, Hl. reflexivity.
      * cbv zeta. rewrite (attempts_other_failure _ _ _ _ _ _ _ _ _ E H).
        observe. rewrite invocations_invoke. intros [[=]|[]].
Qed.

(** C3. When an invocation of the thunk succeeds, the loop stops there:
    [call] resolves with that result and nothing happens after the
    invocation but the write of
    [{endpoint, remaining: 1, resetAt: 0, lastHit: now}], [now] being the
    clock read right after the success; the entry replaces whatever was
    stored for the endpoint, an exhausted marking included. *)
Theorem success_writes_healthy_state {T} (endpoint : string)
    (fn : Thunk (T:=T)) :
  (forall this w w1 v n attempt lastError,
     fn w = (Resolved v, w1) ->
     attempts' endpoint fn (S n) attempt lastError (this, w)
     = (Resolved v,
        (set_limits this
           (<[endpoint := mkRateLimitState endpoint (of_Z 1) (of_Z 0)
                            (fst (Date_now w1))]> (limits this)),
         snd (Date_now w1)),
        [EvInvoke (Resolved v)]))
  /\ (forall this w v,
        let r := call' endpoint fn (this, w) in
        In (Resolved v) (invocations (events_of r)) ->
        completion_of r = Resolved v
        /\ last (events_of r) = Some (EvInvoke (Resolved v))
        /\ exists now,
             limits (limiter_of r) !! endpoint
             = Some (mkRateLimitState endpoint (of_Z 1) (of_Z 0) now)).
Proof.
  split.
  - intros this w w1 v n attempt lastError E.
    apply attempts_success. exact E.
  - intros this w v.
    destruct (precheck_resolves (T:=T) endpoint this w) as [w0 [evs0 [P Hev0]]].
    cbv zeta. rewrite (call_unfold endpoint fn this w w0 evs0 P). cbv zeta.
    observe. rewrite invocations_app, Hev0. cbn [app]. intros Hin.
    pose proof (attempts_resolved endpoint fn v
                  (Z.to_nat (maxRetries this + 1)) 0 undefined this w0) as R.
    cbv zeta in R. observe. destruct (R Hin) as [Hc [Hl Hs]].
    split; [exact Hc|]. split; [|exact Hs].
    rewrite last_app, Hl. reflexivity.
Qed.

End CallProperties.

Lemma always_429_rate_limited : always_rate_limited always_429.
Proof. intros w. exists too_many_requests, (remote w). split; reflexivity. Qed.

(** C1 at the limiter of the unit tests ([maxRetries = 2]) and a thunk that
    is rate-limited every time: three invocations, and the rejection is the
    error of the third. *)
Lemma call_invocation_count_witness :
  0 <= maxRetries test_limiter
  /\ let r := call clock timer "test" always_429 (test_limiter, epoch) in
     length (invocations (events_of r)) = 3%nat
     /\ exists e, last (invocations (events_of r)) = Some (Rejected e)
                  /\ completion_of r = Rejected e.
Proof.
  assert (H : 0 <= maxRetries test_limiter) by (vm_compute; discriminate).
  split; [exact H|].
  destruct (call_invocation_count clock timer "test" always_429 test_limiter
              epoch H) as [_ A].
  destruct (A always_429_rate_limited) as [_ [A3 Alast]].
  split; [apply A3; reflexivity | exact Alast].
Defined.

(** C2 at a thunk that is refused with "HTTP 403: Forbidden". *)
Lemma other_failure_propagates_witness :
  always_403 epoch = (Rejected forbidden, remote epoch)
  /\ is429 forbidden = false
  /\ call clock timer "test" always_403 (test_limiter, epoch)
     = (Rejected forbidden, (test_limiter, remote epoch),
        [EvInvoke (Rejected forbidden)])
  /\ limits test_limiter !! "test"%string = None.
Proof.
  assert (E : always_403 epoch = (Rejected forbidden, remote epoch))
    by reflexivity.
  assert (H : is429 forbidden = false) by reflexivity.
  split; [exact E|]. split; [exact H|].
  destruct (other_failure_propagates clock timer "test" always_403 test_limiter
              epoch (remote epoch) forbidden E H) as [_ A].
  destruct (A epoch [] ltac:(vm_compute; discriminate) eq_refl) as [A1 _].
  split; [exact A1 | reflexivity].
Defined.

(** C3 at a thunk that succeeds on its third run: the exhausted marking
    of the two failures is replaced by a healthy entry. *)
Lemma success_writes_healthy_state_witness :
  let r := call clock timer "test" third_time_lucky (test_limiter, epoch) in
  length (invocations (events_of r)) = 3%nat
  /\ completion_of r = Resolved "finally"%string
  /\ last (events_of r) = Some (EvInvoke (Resolved "finally"%string))
  /\ exists now,
       limits (limiter_of r) !! "test"%string
       = Some (mkRateLimitState "test" (of_Z 1) (of_Z 0) now).
Proof.
  cbv zeta. split; [vm_compute; reflexivity|].
  destruct (success_writes_healthy_state clock timer "test" third_time_lucky)
    as [_ A].
  apply (A test_limiter epoch "finally"%string).
  vm_compute. tauto.
Defined.

(* ===================================================================== *)
(** * Properties: the invariant of the state store *)
(* ===================================================================== *)

Section StoreProperties.

Context {W : Type}.
Variable Date_now : W -> number * W.
Variable sleep : number -> W -> W.

Lemma healthy_entry_ok (retries : Z) (delay : number) (k : string)
    (now : number) :
  entry_ok Date_now retries delay k (healthy_state k now).
Proof.
  repeat split; cbn.
  - right. reflexivity.
  - intros H. vm_compute in H. discriminate.
Qed.

(** What the loop leaves in the limiter: the configuration is untouched,
    and the store is either as before or holds one new entry, for the
    endpoint, that satisfies the invariant. *)
Lemma attempts_limits {T} (endpoint : string) (fn : Thunk (T:=T)) (n : nat) :
  forall attempt lastError this w,
    Z.of_nat n = Z.max 0 (maxRetries this + 1 - attempt) ->
    0 <= attempt ->
    let r := attempts Date_now sleep endpoint fn n attempt lastError (this, w) in
    maxRetries (limiter_of r) = maxRetries this
    /\ baseDelay (limiter_of r) = baseDelay this
    /\ (limits (limiter_of r) = limits this
        \/ exists s,
             limits (limiter_of r) = <[endpoint := s]> (limits this)
             /\ entry_ok Date_now (maxRetries this) (baseDelay this) endpoint s).
Proof.
  induction n as [|n IH]; intros attempt lastError this w Hn Hattempt.
  - cbn. auto.
  - destruct (fn w) as [[v|err] w1] eqn:E.
    + cbv zeta. rewrite (attempts_success _ _ _ _ _ _ _ _ _ _ _ E). observe.
      split; [reflexivity|]. split; [reflexivity|]. right.
      eexists. split; [reflexivity|]. apply healthy_entry_ok.
    + destruct (is429 err) eqn:H.
      * destruct (attempts_rate_limited Date_now sleep endpoint fn n attempt
                    lastError this w w1 err E H)
          as [waitMs [w2 [w3 [evs [G [_ ->]]]]]].
        cbv zeta. observe.
        set (s := exhausted_state endpoint _ _ _).
        assert (Hs : entry_ok Date_now (maxRetries this) (baseDelay this)
                       endpoint s).
        { repeat split; cbn.
          - left. reflexivity.
          - intros H1. vm_compute in H1. discriminate.
          - intros _. exists T, err, attempt, this, w1, w2, waitMs.
            repeat split; try assumption; try reflexivity; lia. }
        match goal with |- context [attempts ?x1 ?x2 ?x3 ?x4 ?x5 ?x6 ?x7 ?x8] =>
          pose proof (IH x6 x7 (fst x8) (snd x8)) as IH' end.
        cbv zeta in IH'. observe. cbn [maxRetries baseDelay limits set_limits] in IH'.
        destruct IH' as [Hm [Hb Hl]]; [lia|lia|].
        split; [exact Hm|]. split; [exact Hb|]. right.
        destruct Hl as [-> | [s' [-> Hs']]].
        -- exists s. split; [reflexivity|exact Hs].
        -- exists s'. split; [apply insert_insert_eq|exact Hs'].
      * cbv zeta. rewrite (attempts_other_failure _ _ _ _ _ _ _ _ _ _ _ E H).
        observe. auto.
Qed.

Lemma call_limits {T} (endpoint : string) (fn : Thunk (T:=T))
    (this : RateLimiter) (w : W) :
  let r := call Date_now sleep endpoint fn (this, w) in
  maxRetries (limiter_of r) = maxRetries this
  /\ baseDelay (limiter_of r) = baseDelay this
  /\ (limits (limiter_of r) = limits this
      \/ exists s,
           limits (limiter_of r) = <[endpoint := s]> (limits this)
           /\ entry_ok Date_now (maxRetries this) (baseDelay this) endpoint s).
Proof.
  destruct (precheck_resolves Date_now sleep (T:=T) endpoint this w)
    as [w0 [evs0 [P _]]].
  cbv zeta. rewrite (call_unfold _ _ endpoint fn this w w0 evs0 P). cbv zeta.
  observe.
  pose proof (attempts_limits endpoint fn (Z.to_nat (maxRetries this + 1))
                0 undefined this w0) as A.
  cbv zeta in A. observe. apply A; lia.
Qed.

Lemma call_preserves_store_ok {T} (endpoint : string) (fn : Thunk (T:=T))
    (this : RateLimiter) (w : W) :
  store_ok Date_now this ->
  store_ok Date_now (limiter_of (call Date_now sleep endpoint fn (this, w))).
Proof.
  intros Hok.
  destruct (call_limits endpoint fn this w) as [Hm [Hb Hl]].
  intros k s. rewrite Hm, Hb.
  destruct Hl as [-> | [s' [-> Hs']]]; [apply Hok|].
  destruct (decide (endpoint = k)) as [<-|Hne].
  - rewrite lookup_insert_eq. intros [= <-]. exact Hs'.
  - rewrite lookup_insert_ne by exact Hne. apply Hok.
Qed.

(** C5. Every entry the limiter ever stores, from the empty store of a
    new limiter on and across every call, has [remaining] 0 or 1;
    [remaining = 1] comes with [resetAt = 0]; and [remaining = 0] comes
    with a [resetAt] that is the clock read at a rate-limit failure plus
    the wait computed for that failure. *)
Theorem stored_states_invariant (opts : RateLimiterOpts) :
  store_ok Date_now (new_RateLimiter opts)
  /\ (forall (T : Type) (endpoint : string) (fn : Thunk (T:=T))
             (this : RateLimiter) (w : W),
        store_ok Date_now this ->
        store_ok Date_now
          (limiter_of (call Date_now sleep endpoint fn (this, w))))
  /\ (forall this k s,
        reachable Date_now sleep opts this ->
        limits this !! k = Some s ->
        (remaining s = of_Z 0 \/ remaining s = of_Z 1)
        /\ (remaining s = of_Z 1 -> resetAt s = of_Z 0)
        /\ (remaining s = of_Z 0 ->
            rate_limit_write Date_now (maxRetries this) (baseDelay this) s)).
Proof.
  assert (Hnew : store_ok Date_now (new_RateLimiter opts)).
  { intros k s. cbn. rewrite lookup_empty. discriminate. }
  split; [exact Hnew|]. split.
  - intros T endpoint fn this w. apply call_preserves_store_ok.
  - intros this k s Hreach Hk.
    assert (Hok : store_ok Date_now this).
    { clear Hk. induction Hreach as [|T this w endpoint fn _ IH];
        [exact Hnew | apply call_preserves_store_ok; exact IH]. }
    destruct (Hok k s Hk) as [_ H]. exact H.
Qed.

End StoreProperties.

(** C5 after a call that exhausted its retries: the entry of the endpoint
    is an exhausted one, written at a rate-limit failure. *)
Lemma stored_states_invariant_witness :
  let opts := {| opt_maxRetries := Some 2; opt_baseDelay := Some (of_Z 100) |} in
  let this := limiter_of (call clock timer "test" always_429
                            (new_RateLimiter opts, epoch)) in
  reachable clock timer opts this
  /\ exists s,
       limits this !! "test"%string = Some s
       /\ remaining s = of_Z 0
       /\ rate_limit_write clock (maxRetries this) (baseDelay this) s.
Proof.
  cbv zeta.
  set (opts := {| opt_maxRetries := Some 2; opt_baseDelay := Some (of_Z 100) |}).
  assert (R : reachable clock timer opts
                (limiter_of (call clock timer "test" always_429
                               (new_RateLimiter opts, epoch)))).
  { apply (reachable_call clock timer opts string). apply reachable_new. }
  split; [exact R|].
  eexists. split; [vm_compute; reflexivity|]. split; [reflexivity|].
  destruct (stored_states_invariant clock timer opts) as [_ [_ A]].
  pose proof (fun s Hk => proj2 (proj2 (A _ "test"%string s R Hk))) as A'.
  apply A'; [vm_compute; reflexivity | reflexivity].
Defined.

(* ===================================================================== *)
(** * Properties: bookmark rate and rating *)
(* ===================================================================== *)

(** ** Rounding never produces NaN *)

Lemma shr_1_nonneg (mrs : shr_record) :
  0 <= shr_m mrs -> 0 <= shr_m (shr_1 mrs).
Proof.
  destruct mrs as [m r s]. cbn [shr_m]. intros H.
  destruct m as [|[p|p|]|p]; cbn; lia.
Qed.

Lemma iter_pos_invariant {A} (P : A -> Prop) (f : A -> A) :
  (forall x, P x -> P (f x)) ->
  forall p x, P x -> P (SpecFloat.iter_pos f p x).
Proof.
  intros Hf. induction p as [p IH|p IH|]; intros x Hx; cbn; auto.
Qed.

Lemma shr_nonneg (mrs : shr_record) (e n : Z) :
  0 <= shr_m mrs -> 0 <= shr_m (fst (shr mrs e n)).
Proof.
  intros H. destruct n as [|p|p]; cbn [shr fst]; try exact H.
  apply (iter_pos_invariant (fun x => 0 <= shr_m x)); [apply shr_1_nonneg|exact H].
Qed.

Lemma shr_fexp_nonneg (m e : Z) (l : location) :
  0 <= m -> 0 <= shr_m (fst (shr_fexp prec emax m e l)).
Proof.
  intros H. unfold shr_fexp. apply shr_nonneg.
  destruct l as [|[]]; exact H.
Qed.

Lemma round_nearest_even_nonneg (m : Z) (l : location) :
  0 <= m -> 0 <= round_nearest_even m l.
Proof.
  intros H. destruct l as [|[]]; cbn; try lia. destruct (Z.even m); lia.
Qed.

Lemma binary_round_aux_not_nan (sx : bool) (mx ex : Z) (lx : location) :
  0 <= mx -> is_nan (binary_round_aux prec emax sx mx ex lx) = false.
Proof.
  intros H. unfold binary_round_aux.
  pose proof (shr_fexp_nonneg mx ex lx H) as H1.
  destruct (shr_fexp prec emax mx ex lx) as [mrs' e']. cbn [fst] in H1.
  pose proof (shr_fexp_nonneg _ e' loc_Exact
                (round_nearest_even_nonneg (shr_m mrs') (loc_of_shr_record mrs') H1))
    as H2.
  destruct (shr_fexp prec emax _ e' loc_Exact) as [mrs'' e'']. cbn [fst] in H2.
  destruct (shr_m mrs'') as [|m|m]; [reflexivity| |lia].
  destruct (e'' <=? emax - prec); reflexivity.
Qed.

Lemma div_core_nonneg (m1 m2 : positive) (e1 e2 : Z) :
  0 <= fst (fst (SFdiv_core_binary prec emax (Z.pos m1) e1 (Z.pos m2) e2)).
Proof.
  unfold SFdiv_core_binary.
  set (s := _ - _ - Z.min _ _).
  set (m' := match s with Z.pos _ => Z.shiftl (Z.pos m1) s | 0 => Z.pos m1
                     | Z.neg _ => 0 end).
  assert (Hm : 0 <= m').
  { subst m'. destruct s; try lia. apply Z.shiftl_nonneg. lia. }
  pose proof (Z.div_pos m' (Z.pos m2) Hm ltac:(lia)) as Hq.
  unfold Z.div in Hq. destruct (Z.div_eucl m' (Z.pos m2)) as [q r].
  exact Hq.
Qed.

(** A finite number divided by a number greater than zero is a number. *)
Lemma div_not_nan (b i : number) :
  is_finite b = true -> gtb i (of_Z 0) = true -> is_nan (div b i) = false.
Proof.
  intros Hb Hi.
  destruct i as [si|si| |si mi ei]; try destruct si; try discriminate Hi;
    destruct b as [sb|sb| |sb mb eb]; try discriminate Hb; try reflexivity.
  unfold div, SFdiv. fold prec emax.
  pose proof (div_core_nonneg mb mi eb ei) as H.
  destruct (SFdiv_core_binary prec emax (Z.pos mb) eb (Z.pos mi) ei) as [[mz ez] lz].
  apply binary_round_aux_not_nan. exact H.
Qed.

(** A number times a finite non-zero number is a number. *)
Lemma mul_finite_not_nan (x : number) (s : bool) (m : positive) (e : Z) :
  is_nan x = false -> is_nan (mul x (S754_finite s m e)) = false.
Proof.
  intros Hx. destruct x as [sx|sx| |sx mx ex]; try discriminate Hx;
    try reflexivity.
  unfold mul, SFmul. apply binary_round_aux_not_nan. lia.
Qed.

(** ** Comparisons *)

Lemma compare_antisym (x y : number) :
  SFcompare y x = option_map CompOpp (SFcompare x y).
Proof.
  destruct x as [sx|sx| |sx mx ex], y as [sy|sy| |sy my ey];
    try destruct sx; try destruct sy; try reflexivity; cbn;
    pose proof (Pos.compare_cont_antisym mx my Eq) as HP; cbn in HP;
    rewrite (Z.compare_antisym ey ex);
    destruct (ey ?= ex); cbn; try reflexivity;
    rewrite <- HP; try rewrite CompOpp_involutive; reflexivity.
Qed.

Lemma compare_numbers (x y : number) :
  is_nan x = false -> is_nan y = false -> exists c, SFcompare x y = Some c.
Proof.
  destruct x, y; try discriminate; intros _ _; cbn; eauto.
Qed.

(** For numbers, [not (x >= c)] is [x < c]. *)
Lemma not_geb_ltb (x c : number) :
  is_nan x = false -> is_nan c = false ->
  geb x c = false <-> ltb x c = true.
Proof.
  intros Hx Hc. unfold geb, leb, ltb, SFleb, SFltb.
  rewrite (compare_antisym x c).
  destruct (compare_numbers x c Hx Hc) as [[] ->]; cbn; split; congruence.
Qed.

Lemma geb_8_5 (x : number) : geb x (of_Z 8) = true -> geb x (of_Z 5) = true.
Proof.
  destruct x as [s|s| |s m e]; try destruct s; try (vm_compute; congruence).
  change (of_Z 8) with (S754_finite false 4503599627370496 (-49)).
  change (of_Z 5) with (S754_finite false 5629499534213120 (-50)).
  unfold geb, leb, SFleb, SFcompare.
  destruct (Z.compare_spec (-49) e), (Z.compare_spec (-50) e);
    try lia; try congruence.
Qed.

Lemma geb_5_2 (x : number) : geb x (of_Z 5) = true -> geb x (of_Z 2) = true.
Proof.
  destruct x as [s|s| |s m e]; try destruct s; try (vm_compute; congruence).
  change (of_Z 5) with (S754_finite false 5629499534213120 (-50)).
  change (of_Z 2) with (S754_finite false 4503599627370496 (-51)).
  unfold geb, leb, SFleb, SFcompare.
  destruct (Z.compare_spec (-50) e), (Z.compare_spec (-51) e);
    try lia; try congruence.
Qed.

(** The rate [measureArticle] computes is never NaN when the bookmark count
    is a finite number. *)
Lemma rawBookmarkRate_not_nan (m : Metrics) :
  is_finite (bookmarks m) = true -> is_nan (rawBookmarkRate m) = false.
Proof.
  intros Hb. unfold rawBookmarkRate.
  destruct (gtb (impressions m) (of_Z 0)) eqn:Hi; [|reflexivity].
  change (of_Z 100) with (S754_finite false 7036874417766400 (-46)).
  apply mul_finite_not_nan, div_not_nan; assumption.
Qed.

(** The rating of a rate that is a number. *)
Lemma rate_rating_thresholds (rate : number) :
  is_nan rate = false ->
  (rate_rating rate = Exceptional <-> geb rate (of_Z 8) = true)
  /\ (rate_rating rate = Good <->
      geb rate (of_Z 5) = true /\ ltb rate (of_Z 8) = true)
  /\ (rate_rating rate = Okay <->
      geb rate (of_Z 2) = true /\ ltb rate (of_Z 5) = true)
  /\ (rate_rating rate = Failed <-> ltb rate (of_Z 2) = true).
Proof.
  intros Hnan.
  rewrite <- (not_geb_ltb rate (of_Z 8) Hnan eq_refl).
  rewrite <- (not_geb_ltb rate (of_Z 5) Hnan eq_refl).
  rewrite <- (not_geb_ltb rate (of_Z 2) Hnan eq_refl).
  pose proof (geb_8_5 rate) as T85. pose proof (geb_5_2 rate) as T52.
  unfold rate_rating.
  destruct (geb rate (of_Z 8)); [specialize (T85 eq_refl)|];
    (destruct (geb rate (of_Z 5)); [specialize (T52 eq_refl)|]);
    destruct (geb rate (of_Z 2));
    try discriminate; repeat split; intros; try congruence;
    intuition congruence.
Qed.

(** C9. For a tweet with metrics, the bookmark rate is
    [bookmarks / impressions * 100], and 0 when there are no impressions;
    the rating is "exceptional" iff [rate >= 8], "good" iff
    [5 <= rate < 8], "ok" iff [2 <= rate < 5] and "failed" iff [rate < 2],
    so a tweet without impressions is rated "failed".  The rate reported
    in the result is this rate rounded to two decimals. *)
Theorem bookmark_rate_rating (tweet : TweetData) (m : Metrics) :
  metrics tweet = Some m ->
  is_finite (bookmarks m) = true ->
  let rate :=
    if gtb (impressions m) (of_Z 0)
    then mul (div (bookmarks m) (impressions m)) (of_Z 100)
    else of_Z 0 in
  exists a,
    measureArticle (Some tweet) = Some a
    /\ bookmarkRate a = div (Math_round (mul rate (of_Z 100))) (of_Z 100)
    /\ (rating a = Exceptional <-> geb rate (of_Z 8) = true)
    /\ (rating a = Good <-> geb rate (of_Z 5) = true /\ ltb rate (of_Z 8) = true)
    /\ (rating a = Okay <-> geb rate (of_Z 2) = true /\ ltb rate (of_Z 5) = true)
    /\ (rating a = Failed <-> ltb rate (of_Z 2) = true)
    /\ (is_zero (impressions m) = true -> rate = of_Z 0 /\ rating a = Failed).
Proof.
  intros Hm Hb. pose proof (rawBookmarkRate_not_nan m Hb) as Hnan.
  unfold measureArticle. rewrite Hm. cbv zeta. eexists.
  split; [reflexivity|]. cbn [bookmarkRate rating].
  fold (rawBookmarkRate m).
  destruct (rate_rating_thresholds (rawBookmarkRate m) Hnan)
    as [H8 [H5 [H2 H0]]].
  split; [reflexivity|]. split; [exact H8|]. split; [exact H5|].
  split; [exact H2|]. split; [exact H0|].
  intros Hz. unfold rawBookmarkRate.
  destruct (impressions m) as [[]| | |]; try discriminate Hz;
    split; reflexivity.
Qed.

(** C9 at the tweet of the unit tests: 21 bookmarks for 228 impressions is
    a rate between 9 and 10, rated "exceptional". *)
Lemma bookmark_rate_rating_witness :
  metrics test_tweet = Some test_metrics
  /\ is_finite (bookmarks test_metrics) = true
  /\ exists a,
       measureArticle (Some test_tweet) = Some a
       /\ rating a = Exceptional
       /\ bookmarkRate a = div (of_Z 921) (of_Z 100).
Proof.
  assert (Hm : metrics test_tweet = Some test_metrics) by reflexivity.
  assert (Hb : is_finite (bookmarks test_metrics) = true) by reflexivity.
  split; [exact Hm|]. split; [exact Hb|].
  destruct (bookmark_rate_rating test_tweet test_metrics Hm Hb)
    as [a [Ha [Hr [H8 _]]]].
  exists a. split; [exact Ha|]. split.
  - apply H8. vm_compute. reflexivity.
  - rewrite Hr. vm_compute. reflexivity.
Defined.

(** The rating is taken from the rate before it is rounded: 7996 bookmarks
    for 100000 impressions is a rate of 7.996, rated "good", and reported
    as 8. *)
Example rating_uses_unrounded_rate :
  let m := {| likes := of_Z 0; retweets := of_Z 0; replies := of_Z 0;
              quotes := of_Z 0; bookmarks := of_Z 7996;
              impressions := of_Z 100000 |} in
  let t := {| tweet_id := "1"; tweet_text := "t"; metrics := Some m |} in
  (rating <$> measureArticle (Some t)) = Some Good
  /\ (bookmarkRate <$> measureArticle (Some t)) = Some (of_Z 8).
Proof. vm_compute. split; reflexivity. Qed.

(* ===================================================================== *)
(** * Properties: the scheduling service client *)
(* ===================================================================== *)

Section SchedulerProperties.

Context {W Json : Type}.
Variable fetch : Request -> W -> Completion Response * W.
Variable JSON_stringify : Json -> string.
Variable JSON_parse : string -> Completion Json.

(** [request] turns a response outside 200-299 into one error that
    carries the method, the path, the status and the body text, after a
    single [fetch]. *)
Lemma request_non_2xx (this : Scheduler) (method path : string)
    (body : option Json) (w w' : W) (res : Response) :
  fetch (request_sent JSON_stringify this method path body) w = (Resolved res, w') ->
  ok res = false ->
  request fetch JSON_stringify JSON_parse this method path body w
  = (Rejected (new_Error ("Scheduler " ++ method ++ " " ++ path ++ ": "
                            ++ Str.of_nat (status res) ++ " " ++ body_text res)),
     w', [request_sent JSON_stringify this method path body]).
Proof.
  intros E Hok. unfold request. fold (request_sent JSON_stringify this method path body).
  rewrite E, Hok. reflexivity.
Qed.

(** [health] hands the body of any response to the JSON parser, whatever
    the status. *)
Lemma health_any_status (this : Scheduler) (w w' : W) (res : Response) :
  let req := {| url := (baseUrl this ++ "/health")%string; method := "GET";
                headers := []; body := None |} in
  fetch req w = (Resolved res, w') ->
  health fetch JSON_parse this w = (json JSON_parse res, w', [req]).
Proof. intros req E. unfold health. fold req. rewrite E. reflexivity. Qed.

End SchedulerProperties.

(** The routes that go through [request] raise the descriptive error on a
    503 response. *)
Lemma routes_raise_on_503 (opts : string) (st : option PostStatus) :
  let failure method path :=
    Rejected (new_Error ("Scheduler " ++ method ++ " " ++ path ++ ": 503 "
                           ++ Example.down_body)) in
  completion_of_net (schedule Example.fetch_down id Resolved Example.example_scheduler opts tt)
  = failure "POST" "/schedule"
  /\ completion_of_net (scheduleBatch Example.fetch_down id Resolved Example.example_scheduler opts tt)
     = failure "POST" "/schedule-batch"
  /\ completion_of_net (scheduleThread Example.fetch_down id Resolved Example.example_scheduler opts tt)
     = failure "POST" "/schedule-thread"
  /\ completion_of_net (cancel Example.fetch_down id Resolved Example.example_scheduler opts tt)
     = failure "POST" "/cancel"
  /\ completion_of_net (listPosts Example.fetch_down id Resolved Example.example_scheduler st tt)
     = failure "GET" (match st with
                      | Some s => ("/posts?status=" ++ PostStatus_to_string s)%string
                      | None => "/posts"%string
                      end).
Proof. repeat split. Qed.

(** C8 (the code departs from the specification on [GET /health]). On a 503
    response [health] raises no error: it resolves with the parsed body,
    where every other route rejects with the descriptive error. *)
Theorem health_resolves_on_503 :
  health Example.fetch_down Resolved Example.example_scheduler tt
  = (Resolved Example.down_body, tt,
     [ {| url := "https://example.com/health"; method := "GET";
          headers := []; body := None |} ])
  /\ ok {| status := 503; text := Resolved Example.down_body |} = false.
Proof. split; reflexivity. Qed.

(* ===================================================================== *)
(** * Properties: credentials from the environment *)
(* ===================================================================== *)

Lemma truthy_env_missing (process_env : gmap string string) (var : string) :
  negb (truthy_env (process_env !! var)) = is_missing process_env var.
Proof.
  unfold is_missing. destruct (process_env !! var) as [[|c v]|]; reflexivity.
Qed.

Lemma envFromProcess_missing (process_env : gmap string string) :
  missing_fields process_env <> [] ->
  envFromProcess process_env
  = Rejected (new_Error ("Missing env vars: "
                           ++ Str.join ", " (missing_fields process_env))).
Proof.
  unfold envFromProcess, missing_fields, required_entries, credentials.
  cbn [List.filter List.map fst snd].
  rewrite !truthy_env_missing.
  destruct (is_missing process_env "X_CONSUMER_KEY");
    destruct (is_missing process_env "X_CONSUMER_SECRET");
    destruct (is_missing process_env "X_ACCESS_TOKEN");
    destruct (is_missing process_env "X_ACCESS_TOKEN_SECRET");
    destruct (is_missing process_env "X_BEARER_TOKEN");
    cbn [List.map fst length Nat.ltb Nat.leb]; intros H;
    try reflexivity; congruence.
Qed.

(** What [envFromProcess] does, for every environment.  Each of the five
    required variables is missing when it is unset or empty.  If one is
    missing the function throws an error whose message is
    "Missing env vars: " followed by the comma-separated names of the
    [CosmoEnv] fields of the missing variables; otherwise it returns a
    config with the five values, none of them empty. *)
Lemma envFromProcess_required (process_env : gmap string string) :
  (forall field var,
     In (field, var) credentials ->
     (In field (missing_fields process_env) <->
      process_env !! var = None \/ process_env !! var = Some EmptyString))
  /\ (missing_fields process_env <> [] ->
      envFromProcess process_env
      = Rejected (new_Error ("Missing env vars: "
                               ++ Str.join ", " (missing_fields process_env))))
  /\ (missing_fields process_env = [] ->
      exists ck cs at_ ats bt,
        process_env !! "X_CONSUMER_KEY"%string = Some ck /\ ck <> EmptyString
        /\ process_env !! "X_CONSUMER_SECRET"%string = Some cs /\ cs <> EmptyString
        /\ process_env !! "X_ACCESS_TOKEN"%string = Some at_ /\ at_ <> EmptyString
        /\ process_env !! "X_ACCESS_TOKEN_SECRET"%string = Some ats
        /\ ats <> EmptyString
        /\ process_env !! "X_BEARER_TOKEN"%string = Some bt /\ bt <> EmptyString
        /\ envFromProcess process_env
           = Resolved
               {| consumerKey := ck; consumerSecret := cs; accessToken := at_;
                  accessTokenSecret := ats; bearerToken := bt;
                  schedulerUrl :=
                    match process_env !! "SCHEDULER_URL"%string with
                    | Some v => Some v
                    | None => process_env !! "SCHEDULER_API_URL"%string
                    end;
                  schedulerKey := process_env !! "SCHEDULER_API_KEY"%string |}).
Proof.
  split; [|split].
  - intros field var Hin. unfold missing_fields, credentials in *.
    cbn [List.filter snd]. unfold is_missing.
    cbn [In] in Hin.
    destruct Hin as [[= <- <-]|[[= <- <-]|[[= <- <-]|[[= <- <-]|[[= <- <-]|[]]]]]];
      destruct (process_env !! "X_CONSUMER_KEY"%string) as [[|c1 v1]|];
      destruct (process_env !! "X_CONSUMER_SECRET"%string) as [[|c2 v2]|];
      destruct (process_env !! "X_ACCESS_TOKEN"%string) as [[|c3 v3]|];
      destruct (process_env !! "X_ACCESS_TOKEN_SECRET"%string) as [[|c4 v4]|];
      destruct (process_env !! "X_BEARER_TOKEN"%string) as [[|c5 v5]|];
      cbn; split; intros H; try tauto; try (left; reflexivity);
      try (right; reflexivity);
      repeat match goal with
             | H : _ \/ _ |- _ => destruct H
             | H : False |- _ => destruct H
             end; try discriminate; auto.
  - apply envFromProcess_missing.
  - unfold missing_fields, credentials, envFromProcess, required_entries.
    cbn [List.filter List.map fst snd]. rewrite !truthy_env_missing.
    unfold is_missing.
    destruct (process_env !! "X_CONSUMER_KEY"%string) as [[|c1 v1]|];
      cbn [String.eqb List.map fst]; try discriminate;
      destruct (process_env !! "X_CONSUMER_SECRET"%string) as [[|c2 v2]|];
      cbn [String.eqb List.map fst]; try discriminate;
      destruct (process_env !! "X_ACCESS_TOKEN"%string) as [[|c3 v3]|];
      cbn [String.eqb List.map fst]; try discriminate;
      destruct (process_env !! "X_ACCESS_TOKEN_SECRET"%string) as [[|c4 v4]|];
      cbn [String.eqb List.map fst]; try discriminate;
      destruct (process_env !! "X_BEARER_TOKEN"%string) as [[|c5 v5]|];
      cbn [String.eqb List.map fst]; try discriminate.
    intros _. do 5 eexists. repeat (split; [try reflexivity; discriminate|]).
    reflexivity.
Qed.

(** C10 (the code departs from the specification in the text of the
    error).  Unset and empty credentials are rejected, but the message does
    not list the names of the missing variables: with [X_BEARER_TOKEN] unset
    it reads "Missing env vars: bearerToken", the name of the [CosmoEnv]
    field, and the variable's name occurs nowhere in it. *)
Theorem envFromProcess_message_names_field :
  Example.env_without_bearer !! "X_BEARER_TOKEN"%string = None
  /\ envFromProcess Example.env_without_bearer
     = Rejected (new_Error "Missing env vars: bearerToken")
  /\ Str.includes "X_BEARER_TOKEN" "Missing env vars: bearerToken" = false
  /\ ~ (forall process_env var,
          In var (List.map snd credentials) ->
          process_env !! var = None ->
          exists message,
            envFromProcess process_env = Rejected (new_Error message)
            /\ contains var message).
Proof.
  split; [reflexivity|]. split; [vm_compute; reflexivity|].
  split; [reflexivity|].
  intros H.
  destruct (H Example.env_without_bearer "X_BEARER_TOKEN"%string) as [message [E C]].
  - cbn. tauto.
  - reflexivity.
  - assert (message = "Missing env vars: bearerToken"%string) as ->.
    { vm_compute in E. congruence. }
    apply includes_contains in C. discriminate.
Qed.

(* ===================================================================== *)
(** * The unit tests of the repository, replayed on the embedding *)
(* ===================================================================== *)

(** "passes through successful calls". *)
Example test_passes_through :
  completion_of
    (call clock timer "test" (fun w => (Resolved "hello"%string, remote w))
       (test_limiter, epoch))
  = Resolved "hello"%string.
Proof. vm_compute. reflexivity. Qed.

(** "throws non-429 errors immediately": the message is untouched and
    nothing is logged. *)
Example test_throws_other_errors :
  let r := call clock timer "test" always_403 (test_limiter, epoch) in
  completion_of r = Rejected (new_Error "HTTP 403: Forbidden")
  /\ logged (events_of r) = 0%nat.
Proof. vm_compute. split; reflexivity. Qed.

(** "retries multiple times on repeated 429s": three attempts, two retry
    notices. *)
Example test_retries_multiple_times :
  let r := call clock timer "test" third_time_lucky (test_limiter, epoch) in
  completion_of r = Resolved "finally"%string
  /\ snd (world_of r) = 3%nat
  /\ logged (events_of r) = 2%nat.
Proof. vm_compute. repeat split; reflexivity. Qed.

(** "gives up after maxRetries": initial attempt and two retries. *)
Example test_gives_up :
  let r := call clock timer "test" always_429 (test_limiter, epoch) in
  completion_of r = Rejected (new_Error "HTTP 429: Too Many Requests")
  /\ snd (world_of r) = 3%nat.
Proof. vm_compute. split; reflexivity. Qed.

(** "returns true when exhausted and reset is in future" and "does not
    cross-contaminate rate limits". *)
Example test_isLimited_after_exhaustion :
  let r := call clock timer "endpoint-a" always_429 (test_limiter, epoch) in
  completion_of (isLimited (T:=string) clock "endpoint-a" (limiter_of r, world_of r))
  = Resolved true
  /\ completion_of (isLimited (T:=string) clock "endpoint-b" (limiter_of r, world_of r))
     = Resolved false
  /\ completion_of (isLimited (T:=string) clock "unknown" (test_limiter, epoch))
     = Resolved false.
Proof. vm_compute. repeat split; reflexivity. Qed.

(** "waits before calling an exhausted endpoint": the second call sleeps
    before it invokes the thunk. *)
Example test_pre_wait :
  let r := call clock timer "slow" always_429 (test_limiter, epoch) in
  let r' := call clock timer "slow" (fun w => (Resolved "ok"%string, remote w))
              (limiter_of r, world_of r) in
  match events_of r' with
  | [EvLog (LogPreWait _ _); EvSleep _; EvInvoke (Resolved _)] => True
  | _ => False
  end.
Proof. vm_compute. exact I. Qed.

(** "Bookmark Rate Rating": the boundaries of the four bands. *)
Example test_rating_bands :
  let percent (hundredths : Z) := div (of_Z hundredths) (of_Z 100) in
  List.map (fun h => rate_rating (percent h))
           [800; 920; 1500; 500; 650; 799; 200; 300; 499; 0; 100; 199]
  = [Exceptional; Exceptional; Exceptional; Good; Good; Good;
     Okay; Okay; Okay; Failed; Failed; Failed].
Proof. vm_compute. reflexivity. Qed.

(** "strips trailing slash from baseUrl". *)
Example test_strips_trailing_slash :
  baseUrl (new_Scheduler "https://example.com/" "test-key") = "https://example.com"%string.
Proof. reflexivity. Qed.

(* ===================================================================== *)
(** * Further properties of the retry executor *)
(* ===================================================================== *)

Lemma sleeps_app {T} (evs1 evs2 : list (Event T)) :
  sleeps (evs1 ++ evs2) = sleeps evs1 ++ sleeps evs2.
Proof. unfold sleeps. apply omap_app. Qed.

Lemma sleeps_cons {T} (ev : Event T) (evs : list (Event T)) :
  sleeps (ev :: evs)
  = match ev with EvSleep ms => ms :: sleeps evs | _ => sleeps evs end.
Proof. destruct ev; reflexivity. Qed.

Lemma snoc_cases {A} (x c : A) (m l : list A) :
  x :: m = l ++ [c] ->
  (m = [] /\ l = [] /\ x = c) \/ exists l', l = x :: l' /\ m = l' ++ [c].
Proof.
  destruct l as [|y l']; cbn.
  - intros [= -> ->]. left. auto.
  - intros [= -> ->]. right. eauto.
Qed.

Section CallFurther.

Context {W : Type}.
Variable Date_now : W -> number * W.
Variable sleep : number -> W -> W.

Local Abbreviation attempts' := (attempts Date_now sleep).
Local Abbreviation call' := (call Date_now sleep).
Local Abbreviation precheck' := (precheck Date_now sleep).

(** An iteration whose invocation fails with a rate-limit error, with
    everything it does spelled out: the retry notice and the sleep happen
    exactly when the attempt is not the last one. *)
Lemma attempts_rate_limited_exact {T} (endpoint : string) (fn : Thunk (T:=T))
    (n : nat) (attempt : Z) (lastError : JsValue) (this : RateLimiter)
    (w w1 : W) (err : JsValue) :
  fn w = (Rejected err, w1) -> is429 err = true ->
  exists waitMs w2,
    getWaitMs (T:=T) Date_now err attempt (this, w1)
    = (Resolved waitMs, (this, w2), [])
    /\ attempts' endpoint fn (S n) attempt lastError (this, w) =
       let s := exhausted_state endpoint (fst (Date_now w2)) waitMs
                  (fst (Date_now (snd (Date_now w2)))) in
       let w4 := snd (Date_now (snd (Date_now w2))) in
       let retry := attempt <? maxRetries this in
       let r := attempts' endpoint fn n (attempt + 1) err
                  (set_limits this (<[endpoint := s]> (limits this)),
                   if retry then sleep waitMs w4 else w4) in
       (completion_of r, (limiter_of r, world_of r),
        EvInvoke (Rejected err)
        :: (if retry
            then [EvLog (LogRetry endpoint (attempt + 1) (maxRetries this) waitMs);
                  EvSleep waitMs]
            else [])
        ++ events_of r).
Proof.
  intros E H.
  destruct (getWaitMs_resolves Date_now (T:=T) err attempt this w1)
    as [waitMs [w2 G]].
  exists waitMs, w2. split; [exact G|]. cbv zeta.
  cbn [attempts]. unfold bind at 1. unfold try_await. rewrite E, H.
  cbn [negb]. unfold bind at 1. rewrite G.
  unfold bind at 1. unfold now_ at 1. destruct (Date_now w2) as [now1 w3].
  cbn [fst snd].
  unfold bind at 1. unfold now_ at 1. destruct (Date_now w3) as [now2 w4].
  cbn [fst snd].
  unfold bind at 1. unfold limits_set. unfold bind at 1. unfold this_.
  cbn [fst snd maxRetries set_limits].
  destruct (attempt <? maxRetries this).
  - unfold bind, log_, sleep_.
    destruct (attempts _ _ _ _ _ _ _ _) as [[c [this' w']] evs'].
    reflexivity.
  - unfold bind, ret.
    destruct (attempts _ _ _ _ _ _ _ _) as [[c [this' w']] evs'].
    reflexivity.
Qed.

(** The call for a whole run of the loop. *)
Lemma call_as_attempts {T} (endpoint : string) (fn : Thunk (T:=T))
    (this : RateLimiter) (w : W) :
  exists w0 (evs0 : list (Event T)),
    precheck' endpoint (this, w) = (Resolved tt, (this, w0), evs0)
    /\ invocations evs0 = []
    /\ call' endpoint fn (this, w) =
       let r := attempts' endpoint fn (Z.to_nat (maxRetries this + 1)) 0
                  undefined (this, w0) in
       (completion_of r, (limiter_of r, world_of r), evs0 ++ events_of r).
Proof.
  destruct (precheck_resolves Date_now sleep (T:=T) endpoint this w)
    as [w0 [evs0 [P Hev0]]].
  exists w0, evs0. split; [exact P|]. split; [exact Hev0|].
  apply call_unfold. exact P.
Qed.

(** *** A call touches one label only *)

(** X1. A call leaves the entry of every other label, and the configuration
    of the limiter, as they were. *)
Theorem call_other_labels_untouched {T} (endpoint : string) (fn : Thunk (T:=T))
    (this : RateLimiter) (w : W) (other : string) :
  other <> endpoint ->
  let r := call' endpoint fn (this, w) in
  limits (limiter_of r) !! other = limits this !! other
  /\ maxRetries (limiter_of r) = maxRetries this
  /\ baseDelay (limiter_of r) = baseDelay this.
Proof.
  intros Hne. cbv zeta.
  destruct (call_limits Date_now sleep endpoint fn this w) as [Hm [Hb Hl]].
  split; [|split; assumption].
  destruct Hl as [-> | [s [-> _]]]; [reflexivity|].
  apply lookup_insert_ne. congruence.
Qed.

(** *** The call ends with the attempt that decides it *)

Lemma attempts_last_event {T} (endpoint : string) (fn : Thunk (T:=T)) (n : nat) :
  forall attempt lastError this w,
    Z.of_nat (S n) = maxRetries this + 1 - attempt ->
    let r := attempts' endpoint fn (S n) attempt lastError (this, w) in
    last (events_of r) = Some (EvInvoke (completion_of r)).
Proof.
  induction n as [|n IH]; intros attempt lastError this w Hn;
    destruct (fn w) as [[v|err] w1] eqn:E.
  - cbv zeta. rewrite (attempts_success _ _ _ _ _ _ _ _ _ _ _ E). reflexivity.
  - destruct (is429 err) eqn:H.
    + destruct (attempts_rate_limited_exact endpoint fn 0 attempt lastError
                  this w w1 err E H) as [waitMs [w2 [_ ->]]].
      cbv zeta. replace (attempt <? maxRetries this) with false
        by (symmetry; apply Z.ltb_ge; lia).
      reflexivity.
    + cbv zeta. rewrite (attempts_other_failure _ _ _ _ _ _ _ _ _ _ _ E H).
      reflexivity.
  - cbv zeta. rewrite (attempts_success _ _ _ _ _ _ _ _ _ _ _ E). reflexivity.
  - destruct (is429 err) eqn:H.
    + destruct (attempts_rate_limited_exact endpoint fn (S n) attempt lastError
                  this w w1 err E H) as [waitMs [w2 [_ ->]]].
      cbv zeta. observe.
      match goal with |- context [attempts ?x1 ?x2 ?x3 ?x4 ?x5 ?x6 ?x7 ?x8] =>
        pose proof (IH x6 x7 (fst x8) (snd x8)) as IH' end.
      cbv zeta in IH'. observe. cbn [maxRetries set_limits] in IH'.
      specialize (IH' ltac:(lia)).
      rewrite app_comm_cons, last_app, IH'. reflexivity.
    + cbv zeta. rewrite (attempts_other_failure _ _ _ _ _ _ _ _ _ _ _ E H).
      reflexivity.
Qed.

(** X2. With a non-negative [maxRetries], the last thing a call does is
    invoke the thunk, and the call completes as that invocation did: it
    neither waits after its final attempt nor replaces the outcome. *)
Theorem call_ends_with_deciding_attempt {T} (endpoint : string)
    (fn : Thunk (T:=T)) (this : RateLimiter) (w : W) :
  0 <= maxRetries this ->
  let r := call' endpoint fn (this, w) in
  last (events_of r) = Some (EvInvoke (completion_of r)).
Proof.
  intros Hmax. cbv zeta.
  destruct (call_as_attempts endpoint fn this w) as [w0 [evs0 [_ [_ ->]]]].
  cbv zeta. observe.
  destruct (Z.to_nat (maxRetries this + 1)) as [|n] eqn:Hn; [lia|].
  pose proof (attempts_last_event endpoint fn n 0 undefined this w0) as L.
  cbv zeta in L. observe. rewrite last_app, L by lia. reflexivity.
Qed.

(** *** Only rate-limit failures are retried *)

Lemma attempts_retries_only_rate_limits {T} (endpoint : string)
    (fn : Thunk (T:=T)) (n : nat) :
  forall attempt lastError this w l c,
    invocations (events_of (attempts' endpoint fn n attempt lastError (this, w)))
    = l ++ [c] ->
    Forall rate_limit_rejection l.
Proof.
  induction n as [|n IH]; intros attempt lastError this w l c.
  - cbn. intros H. destruct l; discriminate.
  - destruct (fn w) as [[v|err] w1] eqn:E.
    + rewrite (attempts_success _ _ _ _ _ _ _ _ _ _ _ E). observe.
      rewrite invocations_invoke. intros H.
      apply snoc_cases in H as [[_ [-> _]]|[l' [_ H]]]; [constructor|].
      destruct l'; discriminate.
    + destruct (is429 err) eqn:H.
      * destruct (attempts_rate_limited Date_now sleep endpoint fn n attempt
                    lastError this w w1 err E H)
          as [waitMs [w2 [w3 [evs [_ [Hev ->]]]]]].
        cbv zeta. observe.
        rewrite invocations_invoke, invocations_app, Hev. cbn [app].
        intros Hl.
        apply snoc_cases in Hl as [[_ [-> _]]|[l' [-> Hl]]]; [constructor|].
        constructor; [exists err; auto|].
        match goal with H0 : invocations (snd (attempts ?x1 ?x2 ?x3 ?x4 ?x5 ?x6 ?x7 ?x8)) = _ |- _ =>
          apply (IH x6 x7 (fst x8) (snd x8) l' c) end.
        observe. exact Hl.
      * rewrite (attempts_other_failure _ _ _ _ _ _ _ _ _ _ _ E H). observe.
        rewrite invocations_invoke. intros H0.
        apply snoc_cases in H0 as [[_ [-> _]]|[l' [_ H0]]]; [constructor|].
        destruct l'; discriminate.
Qed.

(** X3. Whatever the thunk does, every invocation of a call but the last
    one failed with a rate-limit error: nothing else is ever retried, and
    nothing is invoked after a success. *)
Theorem call_retries_only_rate_limits {T} (endpoint : string)
    (fn : Thunk (T:=T)) (this : RateLimiter) (w : W)
    (earlier : list (Completion T)) (final : Completion T) :
  invocations (events_of (call' endpoint fn (this, w))) = earlier ++ [final] ->
  Forall rate_limit_rejection earlier.
Proof.
  destruct (call_as_attempts endpoint fn this w) as [w0 [evs0 [_ [Hev0 ->]]]].
  cbv zeta. observe. rewrite invocations_app, Hev0. cbn [app].
  apply attempts_retries_only_rate_limits.
Qed.

(** *** The exponential schedule *)

Lemma getWaitMs_without_hint {T} (err : JsValue) (attempt : Z)
    (this : RateLimiter) (w : W) :
  reset_header err = None ->
  getWaitMs (T:=T) Date_now err attempt (this, w)
  = (Resolved (mul (baseDelay this) (Math_pow2 attempt)), (this, w), []).
Proof.
  intros H. unfold getWaitMs, bind.
  rewrite extractResetSeconds_cases, H. reflexivity.
Qed.

Lemma attempts_backoff_schedule {T} (endpoint : string) (fn : Thunk (T:=T)) :
  always_rate_limited_without_hint fn ->
  forall n attempt lastError this w,
    Z.of_nat n = maxRetries this + 1 - attempt ->
    sleeps (events_of (attempts' endpoint fn n attempt lastError (this, w)))
    = List.map (fun k => mul (baseDelay this) (Math_pow2 (attempt + Z.of_nat k)))
               (seq 0 (n - 1)).
Proof.
  intros Hfn n. induction n as [|n IH]; intros attempt lastError this w Hn.
  - reflexivity.
  - destruct (Hfn w) as [err [w1 [E [H Hh]]]].
    destruct (attempts_rate_limited_exact endpoint fn n attempt lastError
                this w w1 err E H) as [waitMs [w2 [G ->]]].
    rewrite (getWaitMs_without_hint err attempt this w1 Hh) in G.
    injection G as <- <-.
    cbv zeta. observe.
    match goal with |- context [attempts ?x1 ?x2 ?x3 ?x4 ?x5 ?x6 ?x7 ?x8] =>
      pose proof (IH x6 x7 (fst x8) (snd x8)) as IH' end.
    observe. cbn [maxRetries baseDelay set_limits] in IH'.
    specialize (IH' ltac:(lia)).
    rewrite sleeps_cons, sleeps_app, IH'.
    destruct n as [|n].
    + replace (attempt <? maxRetries this) with false
        by (symmetry; apply Z.ltb_ge; lia).
      reflexivity.
    + replace (attempt <? maxRetries this) with true
        by (symmetry; apply Z.ltb_lt; lia).
      rewrite !sleeps_cons. cbn [sleeps omap app].
      replace (S (S n) - 1)%nat with (S (S n - 1)) by lia.
      cbn [seq List.map]. rewrite Z.add_0_r. f_equal.
      rewrite <- seq_shift, List.map_map. apply List.map_ext.
      intros k. do 2 f_equal. lia.
Qed.

(** X4. On a label without an entry, a call whose thunk is rate-limited
    every time, with errors that carry no reset header, sleeps
    [baseDelay], [2 * baseDelay], [4 * baseDelay], ...: [maxRetries]
    delays, one between two attempts, each twice the one before. *)
Theorem call_backoff_schedule {T} (endpoint : string) (fn : Thunk (T:=T))
    (this : RateLimiter) (w : W) :
  0 <= maxRetries this ->
  limits this !! endpoint = None ->
  always_rate_limited_without_hint fn ->
  sleeps (events_of (call' endpoint fn (this, w)))
  = backoff_schedule (baseDelay this) (Z.to_nat (maxRetries this)).
Proof.
  intros Hmax Hfresh Hfn.
  assert (P : precheck Date_now sleep (T:=T) endpoint (this, w)
              = (Resolved tt, (this, w), [])).
  { unfold precheck, bind, limits_get. cbn [fst]. rewrite Hfresh. reflexivity. }
  rewrite (call_unfold Date_now sleep endpoint fn this w w [] P).
  cbv zeta.
  pose proof (attempts_backoff_schedule endpoint fn Hfn
                (Z.to_nat (maxRetries this + 1)) 0 undefined this w
                ltac:(lia)) as A.
  observe. cbn [app]. rewrite A. unfold backoff_schedule.
  replace (Z.to_nat (maxRetries this + 1) - 1)%nat
    with (Z.to_nat (maxRetries this)) by lia.
  reflexivity.
Qed.

(** *** What a call leaves behind *)

Lemma attempts_resolved_entry {T} (endpoint : string) (fn : Thunk (T:=T))
    (n : nat) :
  forall attempt lastError this w v,
    let r := attempts' endpoint fn n attempt lastError (this, w) in
    completion_of r = Resolved v ->
    exists now,
      limits (limiter_of r) !! endpoint = Some (healthy_state endpoint now).
Proof.
  induction n as [|n IH]; intros attempt lastError this w v.
  - cbn. discriminate.
  - destruct (fn w) as [[v'|err] w1] eqn:E.
    + cbv zeta. rewrite (attempts_success _ _ _ _ _ _ _ _ _ _ _ E). observe.
      intros _. eexists. cbn [limits set_limits]. apply lookup_insert_eq.
    + destruct (is429 err) eqn:H.
      * destruct (attempts_rate_limited Date_now sleep endpoint fn n attempt
                    lastError this w w1 err E H)
          as [waitMs [w2 [w3 [evs [_ [_ ->]]]]]].
        cbv zeta. observe.
        match goal with |- context [attempts ?x1 ?x2 ?x3 ?x4 ?x5 ?x6 ?x7 ?x8] =>
          pose proof (IH x6 x7 (fst x8) (snd x8) v) as IH' end.
        cbv zeta in IH'. observe. exact IH'.
      * cbv zeta. rewrite (attempts_other_failure _ _ _ _ _ _ _ _ _ _ _ E H).
        observe. discriminate.
Qed.

(** X5. After a call that resolved, the label is not limited and the next
    call on it starts at once, whatever the time: [isLimited] answers
    false and the pre-check neither reads the clock nor waits. *)
Theorem resolved_call_clears_limit {T} (endpoint : string) (fn : Thunk (T:=T))
    (this : RateLimiter) (w : W) (v : T) :
  let r := call' endpoint fn (this, w) in
  completion_of r = Resolved v ->
  forall w' : W,
    isLimited (T:=T) Date_now endpoint (limiter_of r, w')
    = (Resolved false, (limiter_of r, w'), [])
    /\ precheck Date_now sleep (T:=T) endpoint (limiter_of r, w')
       = (Resolved tt, (limiter_of r, w'), []).
Proof.
  cbv zeta.
  destruct (call_as_attempts endpoint fn this w) as [w0 [evs0 [_ [_ ->]]]].
  cbv zeta. observe. intros Hc w'.
  pose proof (attempts_resolved_entry endpoint fn
                (Z.to_nat (maxRetries this + 1)) 0 undefined this w0 v) as R.
  cbv zeta in R. observe. destruct (R Hc) as [now Hs].
  unfold isLimited, precheck, bind, limits_get. cbn [fst]. rewrite Hs.
  split; reflexivity.
Qed.

Lemma attempts_rejected_entry {T} (label : string) (fn : Thunk (T:=T))
    (n : nat) :
  forall attempt lastError this w e,
    (is429 lastError = true ->
     exists s, limits this !! label = Some s
               /\ remaining s = of_Z 0 /\ endpoint s = label) ->
    let r := attempts' label fn n attempt lastError (this, w) in
    completion_of r = Rejected e ->
    is429 e = true ->
    exists s, limits (limiter_of r) !! label = Some s
              /\ remaining s = of_Z 0 /\ endpoint s = label.
Proof.
  induction n as [|n IH]; intros attempt lastError this w e Hlast.
  - cbn. intros [= <-]. exact Hlast.
  - destruct (fn w) as [[v'|err] w1] eqn:E.
    + cbv zeta. rewrite (attempts_success _ _ _ _ _ _ _ _ _ _ _ E). observe.
      discriminate.
    + destruct (is429 err) eqn:H.
      * destruct (attempts_rate_limited Date_now sleep label fn n attempt
                    lastError this w w1 err E H)
          as [waitMs [w2 [w3 [evs [_ [_ ->]]]]]].
        cbv zeta. observe.
        match goal with |- context [attempts ?x1 ?x2 ?x3 ?x4 ?x5 ?x6 ?x7 ?x8] =>
          pose proof (IH x6 x7 (fst x8) (snd x8) e) as IH' end.
        cbv zeta in IH'. observe. apply IH'.
        intros _. eexists. cbn [limits set_limits].
        split; [apply lookup_insert_eq|]. split; reflexivity.
      * cbv zeta. rewrite (attempts_other_failure _ _ _ _ _ _ _ _ _ _ _ E H).
        observe. intros [= <-]. congruence.
Qed.

(** X6. When a call rejects with a rate-limit error, it has given up: the
    entry it leaves for the label is an exhausted one ([remaining] is 0). *)
Theorem rate_limited_call_marks_exhausted {T} (label : string)
    (fn : Thunk (T:=T)) (this : RateLimiter) (w : W) (e : JsValue) :
  let r := call' label fn (this, w) in
  completion_of r = Rejected e ->
  is429 e = true ->
  exists s, limits (limiter_of r) !! label = Some s
            /\ remaining s = of_Z 0 /\ endpoint s = label.
Proof.
  cbv zeta.
  destruct (call_as_attempts label fn this w) as [w0 [evs0 [_ [_ ->]]]].
  cbv zeta. observe.
  pose proof (attempts_rejected_entry label fn
                (Z.to_nat (maxRetries this + 1)) 0 undefined this w0 e) as R.
  cbv zeta in R. observe. apply R. discriminate.
Qed.

(** X7. With a negative [maxRetries] the loop has no iteration: the call
    rejects with [undefined], the thunk is never invoked and the store is
    untouched. *)
Theorem negative_retries_never_invoke {T} (label : string) (fn : Thunk (T:=T))
    (this : RateLimiter) (w : W) :
  maxRetries this < 0 ->
  let r := call' label fn (this, w) in
  completion_of r = Rejected undefined
  /\ invocations (events_of r) = []
  /\ limiter_of r = this.
Proof.
  intros Hneg. cbv zeta.
  destruct (call_as_attempts label fn this w) as [w0 [evs0 [_ [Hev0 ->]]]].
  cbv zeta. observe.
  replace (Z.to_nat (maxRetries this + 1)) with 0%nat by lia.
  cbn. rewrite app_nil_r. auto.
Qed.

(** *** [isLimited] and the pre-check agree *)

(** X8. [isLimited] and the pre-check of [call] decide alike and change
    nothing in the limiter.  When [isLimited] answers true the pre-check
    logs and sleeps [resetAt - now + 500] milliseconds before the first
    attempt; when it answers false the pre-check does not wait. *)
Theorem isLimited_is_the_precheck {T} (label : string) (this : RateLimiter)
    (w : W) :
  let limited := isLimited (T:=T) Date_now label (this, w) in
  let pre := precheck Date_now sleep (T:=T) label (this, w) in
  limiter_of limited = this
  /\ limiter_of pre = this
  /\ ((completion_of limited = Resolved true
       /\ exists state,
            limits this !! label = Some state
            /\ let waitMs :=
                 add (sub (resetAt state) (fst (Date_now (snd (Date_now w)))))
                     (of_Z 500) in
               events_of pre = [EvLog (LogPreWait label waitMs); EvSleep waitMs])
      \/ (completion_of limited = Resolved false /\ events_of pre = [])).
Proof.
  cbv zeta. unfold isLimited, precheck, bind, limits_get. cbn [fst].
  destruct (limits this !! label) as [state|]; [|observe; auto].
  destruct (eqb (remaining state) (of_Z 0)); [|observe; auto].
  unfold now_. destruct (Date_now w) as [now w1]. cbn [fst snd].
  destruct (gtb (resetAt state) now); [|observe; auto].
  destruct (Date_now w1) as [now' w2]. unfold log_, sleep_, ret.
  observe. split; [reflexivity|]. split; [reflexivity|]. left.
  split; [reflexivity|]. exists state. split; reflexivity.
Qed.

End CallFurther.

(** *** The properties at the limiter of the unit tests *)

Lemma call_other_labels_untouched_witness :
  let r := call clock timer "search" always_429 (test_limiter, epoch) in
  limits (limiter_of r) !! "post.create"%string
  = limits test_limiter !! "post.create"%string
  /\ maxRetries (limiter_of r) = maxRetries test_limiter
  /\ baseDelay (limiter_of r) = baseDelay test_limiter.
Proof.
  apply (call_other_labels_untouched clock timer "search" always_429
           test_limiter epoch "post.create").
  discriminate.
Defined.

Lemma call_ends_with_deciding_attempt_witness :
  let r := call clock timer "search" third_time_lucky (test_limiter, epoch) in
  last (events_of r) = Some (EvInvoke (completion_of r)).
Proof.
  apply (call_ends_with_deciding_attempt clock timer "search" third_time_lucky
           test_limiter epoch).
  vm_compute. discriminate.
Defined.

Lemma call_retries_only_rate_limits_witness :
  Forall rate_limit_rejection
    [Rejected too_many_requests; Rejected too_many_requests
     : Completion string].
Proof.
  apply (call_retries_only_rate_limits clock timer "search" third_time_lucky
           test_limiter epoch _ (Resolved "finally"%string)).
  vm_compute. reflexivity.
Defined.

Lemma call_backoff_schedule_witness :
  sleeps (events_of (call clock timer "search" always_429 (test_limiter, epoch)))
  = backoff_schedule (baseDelay test_limiter) 2.
Proof.
  apply (call_backoff_schedule clock timer "search" always_429 test_limiter
           epoch).
  - vm_compute. discriminate.
  - reflexivity.
  - intros w. exists too_many_requests, (remote w).
    split; [reflexivity|]. split; reflexivity.
Defined.

Lemma resolved_call_clears_limit_witness :
  let r := call clock timer "search" third_time_lucky (test_limiter, epoch) in
  isLimited (T:=string) clock "search" (limiter_of r, epoch)
  = (Resolved false, (limiter_of r, epoch), [])
  /\ precheck clock timer (T:=string) "search" (limiter_of r, epoch)
     = (Resolved tt, (limiter_of r, epoch), []).
Proof.
  apply (resolved_call_clears_limit clock timer "search" third_time_lucky
           test_limiter epoch "finally").
  vm_compute. reflexivity.
Defined.

Lemma rate_limited_call_marks_exhausted_witness :
  let r := call clock timer "search" always_429 (test_limiter, epoch) in
  exists s, limits (limiter_of r) !! "search"%string = Some s
            /\ remaining s = of_Z 0 /\ endpoint s = "search"%string.
Proof.
  apply (rate_limited_call_marks_exhausted clock timer "search" always_429
           test_limiter epoch too_many_requests).
  - vm_compute. reflexivity.
  - vm_compute. reflexivity.
Defined.

Lemma negative_retries_never_invoke_witness :
  let this := new_RateLimiter {| opt_maxRetries := Some (-1);
                                 opt_baseDelay := None |} in
  let r := call clock timer "search" third_time_lucky (this, epoch) in
  completion_of r = Rejected undefined
  /\ invocations (events_of r) = []
  /\ limiter_of r = this.
Proof.
  apply (negative_retries_never_invoke clock timer "search" third_time_lucky
           (new_RateLimiter {| opt_maxRetries := Some (-1);
                               opt_baseDelay := None |}) epoch).
  vm_compute. reflexivity.
Defined.

(* ===================================================================== *)
(** * Properties: the operations *)
(* ===================================================================== *)

Lemma resolutions_app {T} (evs1 evs2 : list (Event T)) :
  resolutions (evs1 ++ evs2) = resolutions evs1 ++ resolutions evs2.
Proof. unfold resolutions. apply omap_app. Qed.

Lemma resolutions_none {T} (evs : list (Event T)) :
  invocations evs = [] -> resolutions evs = [].
Proof.
  induction evs as [|[c|ms|l] evs IH]; cbn; [reflexivity|discriminate|exact IH..].
Qed.

Lemma sent_app (evs1 evs2 : list ApiEvent) :
  sent (evs1 ++ evs2) = sent evs1 ++ sent evs2.
Proof. unfold sent. apply omap_app. Qed.

Lemma answered_app (evs1 evs2 : list ApiEvent) :
  answered (evs1 ++ evs2) = answered evs1 ++ answered evs2.
Proof. unfold answered. apply omap_app. Qed.

Lemma delays_app (evs1 evs2 : list ApiEvent) :
  delays (evs1 ++ evs2) = delays evs1 ++ delays evs2.
Proof. unfold delays. apply omap_app. Qed.

Ltac observe_op :=
  unfold op_completion, op_limiter, op_world, op_events in *;
  cbn [fst snd] in *.

Section CallResolutions.

Context {W : Type}.
Variable Date_now : W -> number * W.
Variable sleep : number -> W -> W.

Lemma attempts_resolutions {T} (endpoint : string) (fn : Thunk (T:=T)) (n : nat) :
  forall attempt lastError this w,
    let r := attempts Date_now sleep endpoint fn n attempt lastError (this, w) in
    resolutions (events_of r)
    = match completion_of r with Resolved v => [v] | Rejected _ => [] end.
Proof.
  induction n as [|n IH]; intros attempt lastError this w.
  - reflexivity.
  - destruct (fn w) as [[v|err] w1] eqn:E.
    + cbv zeta. rewrite (attempts_success _ _ _ _ _ _ _ _ _ _ _ E). reflexivity.
    + destruct (is429 err) eqn:H.
      * destruct (attempts_rate_limited Date_now sleep endpoint fn n attempt
                    lastError this w w1 err E H)
          as [waitMs [w2 [w3 [evs [_ [Hev ->]]]]]].
        cbv zeta. observe.
        match goal with |- context [attempts ?x1 ?x2 ?x3 ?x4 ?x5 ?x6 ?x7 ?x8] =>
          pose proof (IH x6 x7 (fst x8) (snd x8)) as IH' end.
        cbv zeta in IH'. observe.
        change (EvInvoke (Rejected err) :: evs ++ ?l)
          with ([EvInvoke (Rejected err)] ++ evs ++ l).
        rewrite !resolutions_app, (resolutions_none evs Hev), IH'. reflexivity.
      * cbv zeta. rewrite (attempts_other_failure _ _ _ _ _ _ _ _ _ _ _ E H).
        reflexivity.
Qed.

(** A call resolves with the value of its one successful invocation, and
    a call that rejects had none. *)
Lemma call_resolutions {T} (endpoint : string) (fn : Thunk (T:=T))
    (this : RateLimiter) (w : W) :
  let r := call Date_now sleep endpoint fn (this, w) in
  resolutions (events_of r)
  = match completion_of r with Resolved v => [v] | Rejected _ => [] end.
Proof.
  destruct (call_as_attempts Date_now sleep endpoint fn this w)
    as [w0 [evs0 [_ [Hev0 E]]]].
  cbv zeta. rewrite E. cbv zeta. observe.
  rewrite resolutions_app, (resolutions_none evs0 Hev0). cbn [app].
  pose proof (attempts_resolutions endpoint fn
                (Z.to_nat (maxRetries this + 1)) 0 undefined this w0) as A.
  cbv zeta in A. observe. exact A.
Qed.

(** A call that resolved ended with the successful invocation. *)
Lemma call_resolved_last {T} (endpoint : string) (fn : Thunk (T:=T))
    (this : RateLimiter) (w : W) (v : T) :
  let r := call Date_now sleep endpoint fn (this, w) in
  completion_of r = Resolved v ->
  last (events_of r) = Some (EvInvoke (Resolved v)).
Proof.
  destruct (call_as_attempts Date_now sleep endpoint fn this w)
    as [w0 [evs0 [_ [_ E]]]].
  cbv zeta. rewrite E. cbv zeta. observe.
  destruct (Z.to_nat (maxRetries this + 1)) as [|n] eqn:Hn;
    [cbn; discriminate|].
  pose proof (attempts_last_event Date_now sleep endpoint fn n 0 undefined
                this w0) as L.
  cbv zeta in L. observe. intros Hc.
  rewrite last_app, L by lia. rewrite Hc. reflexivity.
Qed.

End CallResolutions.

Lemma indexOf_position (done rest : list string) (text : string) :
  text ∉ done ->
  indexOf text (done ++ text :: rest) = Z.of_nat (length done).
Proof.
  induction done as [|y done IH]; intros Hnot; cbn [app indexOf length].
  - rewrite String.eqb_refl. reflexivity.
  - apply not_elem_of_cons in Hnot as [Hne Hnot].
    destruct (String.eqb_spec y text) as [->|_]; [congruence|].
    rewrite (IH Hnot).
    destruct (Z.ltb_spec (Z.of_nat (length done)) 0); lia.
Qed.

Lemma indexOf_earlier (pre rest : list string) (text : string) :
  text ∈ pre ->
  0 <= indexOf text (pre ++ rest) < Z.of_nat (length pre).
Proof.
  induction pre as [|y pre IH]; intros Hin; [inversion Hin|].
  cbn [app indexOf length].
  destruct (String.eqb_spec y text) as [->|Hne]; [lia|].
  apply elem_of_cons in Hin as [->|Hin]; [congruence|].
  specialize (IH Hin).
  destruct (Z.ltb_spec (indexOf text (pre ++ rest)) 0); lia.
Qed.

Lemma createPost_body_thread (text : string) (previousId : option string) :
  PostsCreate (createPost_body {| po_text := text; po_replyTo := previousId;
                                  po_quoteTweetId := None; po_mediaIds := None |})
  = thread_post text previousId.
Proof.
  unfold thread_post, createPost_body. cbn.
  destruct previousId as [[|c s]|]; reflexivity.
Qed.

Lemma last_cons_default {A B} (f : A -> B) (l : list A) :
  forall (x : A) (d : B),
    match last (x :: l) with Some y => f y | None => d end
    = match last l with Some y => f y | None => f x end.
Proof.
  induction l as [|a l IH]; intros x d; [reflexivity|].
  rewrite last_cons_cons, (IH a d), (IH a (f x)). reflexivity.
Qed.

(** [0 + x] is [x], unless [x] is the negative zero. *)
Lemma add_zero_l (x : number) :
  not_negative_zero x -> add (of_Z 0) x = x.
Proof.
  intros Hx. rewrite of_Z_0.
  destruct x as [[]|[]| |[] m e]; try reflexivity. congruence.
Qed.

Lemma compare_refl (x : number) :
  is_nan x = false -> SFcompare x x = Some Eq.
Proof.
  destruct x as [[]|[]| |[] m e]; try discriminate; intros _; try reflexivity;
    cbn; rewrite Z.compare_refl, ?Pos.compare_cont_refl; reflexivity.
Qed.

(** [Math.min(a, b)] is at most [b], unless one of them is NaN. *)
Lemma Math_min_le_r (a b : number) :
  is_nan a = false -> is_nan b = false -> leb (Math_min a b) b = true.
Proof.
  intros Ha Hb. unfold Math_min. rewrite Ha, Hb. cbn [orb].
  unfold ltb, leb, SFltb, SFleb.
  rewrite (compare_antisym a b).
  destruct (compare_numbers a b Ha Hb) as [[] E]; rewrite E; cbn.
  - destruct a as [[]|[]| |[] ma ea], b as [[]|[]| |[] mb eb];
      try discriminate; try reflexivity; rewrite E; reflexivity.
  - rewrite E. reflexivity.
  - rewrite (compare_refl b Hb). reflexivity.
Qed.

Lemma Math_min_cases (a b : number) :
  is_nan a = false -> is_nan b = false ->
  Math_min a b = a \/ Math_min a b = b.
Proof.
  intros Ha Hb. unfold Math_min. rewrite Ha, Hb. cbn [orb].
  destruct (ltb a b); [auto|]. destruct (ltb b a); [auto|].
  destruct a as [[]|[]| |[] ma ea], b as [[]|[]| |[] mb eb]; auto.
Qed.

Lemma Math_max_cases (a b : number) :
  is_nan a = false -> is_nan b = false ->
  Math_max a b = a \/ Math_max a b = b.
Proof.
  intros Ha Hb. unfold Math_max. rewrite Ha, Hb. cbn [orb].
  destruct (ltb a b); [auto|]. destruct (ltb b a); [auto|].
  destruct a as [[]|[]| |[] ma ea], b as [[]|[]| |[] mb eb]; auto.
Qed.

(** [Math.max(a, b)] is at least [a], unless one of them is NaN. *)
Lemma Math_max_ge_l (a b : number) :
  is_nan a = false -> is_nan b = false -> leb a (Math_max a b) = true.
Proof.
  intros Ha Hb. unfold Math_max. rewrite Ha, Hb. cbn [orb].
  unfold ltb, leb, SFltb, SFleb.
  rewrite (compare_antisym a b).
  destruct (compare_numbers a b Ha Hb) as [[] E]; rewrite E; cbn.
  - destruct a as [[]|[]| |[] ma ea], b as [[]|[]| |[] mb eb];
      try discriminate; try reflexivity; rewrite ?E;
      rewrite ?compare_refl; reflexivity.
  - rewrite E. reflexivity.
  - rewrite (compare_refl a Ha). reflexivity.
Qed.

(** The size a timeline is asked with lies between 5 and 100, unless
    [maxResults] is NaN; then it is NaN. *)
Lemma timeline_size_bounds (n : number) :
  (is_nan n = false ->
   leb (of_Z 5) (timeline_size n) = true
   /\ leb (timeline_size n) (of_Z 100) = true)
  /\ (is_nan n = true -> is_nan (timeline_size n) = true).
Proof.
  unfold timeline_size. split.
  - intros Hn.
    assert (Hm : is_nan (Math_min n (of_Z 100)) = false).
    { destruct (Math_min_cases n (of_Z 100) Hn eq_refl) as [-> | ->];
        [exact Hn|reflexivity]. }
    pose proof (Math_min_le_r n (of_Z 100) Hn eq_refl) as Hle.
    split; [apply Math_max_ge_l; [reflexivity|exact Hm]|].
    destruct (Math_max_cases (of_Z 5) (Math_min n (of_Z 100)) eq_refl Hm)
      as [-> | ->]; [reflexivity|exact Hle].
  - intros Hn. destruct n; try discriminate. reflexivity.
Qed.

Section OperationProperties.

Context {W : Type}.
Variable Date_now : W -> number * W.
Variable sleep : number -> W -> W.
Variable client : Client W.

Local Abbreviation rl_call' := (rl_call Date_now sleep).
Local Abbreviation createPost' := (createPost Date_now sleep client).
Local Abbreviation postThread_loop' := (postThread_loop Date_now sleep client).
Local Abbreviation postThread' := (postThread Date_now sleep client).
Local Abbreviation searchRecent_loop' :=
  (searchRecent_loop Date_now sleep client).
Local Abbreviation searchRecent' := (searchRecent Date_now sleep client).
Local Abbreviation getTweet' := (getTweet Date_now sleep client).
Local Abbreviation getMe' := (getMe Date_now sleep client).
Local Abbreviation getUserTimeline' :=
  (getUserTimeline Date_now sleep client).
Local Abbreviation measureArticle_of' :=
  (measureArticle_of Date_now sleep client).
Local Abbreviation measureArticles_loop' :=
  (measureArticles_loop Date_now sleep client).
Local Abbreviation measureArticles' := (measureArticles Date_now sleep client).
Local Abbreviation pulseCheck' := (pulseCheck Date_now sleep client).

(** *** One request through the limiter *)

(** What [rl.call(endpoint, () => client.method(request))] shows: every
    attempt sends the same request, the one answer is what the call
    resolves with, the limiter's configuration is kept and the operation
    delays nothing itself. *)
Lemma rl_call_observed {T} (endpoint : string) (request : SdkRequest)
    (inj : T -> SdkResponse) (send : W -> Completion T * W)
    (σ : RateLimiter * W) :
  let r := rl_call' endpoint request inj send σ in
  answered (op_events r)
  = match op_completion r with
    | Resolved v => [(request, inj v)]
    | Rejected _ => []
    end
  /\ delays (op_events r) = []
  /\ Forall (eq request) (sent (op_events r))
  /\ (forall v, op_completion r = Resolved v ->
                last (op_events r)
                = Some (ApiInvoke endpoint request (Resolved (inj v)))).
Proof.
  destruct σ as [this w]. cbv zeta. unfold rl_call.
  pose proof (call_resolutions Date_now sleep endpoint send this w) as R.
  pose proof (call_resolved_last Date_now sleep endpoint send this w) as L.
  cbv zeta in R, L.
  destruct (call Date_now sleep endpoint send (this, w)) as [[c σ'] evs].
  observe. observe_op.
  assert (A : forall l : list (Event T),
            answered (List.map (api_event endpoint request inj) l)
            = List.map (fun v => (request, inj v)) (resolutions l)).
  { unfold answered, resolutions.
    induction l as [|[[v|e]|ms|l0] l IH]; cbn; rewrite ?IH; reflexivity. }
  split; [|split; [|split]].
  - rewrite A, R. destruct c; reflexivity.
  - clear. induction evs as [|[c|ms|l0] evs IH]; cbn; auto.
  - clear. induction evs as [|[c|ms|l0] evs IH]; cbn; auto.
  - intros v Hc. specialize (L v Hc). clear - L.
    revert L. induction evs as [|ev [|ev' evs] IH]; [discriminate| |].
    + cbn. intros [= ->]. reflexivity.
    + intros L. rewrite last_cons_cons in L. specialize (IH L).
      cbn [List.map] in *. rewrite last_cons_cons. exact IH.
Qed.

(** *** post.ts *)

(** [createPost] sends the body built from its options and, once
    answered, returns the id and text of the response. *)
Lemma createPost_observed (opts : PostOpts) (σ : RateLimiter * W) :
  let r := createPost' opts σ in
  delays (op_events r) = []
  /\ Forall (eq (PostsCreate (createPost_body opts))) (sent (op_events r))
  /\ match op_completion r with
     | Resolved result =>
         exists res,
           result = createPost_result res
           /\ answered (op_events r)
              = [(PostsCreate (createPost_body opts), Created res)]
           /\ last (op_events r)
              = Some (ApiInvoke "post.create" (PostsCreate (createPost_body opts))
                        (Resolved (Created res)))
     | Rejected _ => answered (op_events r) = []
     end.
Proof.
  cbv zeta. unfold createPost, op_bind.
  pose proof (rl_call_observed "post.create" (PostsCreate (createPost_body opts))
                Created (posts_create client (createPost_body opts)) σ) as R.
  cbv zeta in R.
  destruct (rl_call _ _ _ _ _ _ _) as [[[res|e] σ1] evs1]; observe_op;
    destruct R as [Ha [Hd [Hs Hl]]].
  - unfold op_ret. cbn [fst snd]. rewrite !app_nil_r.
    split; [exact Hd|]. split; [exact Hs|].
    exists res. split; [reflexivity|]. split; [exact Ha|].
    apply Hl. reflexivity.
  - auto.
Qed.

(** One iteration of the loop of [postThread]. *)
Lemma postThread_loop_cons (texts : list string) (delayMs : number)
    (text : string) (rest : list string) (previousId : option string)
    (results : list PostResult) (σ : RateLimiter * W) :
  postThread_loop' texts delayMs (text :: rest) previousId results σ =
  let r1 := createPost' {| po_text := text; po_replyTo := previousId;
                           po_quoteTweetId := None; po_mediaIds := None |} σ in
  match op_completion r1 with
  | Rejected e => (Rejected e, (op_limiter r1, op_world r1), op_events r1)
  | Resolved result =>
      let pause := gtb delayMs (of_Z 0)
                   && (indexOf text texts <? Z.of_nat (length texts) - 1) in
      let r3 := postThread_loop' texts delayMs rest (Some (pr_id result))
                  (results ++ [result])
                  (op_limiter r1,
                   if pause then sleep delayMs (op_world r1) else op_world r1) in
      (op_completion r3, (op_limiter r3, op_world r3),
       op_events r1 ++ (if pause then [ApiDelay delayMs] else [])
       ++ op_events r3)
  end.
Proof.
  cbn [postThread_loop]. unfold op_bind at 1.
  destruct (createPost _ _ _ _ _) as [[[result|e] [this1 w1]] evs1];
    observe_op; [|reflexivity].
  cbv zeta. unfold op_bind at 1.
  destruct (gtb delayMs (of_Z 0)
            && (indexOf text texts <? Z.of_nat (length texts) - 1));
    unfold op_delay, op_ret;
    destruct (postThread_loop _ _ _ _ _ _ _ _ _) as [[c3 [this3 w3]] evs3];
    reflexivity.
Qed.

Lemma postThread_loop_exchange (texts : list string) (delayMs : number)
    (rest : list string) :
  forall previousId results σ,
    let r := postThread_loop' texts delayMs rest previousId results σ in
    exists responses,
      answered (op_events r) = thread_exchange rest previousId responses
      /\ match op_completion r with
         | Resolved out =>
             length responses = length rest
             /\ out = results ++ List.map createPost_result responses
         | Rejected _ => (length responses < length rest)%nat
         end.
Proof.
  induction rest as [|text rest IH]; intros previousId results σ.
  - exists []. cbn. rewrite app_nil_r. auto.
  - cbv zeta. rewrite postThread_loop_cons. cbv zeta.
    pose proof (createPost_observed
                  {| po_text := text; po_replyTo := previousId;
                     po_quoteTweetId := None; po_mediaIds := None |} σ) as C.
    cbv zeta in C. rewrite createPost_body_thread in C.
    destruct (createPost _ _ _ _ _) as [[[result|e] [this1 w1]] evs1];
      observe_op; destruct C as [_ [_ C]].
    + destruct C as [res [-> [Ha _]]].
      match goal with |- context [postThread_loop ?x1 ?x2 ?x3 ?x4 ?x5 ?x6 ?x7 ?x8 ?x9] =>
        destruct (IH x7 x8 x9) as [responses [Hx Hc]] end.
      cbv zeta in Hx, Hc. observe_op.
      exists (res :: responses).
      rewrite !answered_app, Ha, Hx.
      split.
      * destruct (_ && _); reflexivity.
      * destruct (fst (fst (postThread_loop _ _ _ _ _ _ _ _ _))) as [out|e].
        -- destruct Hc as [Hlen ->]. cbn [length List.map].
           rewrite <- app_assoc. split; [lia|reflexivity].
        -- cbn [length]. lia.
    + exists []. rewrite C. cbn. split; [reflexivity|lia].
Qed.

(** X9. A thread that resolves has posted every text, in order, as one
    chain: the first post is no reply, every later one replies to the id
    returned for the post before it (and is no reply when that id came back
    empty), and the results are the ids and texts of the responses, in
    order. *)
Theorem postThread_posts_chain (texts : list string) (delayMs : option number)
    (σ : RateLimiter * W) (out : list PostResult) :
  let r := postThread' texts delayMs σ in
  op_completion r = Resolved out ->
  exists responses,
    length responses = length texts
    /\ out = List.map createPost_result responses
    /\ answered (op_events r) = thread_exchange texts None responses.
Proof.
  cbv zeta. unfold postThread. intros Hc.
  destruct (postThread_loop_exchange texts (default (of_Z 1000) delayMs)
              texts None [] σ) as [responses [Hx H]].
  rewrite Hc in H. destruct H as [Hlen ->].
  exists responses. auto.
Qed.

(** X10. A thread that rejects stops at the post that failed: the posts
    before it stay published, as the same chain, no later text is posted,
    and none of the ids is returned. *)
Theorem postThread_failure_keeps_posts (texts : list string)
    (delayMs : option number) (σ : RateLimiter * W) (e : JsValue) :
  let r := postThread' texts delayMs σ in
  op_completion r = Rejected e ->
  exists responses,
    (length responses < length texts)%nat
    /\ answered (op_events r) = thread_exchange texts None responses.
Proof.
  cbv zeta. unfold postThread. intros Hc.
  destruct (postThread_loop_exchange texts (default (of_Z 1000) delayMs)
              texts None [] σ) as [responses [Hx H]].
  rewrite Hc in H. exists responses. auto.
Qed.

Lemma postThread_loop_delays (texts : list string) (delayMs : number) :
  NoDup texts ->
  forall rest done previousId results σ out,
    texts = done ++ rest ->
    let r := postThread_loop' texts delayMs rest previousId results σ in
    op_completion r = Resolved out ->
    delays (op_events r)
    = (if gtb delayMs (of_Z 0) then repeat delayMs (length rest - 1) else [])
    /\ (rest <> [] ->
        exists q res, last (op_events r)
                      = Some (ApiInvoke "post.create" q (Resolved res))).
Proof.
  intros Hnd rest.
  induction rest as [|text rest IH]; intros done previousId results σ out Ht.
  - cbn. intros _. split; [destruct (gtb _ _); reflexivity|congruence].
  - cbv zeta. rewrite postThread_loop_cons. cbv zeta.
    pose proof (createPost_observed
                  {| po_text := text; po_replyTo := previousId;
                     po_quoteTweetId := None; po_mediaIds := None |} σ) as C.
    cbv zeta in C.
    destruct (createPost _ _ _ _ _) as [[[result|e] [this1 w1]] evs1];
      observe_op; [|discriminate].
    destruct C as [Hd [_ [res [-> [_ Hl]]]]].
    assert (Hi : indexOf text texts = Z.of_nat (length done)).
    { rewrite Ht. apply indexOf_position. rewrite Ht in Hnd.
      apply NoDup_app in Hnd as [_ [Hnd _]]. intros Hin.
      apply (Hnd text Hin). left. }
    assert (Hlen : Z.of_nat (length texts) - 1
                   = Z.of_nat (length done) + Z.of_nat (length rest)).
    { rewrite Ht, length_app. cbn [length]. lia. }
    rewrite Hi, Hlen. clear Hi Hlen.
    destruct rest as [|text' rest].
    + replace (Z.of_nat (length done) <? _) with false
        by (symmetry; apply Z.ltb_ge; cbn; lia).
      rewrite andb_false_r. cbn [postThread_loop]. unfold op_ret.
      cbn [fst snd length Nat.sub repeat]. intros _.
      rewrite !app_nil_r. rewrite Hd.
      split; [destruct (gtb _ _); reflexivity|]. eauto.
    + replace (Z.of_nat (length done) <? _) with true
        by (symmetry; apply Z.ltb_lt; cbn [length]; lia).
      rewrite andb_true_r.
      match goal with |- context [postThread_loop ?x1 ?x2 ?x3 ?x4 ?x5 ?x6 ?x7 ?x8 ?x9] =>
        pose proof (IH (done ++ [text]) x7 x8 x9 out) as IH' end.
      cbv zeta in IH'. observe_op.
      rewrite <- app_assoc in IH'. specialize (IH' Ht).
      intros Hc. destruct (IH' Hc) as [Hdel Hlast]. clear IH'.
      rewrite !delays_app, Hd, Hdel. cbn [app].
      split.
      * destruct (gtb delayMs (of_Z 0)); [|reflexivity].
        cbn [length Nat.sub repeat] in *. rewrite Nat.sub_0_r in *.
        reflexivity.
      * intros _. destruct (Hlast ltac:(discriminate)) as [q [res' Hq]].
        exists q, res'. rewrite !last_app, Hq. reflexivity.
Qed.

(** X11. A thread of texts that are all different, once it resolves, has
    paused [delayMs] between two posts and at no other time: one pause
    less than there are texts, none after the last post, and none at all
    for a delay that is zero, negative or NaN. *)
Theorem postThread_pauses_between_posts (texts : list string)
    (delayMs : option number) (σ : RateLimiter * W) (out : list PostResult) :
  NoDup texts ->
  let r := postThread' texts delayMs σ in
  op_completion r = Resolved out ->
  let ms := default (of_Z 1000) delayMs in
  delays (op_events r)
  = (if gtb ms (of_Z 0) then repeat ms (length texts - 1) else [])
  /\ (texts <> [] ->
      exists q res, last (op_events r)
                    = Some (ApiInvoke "post.create" q (Resolved res))).
Proof.
  intros Hnd. cbv zeta. unfold postThread. intros Hc.
  exact (postThread_loop_delays texts (default (of_Z 1000) delayMs) Hnd
           texts [] None [] σ out eq_refl Hc).
Qed.

Lemma postThread_loop_trailing_pause (texts : list string) (delayMs : number)
    (text : string) :
  gtb delayMs (of_Z 0) = true ->
  indexOf text texts < Z.of_nat (length texts) - 1 ->
  forall rest previousId results σ out,
    let r := postThread_loop' texts delayMs (rest ++ [text]) previousId
               results σ in
    op_completion r = Resolved out ->
    last (op_events r) = Some (ApiDelay delayMs).
Proof.
  intros Hpos Hidx rest.
  induction rest as [|text' rest IH]; intros previousId results σ out;
    cbv zeta; cbn [app]; rewrite postThread_loop_cons; cbv zeta;
    destruct (createPost _ _ _ _ _) as [[[result|e] [this1 w1]] evs1];
    observe_op; try discriminate.
  - rewrite Hpos. replace (indexOf text texts <? _) with true
      by (symmetry; apply Z.ltb_lt; exact Hidx).
    cbn [andb postThread_loop]. unfold op_ret. cbn [fst snd]. intros _.
    rewrite app_nil_r, last_app. reflexivity.
  - match goal with |- context [postThread_loop ?x1 ?x2 ?x3 ?x4 ?x5 ?x6 ?x7 ?x8 ?x9] =>
      pose proof (IH x7 x8 x9 out) as IH' end.
    cbv zeta in IH'. observe_op. intros Hc.
    rewrite !last_app, (IH' Hc). reflexivity.
Qed.

(** X12. The pause is decided by the first position of the text in the
    thread ([texts.indexOf(text)]): when the last text also occurs earlier
    in the thread, a resolved thread ends with a pause after its last
    post. *)
Theorem postThread_repeated_text_pauses_at_end (earlier : list string)
    (text : string) (delayMs : option number) (σ : RateLimiter * W)
    (out : list PostResult) :
  text ∈ earlier ->
  let ms := default (of_Z 1000) delayMs in
  gtb ms (of_Z 0) = true ->
  let r := postThread' (earlier ++ [text]) delayMs σ in
  op_completion r = Resolved out ->
  last (op_events r) = Some (ApiDelay ms).
Proof.
  intros Hin. cbv zeta. intros Hpos Hc. unfold postThread in *.
  refine (postThread_loop_trailing_pause (earlier ++ [text])
            (default (of_Z 1000) delayMs) text Hpos _ earlier None [] σ out Hc).
  pose proof (indexOf_earlier earlier [text] text Hin) as [_ H].
  rewrite length_app. cbn [length]. lia.
Qed.

(** *** search.ts *)

(** One iteration of the loop of [searchRecent]. *)
Lemma searchRecent_loop_succ (opts : SearchOpts) (perPage : number)
    (pages : nat) (nextToken : option string)
    (results : list (TweetData * TweetOrigin)) (pageCount : Z)
    (σ : RateLimiter * W) :
  searchRecent_loop' opts perPage (S pages) nextToken results pageCount σ =
  let searchOpts := search_params opts perPage nextToken in
  let r1 := rl_call' "search" (PostsSearchRecent (so_query opts) searchOpts)
              SomePosts (posts_searchRecent client (so_query opts) searchOpts)
              σ in
  match op_completion r1 with
  | Rejected e => (Rejected e, (op_limiter r1, op_world r1), op_events r1)
  | Resolved res =>
      if negb (truthy_env (posts_nextToken res)) then
        (Resolved {| search_results := results ++ page_tweets res;
                     search_nextToken := posts_nextToken res;
                     search_totalPages := pageCount + 1 |},
         (op_limiter r1, op_world r1), op_events r1)
      else
        let r2 := searchRecent_loop' opts perPage pages (posts_nextToken res)
                    (results ++ page_tweets res) (pageCount + 1)
                    (op_limiter r1, op_world r1) in
        (op_completion r2, (op_limiter r2, op_world r2),
         op_events r1 ++ op_events r2)
  end.
Proof.
  cbn [searchRecent_loop]. unfold op_bind at 1. cbv zeta.
  destruct (rl_call _ _ _ _ _ _ _) as [[[res|e] [this1 w1]] evs1];
    observe_op; [|reflexivity].
  fold (page_tweets res).
  destruct (negb (truthy_env (posts_nextToken res))).
  - unfold op_ret. rewrite app_nil_r. reflexivity.
  - destruct (searchRecent_loop _ _ _ _ _ _ _ _ _ _) as [[c2 [this2 w2]] evs2].
    reflexivity.
Qed.

Lemma searchRecent_loop_pages (opts : SearchOpts) (perPage : number)
    (pages : nat) :
  forall nextToken results pageCount σ,
    let r := searchRecent_loop' opts perPage pages nextToken results pageCount
               σ in
    exists fetched : list PostsResponse,
      answered (op_events r) = search_exchange opts perPage nextToken fetched
      /\ (length fetched <= pages)%nat
      /\ Forall (fun q => exists params,
                           q = PostsSearchRecent (so_query opts) params
                           /\ sp_maxResults params = perPage)
                (sent (op_events r))
      /\ match op_completion r with
         | Resolved resp =>
             search_results resp
             = results ++ concat (List.map page_tweets fetched)
             /\ search_totalPages resp = pageCount + Z.of_nat (length fetched)
             /\ search_nextToken resp
                = match last fetched with
                  | Some page => posts_nextToken page
                  | None => nextToken
                  end
             /\ ((length fetched < pages)%nat ->
                 fetched <> []
                 /\ truthy_env (search_nextToken resp) = false)
         | Rejected _ => (length fetched < pages)%nat
         end.
Proof.
  induction pages as [|pages IH]; intros nextToken results pageCount σ.
  - exists []. cbn. rewrite app_nil_r, Z.add_0_r.
    repeat split; try constructor; lia.
  - cbv zeta. rewrite searchRecent_loop_succ. cbv zeta.
    pose proof (rl_call_observed "search"
                  (PostsSearchRecent (so_query opts)
                     (search_params opts perPage nextToken))
                  SomePosts
                  (posts_searchRecent client (so_query opts)
                     (search_params opts perPage nextToken)) σ) as C.
    cbv zeta in C.
    assert (Hsent : forall l,
              Forall (eq (PostsSearchRecent (so_query opts)
                            (search_params opts perPage nextToken))) l ->
              Forall (fun q => exists params,
                                 q = PostsSearchRecent (so_query opts) params
                                 /\ sp_maxResults params = perPage) l).
    { intros l Hl. eapply Forall_impl; [exact Hl|].
      intros q <-. eexists. split; reflexivity. }
    destruct (rl_call _ _ _ _ _ _ _) as [[[res|e] [this1 w1]] evs1];
      observe_op; destruct C as [Ha [_ [Hs _]]]; apply Hsent in Hs.
    + destruct (truthy_env (posts_nextToken res)) eqn:Htok; cbn [negb].
      * match goal with |- context [searchRecent_loop ?x1 ?x2 ?x3 ?x4 ?x5 ?x6 ?x7 ?x8 ?x9 ?x10] =>
          destruct (IH x7 x8 x9 x10) as [fetched [Hx [Hlen [Hs' Hc]]]] end.
        cbv zeta in Hx, Hs', Hc. observe_op.
        exists (res :: fetched). rewrite answered_app, sent_app, Ha, Hx.
        split; [reflexivity|]. split; [cbn [length]; lia|].
        split; [apply Forall_app; auto|].
        destruct (fst (fst (searchRecent_loop _ _ _ _ _ _ _ _ _ _)))
          as [resp|e].
        -- destruct Hc as [Hr [Hp [Ht Hstop]]].
           rewrite Hr, Hp, Ht. cbn [List.map concat length].
           rewrite <- app_assoc.
           split; [reflexivity|]. split; [lia|].
           split; [symmetry; apply last_cons_default|].
           intros Hlt. split; [discriminate|].
           destruct (Hstop ltac:(lia)) as [_ Hf].
           rewrite Ht in Hf. exact Hf.
        -- cbn [length]. lia.
      * exists [res]. cbn [fst snd]. rewrite Ha.
        cbn [search_exchange length List.map concat].
        rewrite app_nil_r.
        split; [reflexivity|]. split; [lia|]. split; [exact Hs|].
        cbn. split; [reflexivity|]. split; [reflexivity|].
        split; [reflexivity|]. intros _. split; [discriminate|exact Htok].
    + exists []. rewrite Ha. cbn. split; [reflexivity|].
      split; [lia|]. split; [exact Hs|lia].
Qed.

(** X13. A search that resolves has fetched its pages one after the other,
    the first without a pagination token and each later one with the token
    of the page before; it returns the tweets of these pages in order, the
    number of pages fetched and the token of the last page. *)
Theorem searchRecent_follows_tokens (opts : SearchOpts) (σ : RateLimiter * W)
    (resp : SearchResponse) :
  let r := searchRecent' opts σ in
  op_completion r = Resolved resp ->
  let perPage := Math_min (default (of_Z 10) (so_maxResults opts)) (of_Z 100) in
  exists fetched : list PostsResponse,
    answered (op_events r) = search_exchange opts perPage None fetched
    /\ search_results resp = concat (List.map page_tweets fetched)
    /\ search_totalPages resp = Z.of_nat (length fetched)
    /\ search_nextToken resp = last_token fetched.
Proof.
  cbv zeta. unfold searchRecent. intros Hc.
  destruct (searchRecent_loop_pages opts
              (Math_min (default (of_Z 10) (so_maxResults opts)) (of_Z 100))
              (Z.to_nat (default 1 (so_maxPages opts))) None [] 0 σ)
    as [fetched [Hx [_ [_ H]]]].
  cbv zeta in Hx, H. rewrite Hc in H. destruct H as [Hr [Hp [Ht _]]].
  exists fetched. unfold last_token. auto.
Qed.

(** X14. Whatever the service answers, a search has at most [maxPages]
    requests answered, one when [maxPages] is not given and none when it
    is zero or negative, and every request it sends asks for the same page
    size, [min(maxResults ?? 10, 100)], which is at most 100. *)
Theorem searchRecent_page_budget (opts : SearchOpts) (σ : RateLimiter * W) :
  let r := searchRecent' opts σ in
  let perPage := Math_min (default (of_Z 10) (so_maxResults opts)) (of_Z 100) in
  (Z.of_nat (length (answered (op_events r)))
   <= Z.max 0 (default 1 (so_maxPages opts)))
  /\ Forall (fun q => exists params,
                        q = PostsSearchRecent (so_query opts) params
                        /\ sp_maxResults params = perPage)
            (sent (op_events r))
  /\ (is_nan (default (of_Z 10) (so_maxResults opts)) = false ->
      leb perPage (of_Z 100) = true).
Proof.
  cbv zeta. unfold searchRecent.
  destruct (searchRecent_loop_pages opts
              (Math_min (default (of_Z 10) (so_maxResults opts)) (of_Z 100))
              (Z.to_nat (default 1 (so_maxPages opts))) None [] 0 σ)
    as [fetched [Hx [Hlen [Hs _]]]].
  cbv zeta in Hx, Hs. split; [|split; [exact Hs|]].
  - rewrite Hx.
    assert (L : forall token pages,
              length (search_exchange opts
                        (Math_min (default (of_Z 10) (so_maxResults opts))
                                  (of_Z 100)) token pages)
              = length pages).
    { intros token pages. revert token.
      induction pages as [|page pages IHp]; intros token; cbn; auto. }
    rewrite L. lia.
  - intros Hn. apply Math_min_le_r; [exact Hn|reflexivity].
Qed.

(** X15. A search stops early only when the service has no more pages: if
    it resolves after fewer pages than [maxPages], the token it returns is
    absent or empty; and with a positive [maxPages] it has fetched at
    least one page. *)
Theorem searchRecent_stops_without_token (opts : SearchOpts)
    (σ : RateLimiter * W) (resp : SearchResponse) :
  let r := searchRecent' opts σ in
  op_completion r = Resolved resp ->
  let maxPages := default 1 (so_maxPages opts) in
  (search_totalPages resp < maxPages ->
   truthy_env (search_nextToken resp) = false)
  /\ (0 < maxPages -> 1 <= search_totalPages resp <= maxPages).
Proof.
  cbv zeta. unfold searchRecent. intros Hc.
  destruct (searchRecent_loop_pages opts
              (Math_min (default (of_Z 10) (so_maxResults opts)) (of_Z 100))
              (Z.to_nat (default 1 (so_maxPages opts))) None [] 0 σ)
    as [fetched [_ [Hlen [_ H]]]].
  cbv zeta in H. rewrite Hc in H. destruct H as [_ [Hp [_ Hstop]]].
  rewrite Hp. split.
  - intros Hlt. apply Hstop. lia.
  - intros Hpos.
    destruct fetched as [|page fetched]; [|cbn [length] in *; lia].
    destruct (Hstop ltac:(cbn [length]; lia)) as [Hne _]. congruence.
Qed.

(** *** lookup.ts *)

Lemma getTweet_observed (tweetId : string) (σ : RateLimiter * W) :
  let r := getTweet' tweetId σ in
  match op_completion r with
  | Resolved tweet =>
      exists res,
        answered (op_events r) = [(tweet_lookup tweetId, OnePost res)]
        /\ measureArticle (option_map fst tweet) = article_of res
  | Rejected _ => answered (op_events r) = []
  end.
Proof.
  cbv zeta. unfold getTweet, op_bind.
  match goal with |- context [rl_call _ _ ?e ?q ?inj ?send σ] =>
    pose proof (rl_call_observed e q inj send σ) as R end.
  cbv zeta in R. fold (tweet_lookup tweetId) in *.
  destruct (rl_call _ _ _ _ _ _ _) as [[[res|e] σ1] evs1]; observe_op;
    destruct R as [Ha _]; [|exact Ha].
  unfold article_of.
  destruct (post_data res) as [d|] eqn:Hd; unfold op_ret; cbn [fst snd];
    rewrite app_nil_r; exists res; rewrite Hd;
    (split; [exact Ha|reflexivity]).
Qed.

Lemma getMe_observed (σ : RateLimiter * W) :
  let r := getMe' σ in
  Forall (eq profile_request) (sent (op_events r))
  /\ match op_completion r with
     | Resolved user =>
         exists res,
           answered (op_events r) = [(profile_request, OneUser res)]
           /\ user = option_map to_user (user_data res)
     | Rejected _ => answered (op_events r) = []
     end.
Proof.
  cbv zeta. unfold getMe, op_bind.
  match goal with |- context [rl_call _ _ ?e ?q ?inj ?send σ] =>
    pose proof (rl_call_observed e q inj send σ) as R end.
  cbv zeta in R. fold profile_request in *.
  destruct (rl_call _ _ _ _ _ _ _) as [[[res|e] σ1] evs1]; observe_op;
    destruct R as [Ha [_ [Hs _]]]; [|auto].
  destruct (user_data res) as [d|] eqn:Hd; unfold op_ret; cbn [fst snd];
    rewrite app_nil_r; (split; [exact Hs|]); exists res; rewrite Hd; auto.
Qed.

Lemma getUserTimeline_observed (userId : string) (maxResults : option number)
    (σ : RateLimiter * W) :
  let r := getUserTimeline' userId maxResults σ in
  let n := default (of_Z 10) maxResults in
  Forall (eq (timeline_request userId n)) (sent (op_events r))
  /\ match op_completion r with
     | Resolved tweets =>
         exists page,
           answered (op_events r)
           = [(timeline_request userId n, SomePosts page)]
           /\ tweets = timeline_tweets n page
     | Rejected _ => answered (op_events r) = []
     end.
Proof.
  cbv zeta. unfold getUserTimeline, op_bind.
  match goal with |- context [rl_call _ _ ?e ?q ?inj ?send σ] =>
    pose proof (rl_call_observed e q inj send σ) as R end.
  cbv zeta in R.
  fold (timeline_size (default (of_Z 10) maxResults)) in *.
  fold (timeline_request userId (default (of_Z 10) maxResults)) in *.
  destruct (rl_call _ _ _ _ _ _ _) as [[[res|e] σ1] evs1]; observe_op;
    destruct R as [Ha [_ [Hs _]]]; [|auto].
  unfold op_ret. cbn [fst snd]. rewrite app_nil_r.
  split; [exact Hs|]. exists res. auto.
Qed.

(** [slice(0, end)] keeps the first [k] elements when [end] truncates to
    an integer [k] that is not negative. *)
Lemma slice0_truncated {A} (end_ : number) (k : Z) (l : list A) :
  ToIntegerOrInfinity end_ = Integer k -> 0 <= k ->
  slice0 end_ l = firstn (Z.to_nat k) l.
Proof.
  intros E Hk. unfold slice0. rewrite E.
  replace (k <? 0) with false by (symmetry; apply Z.ltb_ge; exact Hk).
  destruct (Z.le_ge_cases k (Z.of_nat (length l))) as [H|H].
  - rewrite Z.min_l, Z.max_l by lia. reflexivity.
  - rewrite Z.min_r, Z.max_l by lia. rewrite Nat2Z.id.
    rewrite firstn_all. symmetry. apply firstn_all2. lia.
Qed.

Lemma timeline_tweets_length (n : number) (k : Z) (page : PostsResponse) :
  ToIntegerOrInfinity n = Integer k -> 0 <= k ->
  timeline_tweets n page
  = List.map to_own_tweet (firstn (Z.to_nat k) (default [] (posts_data page)))
  /\ Z.of_nat (length (timeline_tweets n page)) <= k.
Proof.
  intros E Hk. unfold timeline_tweets.
  rewrite (slice0_truncated n k _ E Hk). split; [reflexivity|].
  rewrite length_map, length_firstn. lia.
Qed.

(** X16. A timeline is asked with the size
    [Math.max(5, Math.min(maxResults, 100))], 10 standing for a
    [maxResults] that is not given: a size between 5 and 100 for every
    [maxResults] that is a number, and NaN when [maxResults] is NaN.  The
    answer is then trimmed with [slice(0, maxResults)]: when [maxResults]
    truncates to an integer [k] that is not negative (NaN counting as 0),
    the first [k] tweets of the page are returned, in order, and no
    more. *)
Theorem getUserTimeline_bounds (userId : string) (maxResults : option number)
    (σ : RateLimiter * W) :
  let r := getUserTimeline' userId maxResults σ in
  let n := default (of_Z 10) maxResults in
  Forall (fun q => exists opts, q = UsersGetPosts userId (timeline_size n) opts)
         (sent (op_events r))
  /\ (is_nan n = false ->
      leb (of_Z 5) (timeline_size n) = true
      /\ leb (timeline_size n) (of_Z 100) = true)
  /\ (is_nan n = true -> is_nan (timeline_size n) = true)
  /\ forall tweets,
       op_completion r = Resolved tweets ->
       forall k,
         ToIntegerOrInfinity n = Integer k -> 0 <= k ->
         Z.of_nat (length tweets) <= k
         /\ exists page,
              answered (op_events r)
              = [(timeline_request userId n, SomePosts page)]
              /\ tweets
                 = List.map to_own_tweet
                     (firstn (Z.to_nat k) (default [] (posts_data page))).
Proof.
  cbv zeta.
  destruct (getUserTimeline_observed userId maxResults σ) as [Hs H].
  cbv zeta in Hs, H.
  destruct (timeline_size_bounds (default (of_Z 10) maxResults)) as [Hb Hn].
  split; [|split; [exact Hb|split; [exact Hn|]]].
  - eapply Forall_impl; [exact Hs|]. intros q <-.
    unfold timeline_request. eexists. reflexivity.
  - intros tweets Hc k Hk Hk0. rewrite Hc in H. destruct H as [page [Ha ->]].
    destruct (timeline_tweets_length _ k page Hk Hk0) as [Ht Hl].
    split; [exact Hl|]. exists page. split; [exact Ha|exact Ht].
Qed.

(** *** measure.ts *)

Lemma measureArticle_of_observed (tweetId : string) (σ : RateLimiter * W) :
  let r := measureArticle_of' tweetId σ in
  match op_completion r with
  | Resolved m =>
      exists res,
        answered (op_events r) = [(tweet_lookup tweetId, OnePost res)]
        /\ m = article_of res
  | Rejected _ => answered (op_events r) = []
  end.
Proof.
  cbv zeta. unfold measureArticle_of, op_bind.
  pose proof (getTweet_observed tweetId σ) as G. cbv zeta in G.
  destruct (getTweet _ _ _ _ _) as [[[tweet|e] σ1] evs1]; observe_op;
    [|exact G].
  destruct G as [res [Ha Hm]]. unfold op_ret. cbn [fst snd].
  rewrite app_nil_r. exists res. auto.
Qed.

Lemma measureArticles_loop_cons (id : string) (tweetIds : list string)
    (results : list ArticleMetrics) (σ : RateLimiter * W) :
  measureArticles_loop' (id :: tweetIds) results σ =
  let r1 := measureArticle_of' id σ in
  match op_completion r1 with
  | Rejected e => (Rejected e, (op_limiter r1, op_world r1), op_events r1)
  | Resolved m =>
      let r2 := measureArticles_loop' tweetIds
                  (results ++ option_list m) (op_limiter r1, op_world r1) in
      (op_completion r2, (op_limiter r2, op_world r2),
       op_events r1 ++ op_events r2)
  end.
Proof.
  cbn [measureArticles_loop]. unfold op_bind at 1.
  destruct (measureArticle_of _ _ _ _ _) as [[[m|e] [this1 w1]] evs1];
    observe_op; [|reflexivity].
  cbv zeta.
  replace (results ++ option_list m)
    with (match m with Some m0 => results ++ [m0] | None => results end)
    by (destruct m; cbn; rewrite ?app_nil_r; reflexivity).
  destruct (measureArticles_loop _ _ _ _ _ _) as [[c2 [this2 w2]] evs2].
  reflexivity.
Qed.

Lemma measureArticles_loop_exchange (tweetIds : list string) :
  forall results σ,
    let r := measureArticles_loop' tweetIds results σ in
    exists responses,
      answered (op_events r)
      = zip (List.map tweet_lookup (firstn (length responses) tweetIds))
            (List.map OnePost responses)
      /\ match op_completion r with
         | Resolved out =>
             length responses = length tweetIds
             /\ out = results ++ omap article_of responses
         | Rejected _ => (length responses < length tweetIds)%nat
         end.
Proof.
  induction tweetIds as [|id tweetIds IH]; intros results σ.
  - exists []. cbn. rewrite app_nil_r. auto.
  - cbv zeta. rewrite measureArticles_loop_cons. cbv zeta.
    pose proof (measureArticle_of_observed id σ) as C. cbv zeta in C.
    destruct (measureArticle_of _ _ _ _ _) as [[[m|e] [this1 w1]] evs1];
      observe_op.
    + destruct C as [res [Ha ->]].
      match goal with |- context [measureArticles_loop ?x1 ?x2 ?x3 ?x4 ?x5 ?x6] =>
        destruct (IH x5 x6) as [responses [Hx Hc]] end.
      cbv zeta in Hx, Hc. observe_op.
      exists (res :: responses). rewrite answered_app, Ha, Hx.
      split; [reflexivity|].
      destruct (fst (fst (measureArticles_loop _ _ _ _ _ _))) as [out|e].
      * destruct Hc as [Hlen ->]. cbn [length].
        rewrite <- app_assoc. split; [lia|].
        change (omap article_of (res :: responses))
          with (match article_of res with
                | Some m => m :: omap article_of responses
                | None => omap article_of responses
                end).
        destruct (article_of res); reflexivity.
      * cbn [length]. lia.
    + exists []. rewrite C. cbn. split; [reflexivity|lia].
Qed.

(** X17. [measureArticles], when it resolves, has looked up every id
    once, in the order given, and returns the measurements in that order,
    leaving out the tweets that do not exist or have no metrics. *)
Theorem measureArticles_in_order (tweetIds : list string)
    (σ : RateLimiter * W) (out : list ArticleMetrics) :
  let r := measureArticles' tweetIds σ in
  op_completion r = Resolved out ->
  exists responses,
    length responses = length tweetIds
    /\ answered (op_events r)
       = zip (List.map tweet_lookup tweetIds) (List.map OnePost responses)
    /\ out = omap article_of responses.
Proof.
  cbv zeta. unfold measureArticles. intros Hc.
  destruct (measureArticles_loop_exchange tweetIds [] σ)
    as [responses [Hx H]].
  cbv zeta in Hx, H. rewrite Hc in H. destruct H as [Hlen ->].
  exists responses. rewrite Hlen, firstn_all in Hx. auto.
Qed.

Lemma pulseCheck_observed (postCount : option number)
    (σ : RateLimiter * W) :
  let r := pulseCheck' postCount σ in
  let n := default (of_Z 10) postCount in
  match op_completion r with
  | Resolved None =>
      Forall (eq profile_request) (sent (op_events r))
      /\ exists res,
           answered (op_events r) = [(profile_request, OneUser res)]
           /\ user_data res = None
  | Resolved (Some pulse) =>
      exists d page,
        answered (op_events r)
        = [(profile_request, OneUser {| user_data := Some d |});
           (timeline_request (profile_id d) n, SomePosts page)]
        /\ pulse_user pulse = to_user d
        /\ pulse_recentPosts pulse = timeline_tweets n page
        /\ (pulse_totalImpressions pulse, pulse_totalBookmarks pulse,
            pulse_totalLikes pulse)
           = pulse_totals (pulse_recentPosts pulse)
        /\ pulse_avgBookmarkRate pulse
           = pulse_rate (pulse_totalImpressions pulse)
                        (pulse_totalBookmarks pulse)
  | Rejected _ => True
  end.
Proof.
  cbv zeta. unfold pulseCheck, op_bind.
  destruct (getMe_observed σ) as [Hs G]. cbv zeta in Hs, G.
  destruct (getMe _ _ _ _) as [[[user|e] σ1] evs1]; observe_op; [|exact I].
  destruct G as [[[d|]] [Ha ->]]; cbn [option_map user_data].
  - pose proof (getUserTimeline_observed (profile_id d)
                  (Some (default (of_Z 10) postCount)) σ1) as [_ T].
    cbv zeta in T. cbn [ud_id to_user].
    change (default (of_Z 10) (Some (default (of_Z 10) postCount)))
      with (default (of_Z 10) postCount) in T.
    destruct (getUserTimeline _ _ _ _ _ _) as [[[tweets|e] σ2] evs2];
      observe_op; [|exact I].
    destruct T as [page [Ha2 ->]].
    destruct (pulse_totals
                (timeline_tweets (default (of_Z 10) postCount) page))
      as [[ti tb] tl] eqn:Ht.
    unfold op_ret. cbv beta iota zeta. cbn [fst snd].
    rewrite app_nil_r, answered_app, Ha, Ha2.
    exists d, page.
    cbn [pulse_user pulse_recentPosts pulse_totalImpressions
         pulse_totalBookmarks pulse_totalLikes pulse_avgBookmarkRate app].
    rewrite Ht. repeat split; reflexivity.
  - unfold op_ret. cbn [fst snd]. rewrite app_nil_r.
    split; [exact Hs|]. eexists. split; [exact Ha|reflexivity].
Qed.

(** X18. When the profile request comes back without data, [pulseCheck]
    resolves with [null] after that one exchange: no timeline is
    requested. *)
Theorem pulseCheck_without_profile (postCount : option number)
    (σ : RateLimiter * W) :
  let r := pulseCheck' postCount σ in
  op_completion r = Resolved None ->
  Forall (eq profile_request) (sent (op_events r))
  /\ exists res,
       answered (op_events r) = [(profile_request, OneUser res)]
       /\ user_data res = None.
Proof.
  cbv zeta. intros Hc.
  pose proof (pulseCheck_observed postCount σ) as P. cbv zeta in P.
  rewrite Hc in P. exact P.
Qed.

(** X19. A pulse check that reports has made two exchanges, the profile
    and then the timeline of that profile's id, asked with the size
    [Math.max(5, Math.min(postCount, 100))] (10 standing for a
    [postCount] that is not given): between 5 and 100 for a [postCount]
    that is a number, NaN for NaN.  It reports that profile, the page
    trimmed with [slice(0, postCount)], so at most [k] posts when
    [postCount] truncates to an integer [k] that is not negative (NaN
    counting as 0), and the totals over these posts. *)
Theorem pulseCheck_reports_own_timeline (postCount : option number)
    (σ : RateLimiter * W) (pulse : PulseCheckResult) :
  let r := pulseCheck' postCount σ in
  op_completion r = Resolved (Some pulse) ->
  let n := default (of_Z 10) postCount in
  exists d page,
    answered (op_events r)
    = [(profile_request, OneUser {| user_data := Some d |});
       (UsersGetPosts (profile_id d) (timeline_size n)
          {| tweetFields := ["created_at"; "public_metrics"]%string;
             expansions := []; userFields := [] |},
        SomePosts page)]
    /\ (is_nan n = false ->
        leb (of_Z 5) (timeline_size n) = true
        /\ leb (timeline_size n) (of_Z 100) = true)
    /\ (is_nan n = true -> is_nan (timeline_size n) = true)
    /\ pulse_user pulse = to_user d
    /\ pulse_recentPosts pulse = timeline_tweets n page
    /\ (forall k,
          ToIntegerOrInfinity n = Integer k -> 0 <= k ->
          Z.of_nat (length (pulse_recentPosts pulse)) <= k)
    /\ (pulse_totalImpressions pulse, pulse_totalBookmarks pulse,
        pulse_totalLikes pulse)
       = pulse_totals (pulse_recentPosts pulse).
Proof.
  cbv zeta. intros Hc.
  pose proof (pulseCheck_observed postCount σ) as P. cbv zeta in P.
  rewrite Hc in P. destruct P as [d [page [Ha [Hu [Hp [Ht _]]]]]].
  destruct (timeline_size_bounds (default (of_Z 10) postCount)) as [Hb Hn].
  exists d, page. split; [exact Ha|]. split; [exact Hb|]. split; [exact Hn|].
  split; [exact Hu|]. split; [exact Hp|]. split; [|exact Ht].
  intros k Hk Hk0. rewrite Hp.
  apply (timeline_tweets_length _ k page Hk Hk0).
Qed.

(** X20. A pulse check over a single post that has metrics reports the
    bookmark rate [measureArticle] computes for that post, and its
    impressions and bookmarks as the totals (the counts not being the
    negative zero). *)
Theorem pulseCheck_single_post_agrees_with_measureArticle
    (postCount : option number) (σ : RateLimiter * W)
    (pulse : PulseCheckResult)
    (post : TweetData * TweetOrigin) (m : Metrics) :
  let r := pulseCheck' postCount σ in
  op_completion r = Resolved (Some pulse) ->
  pulse_recentPosts pulse = [post] ->
  metrics (fst post) = Some m ->
  not_negative_zero (impressions m) ->
  not_negative_zero (bookmarks m) ->
  exists a,
    measureArticle (Some (fst post)) = Some a
    /\ pulse_avgBookmarkRate pulse = bookmarkRate a
    /\ pulse_totalImpressions pulse = am_impressions a
    /\ pulse_totalBookmarks pulse = am_bookmarks a.
Proof.
  cbv zeta. intros Hc Hposts Hm Hi Hb.
  pose proof (pulseCheck_observed postCount σ) as P. cbv zeta in P.
  rewrite Hc in P. destruct P as [d [page [_ [_ [_ [Ht Hr]]]]]].
  rewrite Hposts in Ht. unfold pulse_totals in Ht. cbn [fold_left] in Ht.
  rewrite Hm, (add_zero_l _ Hi), (add_zero_l _ Hb) in Ht.
  injection Ht as Hti Htb _.
  unfold measureArticle. rewrite Hm. eexists. split; [reflexivity|].
  cbn [bookmarkRate am_impressions am_bookmarks].
  rewrite Hr, Hti, Htb. repeat split; reflexivity.
Qed.

End OperationProperties.

(* ===================================================================== *)
(** * Further properties of the scheduling service client *)
(* ===================================================================== *)

(** [replace(/\/$/, "")] removes the slash a string ends with, one slash
    only, and leaves any other string as it is. *)
Lemma strip_trailing_slash_cons (c : ascii) (s : string) :
  strip_trailing_slash (String c s)
  = match s with
    | EmptyString => if Ascii.eqb c "/" then EmptyString else String c s
    | String _ _ => String c (strip_trailing_slash s)
    end.
Proof. destruct s; reflexivity. Qed.

Lemma strip_trailing_slash_app (s : string) :
  strip_trailing_slash (s ++ "/") = s.
Proof.
  induction s as [|c s IH]; [reflexivity|].
  rewrite append_cons, strip_trailing_slash_cons, IH.
  destruct s; reflexivity.
Qed.

Lemma strip_trailing_slash_other (s : string) :
  ~ ends_with_slash s -> strip_trailing_slash s = s.
Proof.
  induction s as [|c s IH]; intros Hs; [reflexivity|].
  rewrite strip_trailing_slash_cons. destruct s as [|c' s'].
  - destruct (Ascii.eqb_spec c "/") as [->|_]; [|reflexivity].
    exfalso. apply Hs. exists EmptyString. reflexivity.
  - rewrite IH; [reflexivity|]. intros [s0 E]. apply Hs.
    exists (String c s0). rewrite append_cons, E. reflexivity.
Qed.

Section SchedulerFurther.

Context {W Json : Type}.
Variable fetch : Request -> W -> Completion Response * W.
Variable JSON_stringify : Json -> string.
Variable JSON_parse : string -> Completion Json.

(** [request] sends one request, whatever comes back. *)
Lemma request_sends_once (this : Scheduler) (method path : string)
    (body : option Json) (w : W) :
  snd (request fetch JSON_stringify JSON_parse this method path body w)
  = [request_sent JSON_stringify this method path body].
Proof.
  unfold request.
  fold (request_sent JSON_stringify this method path body).
  destruct (fetch _ w) as [[res|e] w']; [|reflexivity].
  destruct (negb (ok res)); reflexivity.
Qed.

(** X21. Every route of the scheduler but [health] sends exactly one
    request, never a second one, to the base URL followed by the route's
    path, with the API key as bearer token; the listing is a GET without
    body, the others are POSTs of the serialised options.  [health]
    sends one bare GET, without the key. *)
Theorem scheduler_routes_send_one_request (this : Scheduler) (opts : Json)
    (st : option PostStatus) (w : W) :
  let authorised method path body :=
    [ {| url := (baseUrl this ++ path)%string; method := method;
         headers := [ ("Content-Type", "application/json");
                      ("Authorization", "Bearer " ++ apiKey this) ]%string;
         body := body |} ] in
  let posted := Some (JSON_stringify opts) in
  snd (schedule fetch JSON_stringify JSON_parse this opts w)
  = authorised "POST"%string "/schedule"%string posted
  /\ snd (scheduleBatch fetch JSON_stringify JSON_parse this opts w)
     = authorised "POST"%string "/schedule-batch"%string posted
  /\ snd (scheduleThread fetch JSON_stringify JSON_parse this opts w)
     = authorised "POST"%string "/schedule-thread"%string posted
  /\ snd (cancel fetch JSON_stringify JSON_parse this opts w)
     = authorised "POST"%string "/cancel"%string posted
  /\ snd (listPosts fetch JSON_stringify JSON_parse this st w)
     = authorised "GET"%string
         (match st with
          | Some s => ("/posts?status=" ++ PostStatus_to_string s)%string
          | None => "/posts"%string
          end) None
  /\ snd (health fetch JSON_parse this w)
     = [ {| url := (baseUrl this ++ "/health")%string; method := "GET";
            headers := []; body := None |} ].
Proof.
  cbv zeta.
  unfold schedule, scheduleBatch, scheduleThread, cancel, listPosts.
  rewrite !request_sends_once. repeat split.
  unfold health. destruct (fetch _ w) as [[res|e] w']; reflexivity.
Qed.

(** X22. A base URL given with a slash at its end reaches the same
    addresses as the URL without it: the constructor drops that slash, one
    slash only, and the requests go to the URL followed by the path. *)
Theorem new_Scheduler_trailing_slash (base key method path : string)
    (body : option Json) :
  baseUrl (new_Scheduler (base ++ "/") key) = base
  /\ url (request_sent JSON_stringify (new_Scheduler (base ++ "/") key)
            method path body)
     = (base ++ path)%string
  /\ (~ ends_with_slash base ->
      new_Scheduler (base ++ "/") key = new_Scheduler base key).
Proof.
  unfold new_Scheduler, request_sent. cbn [baseUrl url].
  rewrite strip_trailing_slash_app. split; [reflexivity|].
  split; [reflexivity|].
  intros Hs. rewrite (strip_trailing_slash_other base Hs). reflexivity.
Qed.

End SchedulerFurther.

(** *** The scheduler of the environment *)

(** X23. [Scheduler.fromEnv] needs the key and nothing else: it rejects,
    naming the variable, exactly when [SCHEDULER_API_KEY] is unset or
    empty, and otherwise makes a scheduler with that key whose base URL is
    [SCHEDULER_URL] if that variable is set (be it to the empty string),
    else [SCHEDULER_API_URL], else the default, without the slash at its
    end. *)
Theorem Scheduler_fromEnv_settings (process_env : gmap string string) :
  let location :=
    match process_env !! "SCHEDULER_URL"%string with
    | Some v => v
    | None => default "https://api-production-bb3f.up.railway.app"%string
                      (process_env !! "SCHEDULER_API_URL"%string)
    end in
  (is_missing process_env "SCHEDULER_API_KEY" = true
   /\ Scheduler_fromEnv process_env
      = Rejected (new_Error "SCHEDULER_API_KEY not set"))
  \/ (exists key,
        process_env !! "SCHEDULER_API_KEY"%string = Some key
        /\ key <> EmptyString
        /\ Scheduler_fromEnv process_env
           = Resolved {| baseUrl := strip_trailing_slash location;
                         apiKey := key |}).
Proof.
  cbv zeta. unfold Scheduler_fromEnv, is_missing, new_Scheduler.
  destruct (process_env !! "SCHEDULER_API_KEY"%string) as [[|c key]|].
  - left. split; reflexivity.
  - right. exists (String c key). split; [reflexivity|].
    split; [discriminate|].
    cbn [Str.truthy negb].
    destruct (process_env !! "SCHEDULER_URL"%string); [reflexivity|].
    destruct (process_env !! "SCHEDULER_API_URL"%string); reflexivity.
  - left. split; reflexivity.
Qed.

(** X24. The scheduler of the environment is the one [envFromProcess]
    describes: when both succeed, the key is the [schedulerKey] of the
    configuration and the base URL its [schedulerUrl], or the default
    when there is none, without the slash at its end. *)
Theorem Scheduler_fromEnv_agrees_with_envFromProcess
    (process_env : gmap string string) (cfg : CosmoEnv) (this : Scheduler) :
  envFromProcess process_env = Resolved cfg ->
  Scheduler_fromEnv process_env = Resolved this ->
  schedulerKey cfg = Some (apiKey this)
  /\ baseUrl this
     = strip_trailing_slash
         (default "https://api-production-bb3f.up.railway.app"%string
                  (schedulerUrl cfg)).
Proof.
  unfold envFromProcess, Scheduler_fromEnv.
  destruct (0 <? length _)%nat; [discriminate|].
  intros [= <-]. cbn [schedulerKey schedulerUrl].
  destruct (process_env !! "SCHEDULER_API_KEY"%string) as [key|];
    [|discriminate].
  destruct (negb (Str.truthy key)); [discriminate|].
  intros [= <-]. cbn [apiKey baseUrl new_Scheduler].
  split; [reflexivity|].
  destruct (process_env !! "SCHEDULER_URL"%string); [reflexivity|].
  destruct (process_env !! "SCHEDULER_API_URL"%string); reflexivity.
Qed.

(* ===================================================================== *)
(** * The further properties at the example service *)
(* ===================================================================== *)

Lemma postThread_posts_chain_witness :
  let r := postThread clock timer example_client example_thread
             (Some (of_Z 50)) (test_limiter, epoch) in
  exists out,
    op_completion r = Resolved out
    /\ exists responses,
         length responses = length example_thread
         /\ out = List.map createPost_result responses
         /\ answered (op_events r)
            = thread_exchange example_thread None responses.
Proof.
  cbv zeta. eexists. split; [vm_compute; reflexivity|].
  apply (postThread_posts_chain clock timer example_client example_thread
           (Some (of_Z 50)) (test_limiter, epoch)).
  vm_compute. reflexivity.
Defined.

Lemma postThread_failure_keeps_posts_witness :
  let r := postThread clock timer closing_client example_thread
             (Some (of_Z 50)) (test_limiter, epoch) in
  op_completion r = Rejected forbidden
  /\ exists responses,
       (length responses < length example_thread)%nat
       /\ answered (op_events r)
          = thread_exchange example_thread None responses.
Proof.
  cbv zeta. split; [vm_compute; reflexivity|].
  apply (postThread_failure_keeps_posts clock timer closing_client
           example_thread (Some (of_Z 50)) (test_limiter, epoch) forbidden).
  vm_compute. reflexivity.
Defined.

Lemma postThread_pauses_between_posts_witness :
  let r := postThread clock timer example_client example_thread
             (Some (of_Z 50)) (test_limiter, epoch) in
  delays (op_events r) = [of_Z 50; of_Z 50]
  /\ (example_thread <> [] ->
      exists q res, last (op_events r)
                    = Some (ApiInvoke "post.create" q (Resolved res))).
Proof.
  cbv zeta.
  eapply (postThread_pauses_between_posts clock timer example_client
            example_thread (Some (of_Z 50)) (test_limiter, epoch)).
  - apply (bool_decide_unpack _). vm_compute. reflexivity.
  - vm_compute. reflexivity.
Defined.

Lemma postThread_repeated_text_pauses_at_end_witness :
  let r := postThread clock timer example_client
             (["one"; "two"]%string ++ ["one"%string]) (Some (of_Z 50))
             (test_limiter, epoch) in
  last (op_events r) = Some (ApiDelay (of_Z 50)).
Proof.
  cbv zeta.
  eapply (postThread_repeated_text_pauses_at_end clock timer example_client
            ["one"; "two"]%string "one" (Some (of_Z 50)) (test_limiter, epoch)).
  - apply (bool_decide_unpack _). vm_compute. reflexivity.
  - vm_compute. reflexivity.
  - vm_compute. reflexivity.
Defined.

Lemma searchRecent_follows_tokens_witness :
  let r := searchRecent clock timer example_client example_search
             (test_limiter, epoch) in
  exists resp,
    op_completion r = Resolved resp
    /\ exists fetched : list PostsResponse,
         answered (op_events r)
         = search_exchange example_search (of_Z 10) None fetched
         /\ search_results resp = concat (List.map page_tweets fetched)
         /\ search_totalPages resp = Z.of_nat (length fetched)
         /\ search_nextToken resp = last_token fetched.
Proof.
  cbv zeta. eexists. split; [vm_compute; reflexivity|].
  apply (searchRecent_follows_tokens clock timer example_client example_search
           (test_limiter, epoch)).
  vm_compute. reflexivity.
Defined.

Lemma searchRecent_stops_without_token_witness :
  let r := searchRecent clock timer example_client example_search
             (test_limiter, epoch) in
  exists resp,
    op_completion r = Resolved resp
    /\ search_totalPages resp = 2
    /\ (search_totalPages resp < 3 ->
        truthy_env (search_nextToken resp) = false)
    /\ (0 < 3 -> 1 <= search_totalPages resp <= 3).
Proof.
  cbv zeta. eexists. split; [vm_compute; reflexivity|].
  split; [reflexivity|].
  apply (searchRecent_stops_without_token clock timer example_client
           example_search (test_limiter, epoch)).
  vm_compute. reflexivity.
Defined.

Lemma measureArticles_in_order_witness :
  let tweetIds := ["1"; "404"; "7"; "2"]%string in
  let r := measureArticles clock timer example_client tweetIds
             (test_limiter, epoch) in
  exists out,
    op_completion r = Resolved out
    /\ List.map am_id out = ["1"; "2"]%string
    /\ exists responses,
         length responses = length tweetIds
         /\ answered (op_events r)
            = zip (List.map tweet_lookup tweetIds) (List.map OnePost responses)
         /\ out = omap article_of responses.
Proof.
  cbv zeta. eexists. split; [vm_compute; reflexivity|].
  split; [reflexivity|].
  apply (measureArticles_in_order clock timer example_client
           ["1"; "404"; "7"; "2"]%string (test_limiter, epoch)).
  vm_compute. reflexivity.
Defined.

Lemma pulseCheck_without_profile_witness :
  let r := pulseCheck clock timer closing_client None (test_limiter, epoch) in
  Forall (eq profile_request) (sent (op_events r))
  /\ exists res,
       answered (op_events r) = [(profile_request, OneUser res)]
       /\ user_data res = None.
Proof.
  cbv zeta.
  apply (pulseCheck_without_profile clock timer closing_client None
           (test_limiter, epoch)).
  vm_compute. reflexivity.
Defined.

Lemma pulseCheck_reports_own_timeline_witness :
  let r := pulseCheck clock timer example_client (Some (of_Z 3))
             (test_limiter, epoch) in
  exists pulse,
    op_completion r = Resolved (Some pulse)
    /\ length (pulse_recentPosts pulse) = 3%nat
    /\ exists d page,
         answered (op_events r)
         = [(profile_request, OneUser {| user_data := Some d |});
            (UsersGetPosts (profile_id d) (timeline_size (of_Z 3))
               {| tweetFields := ["created_at"; "public_metrics"]%string;
                  expansions := []; userFields := [] |},
             SomePosts page)]
         /\ (is_nan (of_Z 3) = false ->
             leb (of_Z 5) (timeline_size (of_Z 3)) = true
             /\ leb (timeline_size (of_Z 3)) (of_Z 100) = true)
         /\ (is_nan (of_Z 3) = true -> is_nan (timeline_size (of_Z 3)) = true)
         /\ pulse_user pulse = to_user d
         /\ pulse_recentPosts pulse = timeline_tweets (of_Z 3) page
         /\ (forall k,
               ToIntegerOrInfinity (of_Z 3) = Integer k -> 0 <= k ->
               Z.of_nat (length (pulse_recentPosts pulse)) <= k)
         /\ (pulse_totalImpressions pulse, pulse_totalBookmarks pulse,
             pulse_totalLikes pulse)
            = pulse_totals (pulse_recentPosts pulse).
Proof.
  cbv zeta. eexists. split; [vm_compute; reflexivity|].
  split; [reflexivity|].
  apply (pulseCheck_reports_own_timeline clock timer example_client
           (Some (of_Z 3)) (test_limiter, epoch)).
  vm_compute. reflexivity.
Defined.

Lemma pulseCheck_single_post_agrees_with_measureArticle_witness :
  let r := pulseCheck clock timer example_client (Some (of_Z 1))
             (test_limiter, epoch) in
  exists pulse post,
    op_completion r = Resolved (Some pulse)
    /\ pulse_recentPosts pulse = [post]
    /\ exists a,
         measureArticle (Some (fst post)) = Some a
         /\ pulse_avgBookmarkRate pulse = bookmarkRate a
         /\ pulse_totalImpressions pulse = am_impressions a
         /\ pulse_totalBookmarks pulse = am_bookmarks a.
Proof.
  cbv zeta. eexists _, _. split; [vm_compute; reflexivity|].
  split; [vm_compute; reflexivity|].
  eapply (pulseCheck_single_post_agrees_with_measureArticle clock timer
            example_client (Some (of_Z 1)) (test_limiter, epoch)).
  - vm_compute. reflexivity.
  - vm_compute. reflexivity.
  - vm_compute. reflexivity.
  - vm_compute. discriminate.
  - vm_compute. discriminate.
Defined.

Lemma Scheduler_fromEnv_agrees_with_envFromProcess_witness :
  exists cfg this,
    envFromProcess env_with_scheduler = Resolved cfg
    /\ Scheduler_fromEnv env_with_scheduler = Resolved this
    /\ schedulerKey cfg = Some (apiKey this)
    /\ baseUrl this
       = strip_trailing_slash
           (default "https://api-production-bb3f.up.railway.app"%string
                    (schedulerUrl cfg)).
Proof.
  eexists _, _. split; [vm_compute; reflexivity|].
  split; [vm_compute; reflexivity|].
  apply (Scheduler_fromEnv_agrees_with_envFromProcess env_with_scheduler);
    vm_compute; reflexivity.
Defined.

(* ===================================================================== *)
(** * Strings beyond ASCII *)
(* ===================================================================== *)

(** On a string of characters below U+0080 a code unit is a byte, and
    [substring(0, n)] is the prefix of [n] bytes. *)
Lemma substring0_ascii (s : string) :
  all_ascii s = true ->
  forall n, Str.substring0 n s = String.substring 0 n s.
Proof.
  induction s as [|c s IH]; intros Hs n.
  - destruct n; reflexivity.
  - cbn [all_ascii] in Hs. apply andb_prop in Hs as [Hc Hs].
    apply Z.ltb_lt in Hc. cbn [Str.substring0].
    unfold Str.is_continuation, Str.starts_pair.
    replace (128 <=? Str.byte_value c) with false
      by (symmetry; apply Z.leb_gt; lia).
    replace (240 <=? Str.byte_value c) with false
      by (symmetry; apply Z.leb_gt; lia).
    cbn [andb]. destruct n as [|n]; [reflexivity|].
    cbn [String.substring]. rewrite (IH Hs). reflexivity.
Qed.

(** [parseInt] skips the white space beyond ASCII too: a header that
    starts with an ideographic or a no-break space still gives the hint
    of fifteen seconds and the wait of sixteen. *)
Example parseInt_skips_unicode_space :
  Str.parseInt10 (ideographic_space ++ "1700000015") = of_Z 1700000015
  /\ Str.parseInt10 (no_break_space ++ " " ++ ideographic_space ++ "-42")
     = of_Z (-42)
  /\ completion_of
       (extractResetSeconds (T:=string) clock
          (error_with_reset (ideographic_space ++ "1700000015"))
          (test_limiter, epoch))
     = Resolved (Some (of_Z 15))
  /\ completion_of
       (getWaitMs (T:=string) clock
          (error_with_reset (no_break_space ++ "1700000015")) 0
          (test_limiter, epoch))
     = Resolved (of_Z 16000).
Proof. repeat split; vm_compute; reflexivity. Qed.

(** [substring(0, 120)] counts UTF-16 code units: seventy letters of two
    bytes are kept whole, of a hundred and thirty the first hundred and
    twenty are kept, and a character outside the basic plane counts for
    two, its high surrogate being kept when one unit is left. *)
Example substring_counts_code_units :
  Str.substring0 120 (copies 70 e_acute) = copies 70 e_acute
  /\ Str.substring0 120 (copies 130 e_acute) = copies 120 e_acute
  /\ Str.substring0 120 (copies 130 "a") = copies 120 "a"
  /\ Str.substring0 4 ("ab" ++ grinning_face ++ "c") = ("ab" ++ grinning_face)%string
  /\ Str.substring0 3 ("ab" ++ grinning_face ++ "c")
     = ("ab" ++ grinning_face_high)%string.
Proof. repeat split; vm_compute; reflexivity. Qed.

(** The text of a measured tweet is cut in the same way. *)
Example measureArticle_keeps_short_text :
  let tweet := {| tweet_id := "1"; tweet_text := copies 70 e_acute;
                  metrics := Some test_metrics |} in
  (am_text <$> measureArticle (Some tweet)) = Some (copies 70 e_acute).
Proof. vm_compute. reflexivity. Qed.
